(** * GEDCOM-to-PDF: the record parser and the generation builder

    A shallow embedding of [clean_id], [parse_gedcom] and
    [build_generations] of [gedcom_to_pdf.py], and the properties the
    specification states about them.

    Conventions.
    - A Python [str] is a [string]; a character is a code point of the
      Latin-1 range (Rocq's [ascii]).
    - A [dict] keyed by strings is a [gmap string _]; the generation
      [defaultdict] is a [gmap Z (list string)].
    - A Python function may raise: such code lives in the [result] monad.
      A subscript [d[k]] on a plain dict raises [KeyError] when [k] is
      missing; that is kept, and the absence of any raise is proved. *)

From Stdlib Require Import ZArith Ascii String List Bool Lia.
From Stdlib Require Import DecimalString DecimalZ DecimalPos.
From stdpp Require Import base option list gmap strings fin_maps sorting.

Local Open Scope Z_scope.
Local Open Scope string_scope.

(** ** Exceptions *)

(** [KeyError] is what a failed subscript raises.  [MalformedRecordError]
    is the failure named by the specification of the parser; no statement
    of the source raises it. *)
Inductive exn : Type :=
  | KeyError
  | MalformedRecordError.

Definition result (A : Type) : Type := (exn + A)%type.

Definition raise {A : Type} (e : exn) : result A := inl e.
Definition ret {A : Type} (a : A) : result A := inr a.
Definition bind {A B : Type} (m : result A) (k : A -> result B) : result B :=
  match m with
  | inl e => inl e
  | inr a => k a
  end.

Notation "'do' x <- m ; k" := (bind m (fun x => k))
  (at level 10, x name, m at level 100, k at level 200).

(** A [for] loop whose body may raise. *)
Fixpoint for_each {A S : Type} (body : S -> A -> result S) (xs : list A) (s : S)
  : result S :=
  match xs with
  | [] => ret s
  | x :: xs' => do s' <- body s x; for_each body xs' s'
  end.

(** ** Strings *)

Module Str.

(** [str.isspace] on the code points below 256. *)
Definition is_space (c : ascii) : bool :=
  let n := N_of_ascii c in
  ((9 <=? n) && (n <=? 13) || (28 <=? n) && (n <=? 32)
   || (n =? 133) || (n =? 160))%N.

Definition is_char (c d : ascii) : bool := Ascii.eqb c d.

Fixpoint lstrip (p : ascii -> bool) (s : string) : string :=
  match s with
  | EmptyString => EmptyString
  | String c s' => if p c then lstrip p s' else s
  end.

Fixpoint rstrip (p : ascii -> bool) (s : string) : string :=
  match s with
  | EmptyString => EmptyString
  | String c s' =>
      match rstrip p s' with
      | EmptyString => if p c then EmptyString else String c EmptyString
      | r => String c r
      end
  end.

(** [s.strip()] is [strip is_space s]; [s.strip("@")] is
    [strip (is_char "@") s]. *)
Definition strip (p : ascii -> bool) (s : string) : string :=
  rstrip p (lstrip p s).

(** [break sep s]: the text before the first [sep], and the text after
    it when there is one. *)
Fixpoint break (sep : ascii) (s : string) : string * option string :=
  match s with
  | EmptyString => (EmptyString, None)
  | String c s' =>
      if Ascii.eqb c sep then (EmptyString, Some s')
      else let '(a, r) := break sep s' in (String c a, r)
  end.

(** [s.split(sep, maxsplit)] for a one-character separator. *)
Fixpoint split (sep : ascii) (maxsplit : nat) (s : string) : list string :=
  match maxsplit with
  | O => [s]
  | S m =>
      match break sep s with
      | (a, None) => [a]
      | (a, Some r) => a :: split sep m r
      end
  end.

(** [s.replace(c, "")] for a one-character [c]. *)
Fixpoint remove_all (c : ascii) (s : string) : string :=
  match s with
  | EmptyString => EmptyString
  | String d s' =>
      if Ascii.eqb d c then remove_all c s' else String d (remove_all c s')
  end.

(** [s.startswith(c)] for a one-character [c]. *)
Definition startswith (c : ascii) (s : string) : bool :=
  match s with
  | EmptyString => false
  | String d _ => Ascii.eqb d c
  end.

(** Truth value of a string: non-empty. *)
Definition truthy (s : string) : bool :=
  match s with
  | EmptyString => false
  | String _ _ => true
  end.

(** The first character, if any, is not one that [lstrip p] removes. *)
Definition no_lead (p : ascii -> bool) (s : string) : Prop :=
  match s with
  | EmptyString => True
  | String c _ => p c = false
  end.

End Str.

(** ** Identifier normalisation *)

(** [record_id.strip("@") if record_id else record_id] *)
Definition clean_id (record_id : string) : string :=
  if Str.truthy record_id then Str.strip (Str.is_char "@") record_id
  else record_id.

(** ** Data model *)

(** [{"id", "name", "events", "sources", "famc", "fams"}] *)
Record Person : Type := mkPerson {
  p_id : string;
  p_name : string;
  p_events : gmap string string;
  p_sources : list string;
  p_famc : list string;
  p_fams : list string
}.

(** [{"id", "husb", "wife", "chil", "events"}] *)
Record Family : Type := mkFamily {
  f_id : string;
  f_husb : string;
  f_wife : string;
  f_chil : list string;
  f_events : gmap string string
}.

(** [{"id", "title", "author", "publ", "text"}] *)
Record Source : Type := mkSource {
  s_id : string;
  s_title : string;
  s_author : string;
  s_publ : string;
  s_text : string
}.

Inductive RecType : Type := INDI | FAM | SOUR.

#[global] Instance RecType_eq_dec : EqDecision RecType.
Proof. solve_decision. Defined.

(** The local variables of [parse_gedcom]. *)
Record State : Type := mkState {
  people : gmap string Person;
  families : gmap string Family;
  sources : gmap string Source;
  root_id : option string;
  current : option string;
  current_type : option RecType;
  in_birth : bool;
  in_death : bool;
  in_marr : bool
}.

Definition init : State :=
  mkState ∅ ∅ ∅ None None None false false false.

(** [d[k]] where [k] may be [None]: a missing key raises. *)
Definition getitem {V : Type} (d : gmap string V) (k : option string) : result V :=
  match k with
  | None => raise KeyError
  | Some k' =>
      match d !! k' with
      | Some v => ret v
      | None => raise KeyError
      end
  end.

(** [d[k][field] = ...] and [d[k][field].append(...)]: the record found
    under [k] is changed in place; a missing key raises. *)
Definition modify {V : Type} (d : gmap string V) (k : option string) (f : V -> V)
  : result (gmap string V) :=
  match k with
  | None => raise KeyError
  | Some k' =>
      match d !! k' with
      | Some v => ret (<[k' := f v]> d)
      | None => raise KeyError
      end
  end.

(** ** The record parser *)

(** [parts = line.strip().split(" ", 2)]; a line with fewer than two parts
    is skipped ([None]); otherwise [level], [tag] and [data], the latter
    empty when there is no third part. *)
Definition parse_line (line : string) : option (string * string * string) :=
  match Str.split " " 2 (Str.strip Str.is_space line) with
  | level :: tag :: rest =>
      Some (level, tag, match rest with
                        | data :: _ => data
                        | [] => ""
                        end)
  | _ => None
  end.

(** Field updates of the three record kinds. *)
Definition set_name (v : string) (p : Person) : Person :=
  mkPerson (p_id p) v (p_events p) (p_sources p) (p_famc p) (p_fams p).
Definition set_event (k v : string) (p : Person) : Person :=
  mkPerson (p_id p) (p_name p) (<[k := v]> (p_events p)) (p_sources p)
           (p_famc p) (p_fams p).
Definition append_source (v : string) (p : Person) : Person :=
  mkPerson (p_id p) (p_name p) (p_events p) (p_sources p ++ [v]) (p_famc p)
           (p_fams p).
Definition append_famc (v : string) (p : Person) : Person :=
  mkPerson (p_id p) (p_name p) (p_events p) (p_sources p) (p_famc p ++ [v])
           (p_fams p).
Definition append_fams (v : string) (p : Person) : Person :=
  mkPerson (p_id p) (p_name p) (p_events p) (p_sources p) (p_famc p)
           (p_fams p ++ [v]).

Definition set_husb (v : string) (f : Family) : Family :=
  mkFamily (f_id f) v (f_wife f) (f_chil f) (f_events f).
Definition set_wife (v : string) (f : Family) : Family :=
  mkFamily (f_id f) (f_husb f) v (f_chil f) (f_events f).
Definition append_chil (v : string) (f : Family) : Family :=
  mkFamily (f_id f) (f_husb f) (f_wife f) (f_chil f ++ [v]) (f_events f).
Definition set_fam_event (k v : string) (f : Family) : Family :=
  mkFamily (f_id f) (f_husb f) (f_wife f) (f_chil f) (<[k := v]> (f_events f)).

Definition set_title (v : string) (s : Source) : Source :=
  mkSource (s_id s) v (s_author s) (s_publ s) (s_text s).
Definition set_author (v : string) (s : Source) : Source :=
  mkSource (s_id s) (s_title s) v (s_publ s) (s_text s).
Definition set_publ (v : string) (s : Source) : Source :=
  mkSource (s_id s) (s_title s) (s_author s) v (s_text s).
Definition set_text (v : string) (s : Source) : Source :=
  mkSource (s_id s) (s_title s) (s_author s) (s_publ s) v.

(** [k in d] *)
Definition has_key {V : Type} (k : string) (d : gmap string V) : bool :=
  match d !! k with
  | Some _ => true
  | None => false
  end.

(** The [PLAC] branch of an individual: the first empty slot whose date is
    already there. *)
Definition indi_plac (data : string) (p : Person) : Person :=
  if has_key "birth_date" (p_events p) && negb (has_key "birth_place" (p_events p))
  then set_event "birth_place" data p
  else if has_key "death_date" (p_events p)
          && negb (has_key "death_place" (p_events p))
  then set_event "death_place" data p
  else p.

(** The [PLAC] branch of a family. *)
Definition fam_plac (data : string) (f : Family) : Family :=
  if has_key "marriage_date" (f_events f)
     && negb (has_key "marriage_place" (f_events f))
  then set_fam_event "marriage_place" data f
  else f.

(** State updates. *)
Definition with_people (s : State) (m : gmap string Person) : State :=
  mkState m (families s) (sources s) (root_id s) (current s) (current_type s)
          (in_birth s) (in_death s) (in_marr s).
Definition with_families (s : State) (m : gmap string Family) : State :=
  mkState (people s) m (sources s) (root_id s) (current s) (current_type s)
          (in_birth s) (in_death s) (in_marr s).
Definition with_sources (s : State) (m : gmap string Source) : State :=
  mkState (people s) (families s) m (root_id s) (current s) (current_type s)
          (in_birth s) (in_death s) (in_marr s).
Definition with_in_birth (s : State) (b : bool) : State :=
  mkState (people s) (families s) (sources s) (root_id s) (current s)
          (current_type s) b (in_death s) (in_marr s).
Definition with_in_death (s : State) (b : bool) : State :=
  mkState (people s) (families s) (sources s) (root_id s) (current s)
          (current_type s) (in_birth s) b (in_marr s).
Definition with_in_marr (s : State) (b : bool) : State :=
  mkState (people s) (families s) (sources s) (root_id s) (current s)
          (current_type s) (in_birth s) (in_death s) b.

(** A level-0 line (source lines 63-86): a record is opened when the tag
    starts with [@] and the data names a record type; otherwise the
    current record is closed.  The three flags are cleared in every case. *)
Definition new_record (s : State) (tag data : string) : State :=
  if Str.startswith "@" tag then
    let rec_id := clean_id tag in
    if data =? "INDI" then
      mkState (<[rec_id := mkPerson rec_id "" ∅ [] [] []]> (people s))
              (families s) (sources s)
              (match root_id s with
               | None => Some rec_id
               | Some r => Some r
               end)
              (Some rec_id) (Some INDI) false false false
    else if data =? "FAM" then
      mkState (people s)
              (<[rec_id := mkFamily rec_id "" "" [] ∅]> (families s))
              (sources s) (root_id s) (Some rec_id) (Some FAM) false false false
    else if data =? "SOUR" then
      mkState (people s) (families s)
              (<[rec_id := mkSource rec_id "" "" "" ""]> (sources s))
              (root_id s) (Some rec_id) (Some SOUR) false false false
    else
      mkState (people s) (families s) (sources s) (root_id s) None None
              false false false
  else
    mkState (people s) (families s) (sources s) (root_id s) None None
            false false false.

(** A line of an individual (source lines 89-113). *)
Definition indi_line (s : State) (tag data : string) : result State :=
  if tag =? "NAME" then
    do m <- modify (people s) (current s)
              (set_name (Str.strip Str.is_space (Str.remove_all "/" data)));
    ret (with_people s m)
  else if tag =? "BIRT" then ret (with_in_birth s true)
  else if tag =? "DEAT" then ret (with_in_death s true)
  else if tag =? "FAMC" then
    do m <- modify (people s) (current s) (append_famc (clean_id data));
    ret (with_people s m)
  else if tag =? "FAMS" then
    do m <- modify (people s) (current s) (append_fams (clean_id data));
    ret (with_people s m)
  else if tag =? "SOUR" then
    do m <- modify (people s) (current s) (append_source (clean_id data));
    ret (with_people s m)
  else if tag =? "DATE" then
    if in_birth s then
      do m <- modify (people s) (current s) (set_event "birth_date" data);
      ret (with_in_birth (with_people s m) false)
    else if in_death s then
      do m <- modify (people s) (current s) (set_event "death_date" data);
      ret (with_in_death (with_people s m) false)
    else ret s
  else if tag =? "PLAC" then
    do m <- modify (people s) (current s) (indi_plac data);
    ret (with_people s m)
  else ret s.

(** A line of a family (source lines 116-130). *)
Definition fam_line (s : State) (tag data : string) : result State :=
  if tag =? "HUSB" then
    do m <- modify (families s) (current s) (set_husb (clean_id data));
    ret (with_families s m)
  else if tag =? "WIFE" then
    do m <- modify (families s) (current s) (set_wife (clean_id data));
    ret (with_families s m)
  else if tag =? "CHIL" then
    do m <- modify (families s) (current s) (append_chil (clean_id data));
    ret (with_families s m)
  else if tag =? "MARR" then ret (with_in_marr s true)
  else if (tag =? "DATE") && in_marr s then
    do m <- modify (families s) (current s) (set_fam_event "marriage_date" data);
    ret (with_in_marr (with_families s m) false)
  else if tag =? "PLAC" then
    do m <- modify (families s) (current s) (fam_plac data);
    ret (with_families s m)
  else ret s.

(** A line of a source (source lines 133-141). *)
Definition sour_line (s : State) (tag data : string) : result State :=
  if tag =? "TITL" then
    do m <- modify (sources s) (current s) (set_title data);
    ret (with_sources s m)
  else if tag =? "AUTH" then
    do m <- modify (sources s) (current s) (set_author data);
    ret (with_sources s m)
  else if tag =? "PUBL" then
    do m <- modify (sources s) (current s) (set_publ data);
    ret (with_sources s m)
  else if tag =? "TEXT" then
    do m <- modify (sources s) (current s) (set_text data);
    ret (with_sources s m)
  else ret s.

(** The body of the loop over the lines of the file. *)
Definition step (s : State) (line : string) : result State :=
  match parse_line line with
  | None => ret s
  | Some (level, tag, data) =>
      if level =? "0" then ret (new_record s tag data)
      else
        match current_type s with
        | Some INDI => indi_line s tag data
        | Some FAM => fam_line s tag data
        | Some SOUR => sour_line s tag data
        | None => ret s
        end
  end.

(** The loop, from any state. *)
Definition run (lines : list string) (s : State) : result State :=
  for_each step lines s.

(** What [parse_gedcom] returns: [(people, families, sources, root_id)]. *)
Record Parsed : Type := mkParsed {
  r_people : gmap string Person;
  r_families : gmap string Family;
  r_sources : gmap string Source;
  r_root_id : option string
}.

Definition parsed_of (s : State) : Parsed :=
  mkParsed (people s) (families s) (sources s) (root_id s).

(** [parse_gedcom], on the lines the file iterator yields. *)
Definition parse_gedcom (lines : list string) : result Parsed :=
  do s <- run lines init; ret (parsed_of s).

(** ** The generation builder *)

(** [range(lo, hi)] *)
Definition range (lo hi : Z) : list Z :=
  map (fun i : nat => lo + Z.of_nat i) (seq 0 (Z.to_nat (hi - lo))).

(** [d[k]] on a [defaultdict(list)]: a missing key is entered with the
    empty list, which is returned. *)
Definition defaultdict_getitem (d : gmap Z (list string)) (k : Z)
  : list string * gmap Z (list string) :=
  match d !! k with
  | Some v => (v, d)
  | None => ([], <[k := []]> d)
  end.

(** Truth value of a list: non-empty. *)
Definition list_truthy {A : Type} (l : list A) : bool :=
  match l with
  | [] => false
  | _ :: _ => true
  end.

(** Source lines 161-164: the husband, then the wife, when non-empty. *)
Definition add_parents (fam : Family) (current : list string) : list string :=
  let current :=
    if Str.truthy (f_husb fam) then (current ++ [f_husb fam])%list
    else current in
  if Str.truthy (f_wife fam) then (current ++ [f_wife fam])%list else current.

(** Source lines 158-164: the loop over the child-of list of one person. *)
Definition famc_loop (families : gmap string Family) (famc : list string)
    (current : list string) : list string :=
  fold_left
    (fun cur fam_id =>
       match families !! fam_id with
       | Some fam => add_parents fam cur
       | None => cur
       end)
    famc current.

(** Source lines 155-164: the loop over the previous generation. *)
Definition person_loop (people : gmap string Person)
    (families : gmap string Family) (ids : list string) (current : list string)
  : result (list string) :=
  for_each
    (fun cur person_id =>
       if negb (has_key person_id people) then ret cur
       else
         do p <- getitem people (Some person_id);
         ret (famc_loop families (p_famc p) cur))
    ids current.

(** Source lines 153-167: the loop over the generation numbers, left at
    the first empty accumulator. *)
Fixpoint gen_loop (people : gmap string Person) (families : gmap string Family)
    (gs : list Z) (generations : gmap Z (list string))
  : result (gmap Z (list string)) :=
  match gs with
  | [] => ret generations
  | g :: gs' =>
      let '(prev, generations) := defaultdict_getitem generations (g - 1) in
      do current <- person_loop people families prev [];
      if negb (list_truthy current) then ret generations
      else gen_loop people families gs' (<[g := current]> generations)
  end.

Definition build_generations (people : gmap string Person)
    (families : gmap string Family) (root_id : string) (max_gen : Z)
  : result (gmap Z (list string)) :=
  gen_loop people families (range 2 (max_gen + 1)) {[1 := [root_id]]}.

(** ** The end-to-end example of the specification *)

Definition example_lines : list string :=
  [ "0 @I1@ INDI"; "1 FAMC @F1@";
    "0 @F1@ FAM"; "1 HUSB @I2@"; "1 WIFE @I3@"; "1 MARR";
    "2 DATE 4 JUL 1950"; "2 PLAC Boston" ].

(** ** Notions used to state the properties *)

(** The record that a level-0 line with this tag and data opens, if any:
    the tag starts with [@] and the data names a record type. *)
Definition opened (tag data : string) : option (RecType * string) :=
  if Str.startswith "@" tag then
    if data =? "INDI" then Some (INDI, clean_id tag)
    else if data =? "FAM" then Some (FAM, clean_id tag)
    else if data =? "SOUR" then Some (SOUR, clean_id tag)
    else None
  else None.

(** The record a line opens, if any. *)
Definition opens (line : string) : option (RecType * string) :=
  match parse_line line with
  | Some (level, tag, data) => if level =? "0" then opened tag data else None
  | None => None
  end.

(** The identifier of the individual a line opens. *)
Definition opens_indi (line : string) : option string :=
  match opens line with
  | Some (INDI, k) => Some k
  | _ => None
  end.

(** A line is blank when nothing is left of it once stripped. *)
Definition blank (line : string) : bool :=
  negb (Str.truthy (Str.strip Str.is_space line)).

(** A non-blank line with fewer than two fields. *)
Definition malformed (line : string) : bool :=
  negb (blank line) &&
  match parse_line line with
  | None => true
  | Some _ => false
  end.

(** A line with at least a level and a tag. *)
Definition has_fields (line : string) : bool :=
  match parse_line line with
  | Some _ => true
  | None => false
  end.

(** The current record exists in the mapping of its kind. *)
Definition wf (s : State) : Prop :=
  match current_type s with
  | Some INDI => exists c, current s = Some c /\ is_Some (people s !! c)
  | Some FAM => exists c, current s = Some c /\ is_Some (families s !! c)
  | Some SOUR => exists c, current s = Some c /\ is_Some (sources s !! c)
  | None => True
  end.

(** The generation step in the words of the specification: for each
    individual of the previous generation that is in the individuals
    mapping, for each family of its child-of list that is in the families
    mapping, the husband then the wife, the empty ones left out. *)
Definition family_parents (fam : Family) : list string :=
  ((if Str.truthy (f_husb fam) then [f_husb fam] else [])
   ++ (if Str.truthy (f_wife fam) then [f_wife fam] else []))%list.

Definition person_parents (people : gmap string Person)
    (families : gmap string Family) (person_id : string) : list string :=
  match people !! person_id with
  | None => []
  | Some p =>
      flat_map
        (fun fam_id =>
           match families !! fam_id with
           | None => []
           | Some fam => family_parents fam
           end)
        (p_famc p)
  end.

Definition parents_of (people : gmap string Person)
    (families : gmap string Family) (prev : list string) : list string :=
  flat_map (person_parents people families) prev.

(** A generation set with the generations [1..K]: generation 1 is the
    root alone, every generation is populated, and each generation after
    the first is the generation step of the one before. *)
Definition gen_set (people : gmap string Person) (families : gmap string Family)
    (root_id : string) (K : Z) (G : gmap Z (list string)) : Prop :=
  (forall g, is_Some (G !! g) <-> 1 <= g <= K)
  /\ G !! 1 = Some [root_id]
  /\ (forall g l, G !! g = Some l -> l <> [])
  /\ (forall g l, 1 < g -> G !! g = Some l ->
        exists prev, G !! (g - 1) = Some prev
                     /\ l = parents_of people families prev).

(** The two events of an individual that a [DATE] line can complete. *)
Inductive DateEvent : Type := Birth | Death.

Definition event_tag (e : DateEvent) : string :=
  match e with
  | Birth => "BIRT"
  | Death => "DEAT"
  end.

Definition date_key (e : DateEvent) : string :=
  match e with
  | Birth => "birth_date"
  | Death => "death_date"
  end.

Definition other (e : DateEvent) : DateEvent :=
  match e with
  | Birth => Death
  | Death => Birth
  end.

(** The pending flag of an event. *)
Definition pending (e : DateEvent) (s : State) : bool :=
  match e with
  | Birth => in_birth s
  | Death => in_death s
  end.

(** The entry of the event map of individual [c] under [key]. *)
Definition recorded (key c : string) (s : State) : option string :=
  match people s !! c with
  | Some p => p_events p !! key
  | None => None
  end.

(** The parser is inside the record of individual [c]. *)
Definition in_indi (c : string) (s : State) : Prop :=
  current_type s = Some INDI /\ current s = Some c /\ is_Some (people s !! c).

(** A line that is skipped, or is below level 0 with a tag other than
    [BIRT], [DEAT] and [DATE]. *)
Definition quiet (line : string) : bool :=
  match parse_line line with
  | None => true
  | Some (level, tag, _) =>
      negb (level =? "0") && negb (tag =? "BIRT") && negb (tag =? "DEAT")
      && negb (tag =? "DATE")
  end.

(** How a record may change while its identifier is not opened again: the
    identifier stays, the lists only grow at the end, and the keys of the
    event map only grow. *)
Definition person_ext (p p' : Person) : Prop :=
  p_id p' = p_id p
  /\ p_sources p `prefix_of` p_sources p'
  /\ p_famc p `prefix_of` p_famc p'
  /\ p_fams p `prefix_of` p_fams p'
  /\ dom (p_events p) ⊆ dom (p_events p').

Definition family_ext (f f' : Family) : Prop :=
  f_id f' = f_id f
  /\ f_chil f `prefix_of` f_chil f'
  /\ dom (f_events f) ⊆ dom (f_events f').

Definition source_ext (x x' : Source) : Prop :=
  s_id x' = s_id x.

(** The identifiers a family refers to. *)
Definition family_refs (f : Family) : list string :=
  f_husb f :: f_wife f :: f_chil f.

(** The identifier a [HUSB], [WIFE] or [CHIL] line below level 0 refers
    to, as the parser stores it. *)
Definition ref_of (line : string) : option string :=
  match parse_line line with
  | Some (level, tag, data) =>
      if negb (level =? "0")
         && ((tag =? "HUSB") || (tag =? "WIFE") || (tag =? "CHIL"))
      then Some (clean_id data)
      else None
  | None => None
  end.

(** Every identifier the families refer to is empty or one of [X]. *)
Definition refs_within (X : list string) (fams : gmap string Family) : Prop :=
  forall k f x, fams !! k = Some f -> x ∈ family_refs f -> x = "" \/ x ∈ X.

(** The record of every individual is stored under its own identifier. *)
Definition ids_ok (d : gmap string Person) : Prop :=
  forall k p, d !! k = Some p -> p_id p = k.

(** ** Concrete inputs *)

(** What the end-to-end example parses to. *)
Definition example_parsed : Parsed :=
  match parse_gedcom example_lines with
  | inr R => R
  | inl _ => mkParsed ∅ ∅ ∅ None
  end.

(** The state after the two lines of the individual of the example. *)
Definition example_indi_state : State :=
  match run ["0 @I1@ INDI"; "1 FAMC @F1@"] init with
  | inr s => s
  | inl _ => init
  end.

(** An individual whose birth date is known, and the state inside its
    record. *)
Definition born_person : Person :=
  mkPerson "I1" "" (<["birth_date" := "1 JAN 1900"]> ∅) [] [] [].

Definition born_state : State :=
  mkState (<["I1" := born_person]> ∅) ∅ ∅ (Some "I1") (Some "I1") (Some INDI)
          false false false.

(** The lines that follow in the example once the name is added, and the
    state they lead to. *)
Definition example_rest : list string :=
  ["1 NAME John /Doe/"; "0 @F1@ FAM"; "1 HUSB @I2@"].

Definition example_final_state : State :=
  match run example_rest example_indi_state with
  | inr s => s
  | inl _ => init
  end.

(** ** The updates the parser applies to the records *)

(** The in-place changes of source lines 91-113 (an individual), 118-130
    (a family) and 135-141 (a source). *)
Inductive indi_update : (Person -> Person) -> Prop :=
  | upd_name (data : string) :
      indi_update (set_name (Str.strip Str.is_space (Str.remove_all "/" data)))
  | upd_famc (data : string) : indi_update (append_famc (clean_id data))
  | upd_fams (data : string) : indi_update (append_fams (clean_id data))
  | upd_source (data : string) : indi_update (append_source (clean_id data))
  | upd_birth_date (data : string) : indi_update (set_event "birth_date" data)
  | upd_death_date (data : string) : indi_update (set_event "death_date" data)
  | upd_indi_plac (data : string) : indi_update (indi_plac data).

Inductive fam_update : (Family -> Family) -> Prop :=
  | upd_husb (data : string) : fam_update (set_husb (clean_id data))
  | upd_wife (data : string) : fam_update (set_wife (clean_id data))
  | upd_chil (data : string) : fam_update (append_chil (clean_id data))
  | upd_marriage_date (data : string) :
      fam_update (set_fam_event "marriage_date" data)
  | upd_fam_plac (data : string) : fam_update (fam_plac data).

Inductive sour_update : (Source -> Source) -> Prop :=
  | upd_title (data : string) : sour_update (set_title data)
  | upd_author (data : string) : sour_update (set_author data)
  | upd_publ (data : string) : sour_update (set_publ data)
  | upd_text (data : string) : sour_update (set_text data).

(** The fresh records of source lines 71-72, 75-76 and 79-80. *)
Definition new_person (k : string) : Person := mkPerson k "" ∅ [] [] [].
Definition new_family (k : string) : Family := mkFamily k "" "" [] ∅.
Definition new_source (k : string) : Source := mkSource k "" "" "" "".

(** The identifier of the record of kind [t] a line opens. *)
Definition opens_kind (t : RecType) (line : string) : option string :=
  match opens line with
  | Some (t', k) => if decide (t' = t) then Some k else None
  | None => None
  end.

(** [c in s] for a one-character [c]. *)
Fixpoint has_char (c : ascii) (s : string) : bool :=
  match s with
  | EmptyString => false
  | String d s' => Ascii.eqb d c || has_char c s'
  end.

(** The event kinds of an individual and of a family. *)
Definition indi_event_keys : gset string :=
  {[ "birth_date"; "birth_place"; "death_date"; "death_place" ]}.

Definition fam_event_keys : gset string :=
  {[ "marriage_date"; "marriage_place" ]}.

(** A line of level 0. *)
Definition is_level0 (line : string) : bool :=
  match parse_line line with
  | Some (level, _, _) => level =? "0"
  | None => false
  end.

(** The parser is inside the record of family [c]. *)
Definition in_fam (c : string) (s : State) : Prop :=
  current_type s = Some FAM /\ current s = Some c /\ is_Some (families s !! c).

(** The entry of the event map of family [c] under [key]. *)
Definition recorded_fam (key c : string) (s : State) : option string :=
  match families s !! c with
  | Some f => f_events f !! key
  | None => None
  end.

(** A line that is skipped, or is below level 0 with a tag other than
    [MARR] and [DATE]. *)
Definition quiet_fam (line : string) : bool :=
  match parse_line line with
  | None => true
  | Some (level, tag, _) =>
      negb (level =? "0") && negb (tag =? "MARR") && negb (tag =? "DATE")
  end.

(** ** The report *)

(** [str(n)] for an integer [n]. *)
Definition str_of_Z (z : Z) : string := NilZero.string_of_int (Z.to_int z).

(** [s * n] *)
Fixpoint times (s : string) (n : nat) : string :=
  match n with
  | O => ""
  | S n' => s ++ times s n'
  end.

(** [sep.join(l)] *)
Fixpoint join (sep : string) (l : list string) : string :=
  match l with
  | [] => ""
  | [x] => x
  | x :: l' => x ++ sep ++ join sep l'
  end.

Definition SEP_LINE : string := times "-" 119.
Definition SEP_SHORT : string := "-------------".

(** The [labels] of [generation_title]. *)
Definition labels : gmap Z string :=
  list_to_map
    [ (1, "Generation 1");
      (2, "Generation 2 (Parents)");
      (3, "Generation 3 (Grandparents)");
      (4, "Generation 4 (Great-grandparents)");
      (5, "Generation 5 (2nd Great-grandparents)");
      (6, "Generation 6 (3rd Great-grandparents)");
      (7, "Generation 7 (4th Great-grandparents)");
      (8, "Generation 8 (5th Great-grandparents)");
      (9, "Generation 9 (6th Great-grandparents)");
      (10, "Generation 10 (7th Great-grandparents)") ].

(** [labels.get(gen_number, f"Generation {gen_number}")] *)
Definition generation_title (gen_number : Z) : string :=
  default ("Generation " ++ str_of_Z gen_number) (labels !! gen_number).

(** [val if val else "No data"] *)
Definition safe (val : string) : string :=
  if Str.truthy val then val else "No data".

(** [d.get(k, "")] *)
Definition get_or_empty (d : gmap string string) (k : string) : string :=
  default "" (d !! k).

(** The person a line of the report is about: a record of the individuals
    mapping, or the stand-in [{"name": person_id, "events": {}}] that
    [people.get] returns for an identifier without a record. *)
Inductive ReportPerson : Type :=
  | Known (p : Person)
  | Unknown (person_id : string).

(** [people.get(person_id, {"name": person_id, "events": {}})] *)
Definition lookup_person (people : gmap string Person) (person_id : string)
  : ReportPerson :=
  match people !! person_id with
  | Some p => Known p
  | None => Unknown person_id
  end.

(** [person.get("name", "")] *)
Definition rp_name (person : ReportPerson) : string :=
  match person with
  | Known p => p_name p
  | Unknown person_id => person_id
  end.

(** [person["events"]] *)
Definition rp_events (person : ReportPerson) : gmap string string :=
  match person with
  | Known p => p_events p
  | Unknown _ => ∅
  end.

(** [person.get("fams")]: the stand-in has no such key. *)
Definition rp_fams (person : ReportPerson) : option (list string) :=
  match person with
  | Known p => Some (p_fams p)
  | Unknown _ => None
  end.

(** [person.get("sources")] *)
Definition rp_sources (person : ReportPerson) : option (list string) :=
  match person with
  | Known p => Some (p_sources p)
  | Unknown _ => None
  end.

(** [families[person["fams"][0]] if person.get("fams") else None] *)
Definition first_family (families : gmap string Family) (person : ReportPerson)
  : result (option Family) :=
  match rp_fams person with
  | Some (fam_id :: _) =>
      do family <- getitem families (Some fam_id); ret (Some family)
  | _ => ret None
  end.

(** [[sources[s]["title"] for s in refs if s in sources]] *)
Definition source_titles (sources : gmap string Source) (refs : list string)
  : list string :=
  omap (fun s => s_title <$> sources !! s) refs.

(** The last line of a block of a later generation. *)
Definition sources_line (sources : gmap string Source) (person : ReportPerson)
  : string :=
  match rp_sources person with
  | Some (s :: refs) => "Sources: " ++ join "; " (source_titles sources (s :: refs))
  | _ => "Sources: No data"
  end.

(** What the report is made of: the flowables that reportlab has built,
    a [Paragraph(text, styles[style])] or a [Spacer(width, height)]. *)
Inductive Style : Type := Heading2 | Normal.

Inductive Flowable : Type :=
  | Paragraph (text : string) (style : Style)
  | Spacer (width height : Z).

(** What [write_generations_pdf] may raise: the [ValueError] of [max] on
    no key ([MaxOfEmpty]), a failed subscript of its own ([Lookup]), or
    an exception raised inside reportlab ([Reportlab]), whose class is not
    modelled. *)
Inductive report_exn : Type :=
  | MaxOfEmpty
  | Lookup (e : exn)
  | Reportlab.

Definition rresult (A : Type) : Type := (report_exn + A)%type.

Definition rbind {A B : Type} (m : rresult A) (k : A -> rresult B) : rresult B :=
  match m with
  | inl e => inl e
  | inr a => k a
  end.

Notation "'dor' x <- m ; k" := (rbind m (fun x => k))
  (at level 10, x name, m at level 100, k at level 200).

(** A [for] loop of the report. *)
Fixpoint rfor_each {A S : Type} (body : S -> A -> rresult S) (xs : list A)
    (s : S) : rresult S :=
  match xs with
  | [] => inr s
  | x :: xs' => dor s' <- body s x; rfor_each body xs' s'
  end.

(** A failed subscript seen from the report. *)
Definition lift {A : Type} (m : result A) : rresult A :=
  match m with
  | inl e => inl (Lookup e)
  | inr a => inr a
  end.

(** [max(generations.keys())] *)
Definition max_key (generations : gmap Z (list string)) : option Z :=
  match elements (dom generations) with
  | [] => None
  | k :: ks => Some (foldl Z.max k ks)
  end.

Section Report.

(** The text between the two spaces of the marriage line,
    [f"{date} ... {place}"]: its characters lie outside the Latin-1
    range, so it is a parameter. *)
Variable dash : string.

Variable people : gmap string Person.
Variable families : gmap string Family.
Variable sources : gmap string Source.

(** [pretty_marriage]: a family, when there is one, is a non-empty dict. *)
Definition pretty_marriage (family : option Family) : string :=
  match family with
  | None => "No data"
  | Some fam =>
      let date := get_or_empty (f_events fam) "marriage_date" in
      let place := get_or_empty (f_events fam) "marriage_place" in
      if Str.truthy date && Str.truthy place
      then date ++ " " ++ dash ++ " " ++ place
      else if Str.truthy date then date
      else if Str.truthy place then place
      else "No data"
  end.

(** Source lines 222-238: the [lines] of one person of generation [g]. *)
Definition person_lines (g : Z) (person_id : string) : result (list string) :=
  let person := lookup_person people person_id in
  do family <- first_family families person;
  let lines :=
    [ "Name: " ++ safe (rp_name person);
      "Birth: " ++ safe (get_or_empty (rp_events person) "birth_date");
      "Birthplace: " ++ safe (get_or_empty (rp_events person) "birth_place");
      "Marriage: " ++ pretty_marriage family ] in
  ret (if Z.ltb 1 g then
         app lines
             [ "Death: " ++ safe (get_or_empty (rp_events person) "death_date");
               "Deathplace: "
                 ++ safe (get_or_empty (rp_events person) "death_place");
               sources_line sources person ]
       else lines).

(** reportlab, as far as [write_generations_pdf] depends on it.
    [Paragraph(text, styles[style])] parses [text] as markup and raises
    when it cannot: [paragraph_ok text style] says that it returns.
    [SimpleDocTemplate(pdf_path)] and [doc.build(elements)] write the
    file and may raise: [build_ok elements] says that, for the path and
    the file system of the run, both return. *)
Variable paragraph_ok : string -> Style -> bool.
Variable build_ok : list Flowable -> bool.

(** [elements.append(Paragraph(text, styles[style]))] *)
Definition append_paragraph (els : list Flowable) (text : string)
    (style : Style) : rresult (list Flowable) :=
  if paragraph_ok text style then inr (els ++ [Paragraph text style])%list
  else inl Reportlab.

(** Source lines 221-246: the body of the loop over the members of
    generation [g]; [n] is [len(generations[g])]. *)
Definition person_elements (g : Z) (n : nat) (els : list Flowable)
    (member : nat * string) : rresult (list Flowable) :=
  let '(i, person_id) := member in
  dor lines <- lift (person_lines g person_id);
  dor els <- rfor_each (fun els line => append_paragraph els line Normal)
                       lines els;
  let els := (els ++ [Spacer 1 12])%list in
  if Z.ltb (Z.of_nat i) (Z.of_nat n - 1) then
    dor els <- append_paragraph els SEP_SHORT Normal;
    inr (els ++ [Spacer 1 12])%list
  else inr els.

(** Source lines 216-249: the body of the loop over the generation
    numbers; [g] is a key of [generations]. *)
Definition generation_elements (generations : gmap Z (list string))
    (els : list Flowable) (g : Z) : rresult (list Flowable) :=
  let members := default [] (generations !! g) in
  dor els <- append_paragraph els (generation_title g) Heading2;
  dor els <- append_paragraph els SEP_LINE Normal;
  dor els <- rfor_each (person_elements g (length members))
                       (combine (seq 0 (length members)) members) els;
  dor els <- append_paragraph els SEP_LINE Normal;
  inr (els ++ [Spacer 1 20])%list.

(** The [elements] of source lines 209-249. *)
Definition report_elements (generations : gmap Z (list string))
  : rresult (list Flowable) :=
  rfor_each (generation_elements generations)
            (merge_sort Z.le (elements (dom generations))) [].

(** [write_generations_pdf]: the elements it has handed to the document
    and the number it returns. *)
Definition write_generations_pdf (generations : gmap Z (list string))
  : rresult (list Flowable * Z) :=
  match max_key generations with
  | None => inl MaxOfEmpty
  | Some max_actual =>
      dor els <- report_elements generations;
      if build_ok els then inr (els, max_actual) else inl Reportlab
  end.

End Report.

(** ** The layout of the report, said directly *)

(** The first spouse-in family of the individual [person_id] has no
    record. *)
Definition missing_family (people : gmap string Person)
    (families : gmap string Family) (person_id : string) : bool :=
  match people !! person_id with
  | Some p =>
      match p_fams p with
      | fam_id :: _ => negb (has_key fam_id families)
      | [] => false
      end
  | None => false
  end.

(** The paragraphs of one person, closed by a spacer. *)
Definition block (lines : list string) : list Flowable :=
  (map (fun line => Paragraph line Normal) lines ++ [Spacer 1 12])%list.

(** Blocks with the short separator between one and the next. *)
Fixpoint separated (blocks : list (list Flowable)) : list Flowable :=
  match blocks with
  | [] => []
  | [b] => b
  | b :: bs =>
      (b ++ [Paragraph SEP_SHORT Normal; Spacer 1 12] ++ separated bs)%list
  end.


(** A flowable that reportlab builds: a paragraph whose text it accepts,
    or a spacer. *)
Definition accepted (paragraph_ok : string -> Style -> bool) (x : Flowable)
  : bool :=
  match x with
  | Paragraph text style => paragraph_ok text style
  | Spacer _ _ => true
  end.

(** What a piece of [write_generations_pdf] does to [elements], from
    [els] to the result [r]: it appends [chunk], each flowable of which
    reportlab builds, and no subscript fails ([bad] does not hold); or a
    subscript fails with [KeyError], and [bad] holds; or reportlab refuses
    a paragraph of [chunk]. *)
Definition appends (paragraph_ok : string -> Style -> bool) (bad : Prop)
    (chunk els : list Flowable) (r : rresult (list Flowable)) : Prop :=
  match r with
  | inr els' =>
      ~ bad /\ forallb (accepted paragraph_ok) chunk = true
      /\ els' = (els ++ chunk)%list
  | inl (Lookup e) => e = KeyError /\ bad
  | inl Reportlab => forallb (accepted paragraph_ok) chunk = false
  | inl MaxOfEmpty => False
  end.

Section Layout.

Variable dash : string.
Variable people : gmap string Person.
Variable families : gmap string Family.
Variable sources : gmap string Source.

(** The lines of a person whose block does not fail. *)
Definition lines_of (g : Z) (person_id : string) : list string :=
  match person_lines dash people families sources g person_id with
  | inr lines => lines
  | inl _ => []
  end.

(** The block of the member at index [i] of [n], and the short separator
    when it is not the last. *)
Definition member_layout (g : Z) (n : nat) (member : nat * string)
  : list Flowable :=
  (block (lines_of g (snd member))
   ++ if Z.ltb (Z.of_nat (fst member)) (Z.of_nat n - 1)
      then [Paragraph SEP_SHORT Normal; Spacer 1 12] else [])%list.

Definition generation_layout (generations : gmap Z (list string)) (g : Z)
  : list Flowable :=
  ([Paragraph (generation_title g) Heading2; Paragraph SEP_LINE Normal]
   ++ separated (map (fun person_id => block (lines_of g person_id))
                     (default [] (generations !! g)))
   ++ [Paragraph SEP_LINE Normal; Spacer 1 20])%list.

Definition report_layout (generations : gmap Z (list string))
  : list Flowable :=
  flat_map (generation_layout generations)
           (merge_sort Z.le (elements (dom generations))).

End Layout.

(** ** The [generate] callback *)

(** Why [generate] ends in the error box: the file could not be opened or
    decoded, or the report raised. *)
Inductive Cause : Type :=
  | ReadFailed
  | Raised (e : report_exn).

(** The message box [generate] ends with. *)
Inductive Outcome : Type :=
  | InvalidInput
  | NoRootPerson
  | Notice (requested_gens max_actual : Z)
  | Done
  | Error (cause : Cause).


(** [generate], once a file and a save path have been chosen: [combo] is
    [int(combo_gen.get())], or nothing when [int] raises, and [file] the
    lines of the chosen file, or nothing when opening or decoding it
    raises.  An exception of the [try] block ends in the [Error] box. *)
Definition generate (dash : string) (paragraph_ok : string -> Style -> bool)
    (build_ok : list Flowable -> bool) (file : option (list string))
    (combo : option Z) : Outcome :=
  match combo with
  | None => InvalidInput
  | Some requested_gens =>
      if Z.ltb requested_gens 2 || Z.ltb 10 requested_gens then InvalidInput
      else
        match file with
        | None => Error ReadFailed
        | Some lines =>
            match parse_gedcom lines with
            | inl e => Error (Raised (Lookup e))
            | inr R =>
                match r_root_id R with
                | None => NoRootPerson
                | Some root_id =>
                    if negb (Str.truthy root_id) then NoRootPerson
                    else
                      match build_generations (r_people R) (r_families R)
                                              root_id requested_gens with
                      | inl e => Error (Raised (Lookup e))
                      | inr generations =>
                          match write_generations_pdf dash (r_people R)
                                  (r_families R) (r_sources R) paragraph_ok
                                  build_ok generations with
                          | inl e => Error (Raised e)
                          | inr (_, max_actual) =>
                              if Z.ltb max_actual requested_gens
                              then Notice requested_gens max_actual
                              else Done
                          end
                      end
                end
            end
        end
  end.

(** ** More concrete inputs *)

(** The state inside the family record of the example. *)
Definition example_fam_state : State := new_record init "@F1@" "FAM".

(** The two generations of the example. *)
Definition example_generations : gmap Z (list string) :=
  <[2 := ["I2"; "I3"]]> (<[1 := ["I1"]]> ∅).

(** Some character of [s] is white space. *)
Fixpoint has_space (s : string) : bool :=
  match s with
  | EmptyString => false
  | String c s' => Str.is_space c || has_space s'
  end.

(** A line of the report that is [label] followed by a non-empty text. *)
Definition labelled (label line : string) : Prop :=
  exists v, line = label ++ v /\ v <> "".

(** A family whose marriage date is known, and the state inside its
    record. *)
Definition married_family : Family :=
  mkFamily "F1" "" "" [] (<["marriage_date" := "4 JUL 1950"]> ∅).

Definition married_state : State :=
  mkState ∅ (<["F1" := married_family]> ∅) ∅ None (Some "F1") (Some FAM)
          false false false.

(** Files for [generate]: one whose individual has a name that is not
    well-formed markup, and one whose individual is a spouse in a family
    without a record. *)
Definition markup_lines : list string :=
  [ "0 @I1@ INDI"; "1 NAME John <Doe" ].

Definition dangling_lines : list string :=
  [ "0 @I1@ INDI"; "1 NAME John /Doe/"; "1 FAMS @F9@" ].

(** A stand-in for reportlab that builds every paragraph, and one that
    refuses a text with an angle bracket. *)
Definition any_text (text : string) (style : Style) : bool := true.

Definition no_bracket (text : string) (style : Style) : bool :=
  negb (has_char "<" text).

(** A file system on which the document is written. *)
Definition writable (els : list Flowable) : bool := true.

(** ** The stripped form of an identifier, said directly *)

(** [s.endswith(c)] for a one-character [c]. *)
Fixpoint ends_with (c : ascii) (s : string) : bool :=
  match s with
  | EmptyString => false
  | String d s' =>
      match s' with
      | EmptyString => Ascii.eqb d c
      | String _ _ => ends_with c s'
      end
  end.

(** [r] is [w] without its delimiters: [w] is a run of [@], then [r],
    then a run of [@], and [r] neither starts nor ends with [@]. *)
Definition stripped_form (w r : string) : Prop :=
  (exists n m : nat, w = times "@" n ++ r ++ times "@" m)
  /\ Str.startswith "@" r = false
  /\ ends_with "@" r = false.

(** The tag, as it is written, of the Individual record a line opens. *)
Definition indi_tag (line : string) : option string :=
  match parse_line line with
  | Some (level, tag, data) =>
      if (level =? "0") && Str.startswith "@" tag && (data =? "INDI")
      then Some tag
      else None
  | None => None
  end.

(** The tag of a line. *)
Definition line_tag (line : string) : option string :=
  match parse_line line with
  | Some (_, tag, _) => Some tag
  | None => None
  end.

(** A file in which a family refers to two individuals that have a
    record, and what it parses to. *)
Definition kin_lines : list string :=
  [ "0 @I1@ INDI"; "1 FAMC @F1@"; "0 @I2@ INDI"; "1 NAME John /Doe/";
    "0 @F1@ FAM"; "1 HUSB @I2@"; "1 CHIL @I1@"; "1 MARR" ].

Definition kin_parsed : Parsed :=
  match parse_gedcom kin_lines with
  | inr R => R
  | inl _ => mkParsed ∅ ∅ ∅ None
  end.

(** * Proofs *)

(** ** The monad and the loops *)

Lemma bind_ret_inv {A B : Type} (m : result A) (k : A -> result B) (b : B) :
  bind m k = inr b -> exists a, m = inr a /\ k a = inr b.
Proof. destruct m as [e | a]; simpl; [discriminate | eauto]. Qed.

Lemma for_each_app {A S : Type} (body : S -> A -> result S) (xs ys : list A)
    (s : S) :
  for_each body (xs ++ ys) s
  = bind (for_each body xs s) (fun s' => for_each body ys s').
Proof.
  revert s. induction xs as [| x xs IH]; intros s; simpl; [done |].
  destruct (body s x) as [e | s1]; simpl; [done | apply IH].
Qed.

Lemma run_cons (line : string) (lines : list string) (s : State) :
  run (line :: lines) s = bind (step s line) (run lines).
Proof. reflexivity. Qed.

Lemma run_app (xs ys : list string) (s : State) :
  run (xs ++ ys) s = bind (run xs s) (run ys).
Proof. apply for_each_app. Qed.

Lemma modify_ok {V : Type} (d : gmap string V) (c : string) (v : V) (f : V -> V) :
  d !! c = Some v -> modify d (Some c) f = inr (<[c := f v]> d).
Proof. intros H. unfold modify. by rewrite H. Qed.

Lemma modify_inv {V : Type} (d d' : gmap string V) (k : option string)
    (f : V -> V) :
  modify d k f = inr d' ->
  exists c v, k = Some c /\ d !! c = Some v /\ d' = <[c := f v]> d.
Proof.
  unfold modify. destruct k as [c |]; [| discriminate].
  destruct (d !! c) as [v |] eqn:E; [| discriminate].
  intros [= <-]. eauto.
Qed.

(** ** The parser never raises *)

Lemma wf_init : wf init.
Proof. exact I. Qed.

Lemma new_record_wf (s : State) (tag data : string) : wf (new_record s tag data).
Proof.
  unfold new_record, wf.
  repeat case_match; simpl in *; try done; simplify_eq;
    eexists; (split; [reflexivity |]); rewrite lookup_insert_eq; eauto.
Qed.

(** Unfolds one line of a record whose key is known to be present. *)
Ltac run_modify Hc Hv :=
  rewrite Hc; rewrite (modify_ok _ _ _ _ Hv); simpl.

Lemma indi_line_total (s : State) (c : string) (tag data : string) :
  current_type s = Some INDI -> current s = Some c -> is_Some (people s !! c) ->
  exists s', indi_line s tag data = inr s' /\ wf s'.
Proof.
  intros Ht Hc [p Hp]. unfold indi_line.
  repeat case_match; try run_modify Hc Hp;
    (eexists; split; [reflexivity |]);
    unfold wf; simpl; rewrite Ht; eexists; (split; [eassumption |]);
    rewrite ?lookup_insert_eq; eauto.
Qed.

Lemma fam_line_total (s : State) (c : string) (tag data : string) :
  current_type s = Some FAM -> current s = Some c -> is_Some (families s !! c) ->
  exists s', fam_line s tag data = inr s' /\ wf s'.
Proof.
  intros Ht Hc [p Hp]. unfold fam_line.
  repeat case_match; try run_modify Hc Hp;
    (eexists; split; [reflexivity |]);
    unfold wf; simpl; rewrite Ht; eexists; (split; [eassumption |]);
    rewrite ?lookup_insert_eq; eauto.
Qed.

Lemma sour_line_total (s : State) (c : string) (tag data : string) :
  current_type s = Some SOUR -> current s = Some c -> is_Some (sources s !! c) ->
  exists s', sour_line s tag data = inr s' /\ wf s'.
Proof.
  intros Ht Hc [p Hp]. unfold sour_line.
  repeat case_match; try run_modify Hc Hp;
    (eexists; split; [reflexivity |]);
    unfold wf; simpl; rewrite Ht; eexists; (split; [eassumption |]);
    rewrite ?lookup_insert_eq; eauto.
Qed.

Lemma step_total (s : State) (line : string) :
  wf s -> exists s', step s line = inr s' /\ wf s'.
Proof.
  intros Hwf. unfold step.
  destruct (parse_line line) as [[[level tag] data] |]; [| by eauto].
  destruct (level =? "0").
  - eexists; split; [reflexivity | apply new_record_wf].
  - pose proof Hwf as Hwf'. unfold wf in Hwf'.
    destruct (current_type s) as [[| |] |] eqn:Ht.
    + destruct Hwf' as (c & Hc & Hp). by eapply indi_line_total.
    + destruct Hwf' as (c & Hc & Hp). by eapply fam_line_total.
    + destruct Hwf' as (c & Hc & Hp). by eapply sour_line_total.
    + by eauto.
Qed.

Lemma run_total (lines : list string) (s : State) :
  wf s -> exists s', run lines s = inr s' /\ wf s'.
Proof.
  revert s. induction lines as [| line lines IH]; intros s Hwf.
  - by exists s.
  - destruct (step_total s line Hwf) as (s1 & Hs1 & Hwf1).
    destruct (IH s1 Hwf1) as (s2 & Hs2 & Hwf2).
    exists s2. split; [| done]. rewrite run_cons, Hs1. exact Hs2.
Qed.

Lemma parse_gedcom_total (lines : list string) :
  exists s, run lines init = inr s /\ parse_gedcom lines = inr (parsed_of s).
Proof.
  destruct (run_total lines init wf_init) as (s & Hs & _).
  exists s. split; [done |]. unfold parse_gedcom. by rewrite Hs.
Qed.

(** A line without two fields leaves the state as it is. *)
Lemma step_skip (s : State) (line : string) :
  has_fields line = false -> step s line = inr s.
Proof.
  unfold has_fields, step. by destruct (parse_line line).
Qed.

Lemma run_filter_fields (lines : list string) (s : State) :
  run (filter (fun l => has_fields l = true) lines) s = run lines s.
Proof.
  revert s. induction lines as [| line lines IH]; intros s; [done |].
  rewrite filter_cons. destruct (decide (has_fields line = true)) as [Hf | Hf].
  - rewrite !run_cons. destruct (step s line); simpl; [done | apply IH].
  - apply not_true_is_false in Hf.
    rewrite run_cons, (step_skip _ _ Hf). simpl. apply IH.
Qed.

(** ** What a line below level 0 leaves alone *)

Ltac inv_ret H :=
  first
    [ apply bind_ret_inv in H as (? & ? & H); unfold ret in H; simplify_eq
    | unfold ret in H; simplify_eq ].

Lemma indi_line_frame (s s' : State) (tag data : string) :
  indi_line s tag data = inr s' ->
  root_id s' = root_id s /\ current s' = current s
  /\ current_type s' = current_type s /\ families s' = families s
  /\ sources s' = sources s /\ in_marr s' = in_marr s.
Proof.
  unfold indi_line. intros H. repeat case_match; inv_ret H; done.
Qed.

Lemma fam_line_frame (s s' : State) (tag data : string) :
  fam_line s tag data = inr s' ->
  root_id s' = root_id s /\ current s' = current s
  /\ current_type s' = current_type s /\ people s' = people s
  /\ sources s' = sources s /\ in_birth s' = in_birth s
  /\ in_death s' = in_death s.
Proof.
  unfold fam_line. intros H. repeat case_match; inv_ret H; done.
Qed.

Lemma sour_line_frame (s s' : State) (tag data : string) :
  sour_line s tag data = inr s' ->
  root_id s' = root_id s /\ current s' = current s
  /\ current_type s' = current_type s /\ people s' = people s
  /\ families s' = families s /\ in_birth s' = in_birth s
  /\ in_death s' = in_death s /\ in_marr s' = in_marr s.
Proof.
  unfold sour_line. intros H. repeat case_match; inv_ret H; done.
Qed.

(** ** The root identifier *)

Lemma step_root_id (s s' : State) (line : string) :
  step s line = inr s' ->
  root_id s' = match root_id s with
               | Some r => Some r
               | None => opens_indi line
               end.
Proof.
  unfold step, opens_indi, opens.
  destruct (parse_line line) as [[[level tag] data] |].
  - destruct (level =? "0"); simpl.
    + intros [= <-]. unfold new_record, opened.
      destruct (Str.startswith "@" tag); simpl;
        repeat case_match; simplify_eq; done.
    + intros H.
      assert (root_id s' = root_id s) as ->.
      { destruct (current_type s) as [[| |] |].
        - by apply indi_line_frame in H as (? & _).
        - by apply fam_line_frame in H as (? & _).
        - by apply sour_line_frame in H as (? & _).
        - by inv_ret H. }
      by destruct (root_id s).
  - intros H. inv_ret H. by destruct (root_id s').
Qed.

Lemma run_root_id (lines : list string) (s s' : State) :
  run lines s = inr s' ->
  root_id s' = match root_id s with
               | Some r => Some r
               | None => head (omap opens_indi lines)
               end.
Proof.
  revert s. induction lines as [| line lines IH]; intros s H.
  - injection H as <-. by destruct (root_id s).
  - rewrite run_cons in H. apply bind_ret_inv in H as (s1 & H1 & H2).
    apply step_root_id in H1. apply IH in H2. rewrite H2, H1. simpl.
    destruct (root_id s); [done |]. by destruct (opens_indi line).
Qed.

(** ** Malformed lines *)

(** C1, as the code has it.  [parse_gedcom] returns normally on every
    input: it raises neither [MalformedRecordError] nor anything else.  A
    line with fewer than two fields is skipped, so the result is that of
    the input without those lines. *)
Theorem parse_gedcom_skips_malformed (lines : list string) :
  exists R, parse_gedcom lines = inr R
            /\ parse_gedcom (filter (fun l => has_fields l = true) lines) = inr R
            /\ forall s l, has_fields l = false -> step s l = inr s.
Proof.
  destruct (parse_gedcom_total lines) as (s & Hrun & Hparse).
  exists (parsed_of s). split; [done |]. split; [| apply step_skip].
  unfold parse_gedcom. by rewrite run_filter_fields, Hrun.
Qed.

(** C1 as stated fails: the second line below is not blank and has a
    single field, yet parsing goes on and returns the record with the
    name given on the third line. *)
Lemma malformed_line_does_not_abort :
  let lines := ["0 @I1@ INDI"; "ORPHAN"; "1 NAME John /Doe/"] in
  Exists (fun l => malformed l = true) lines
  /\ parse_gedcom lines <> raise MalformedRecordError
  /\ exists R, parse_gedcom lines = inr R
               /\ p_name <$> r_people R !! "I1" = Some "John Doe".
Proof.
  simpl. split; [| split].
  - apply Exists_cons_tl, Exists_cons_hd. reflexivity.
  - vm_compute. discriminate.
  - eexists. split; [vm_compute; reflexivity |]. vm_compute. reflexivity.
Qed.

(** ** The end-to-end example *)

(** C9. On the example input, the events of family [F1] are the marriage
    date and place, and two generations from the root are [I1], then
    [I2] and [I3]. *)
Theorem example_end_to_end :
  exists R, parse_gedcom example_lines = inr R
    /\ r_root_id R = Some "I1"
    /\ f_events <$> r_families R !! "F1"
       = Some (<["marriage_place" := "Boston"]>
                 (<["marriage_date" := "4 JUL 1950"]> ∅))
    /\ build_generations (r_people R) (r_families R) "I1" 2
       = inr (<[2 := ["I2"; "I3"]]> (<[1 := ["I1"]]> ∅)).
Proof.
  eexists. split; [vm_compute; reflexivity |].
  split; [reflexivity |]. split; vm_compute; reflexivity.
Qed.

(** ** The generation builder *)

Section Builder.

Variable people : gmap string Person.
Variable families : gmap string Family.

Lemma add_parents_app (fam : Family) (cur : list string) :
  add_parents fam cur = (cur ++ family_parents fam)%list.
Proof.
  unfold add_parents, family_parents.
  destruct (Str.truthy (f_husb fam)), (Str.truthy (f_wife fam)); simpl;
    by rewrite <- ?app_assoc, ?app_nil_r.
Qed.

Lemma famc_loop_app (famc cur : list string) :
  famc_loop families famc cur
  = (cur ++ flat_map (fun fam_id =>
                        match families !! fam_id with
                        | None => []
                        | Some fam => family_parents fam
                        end) famc)%list.
Proof.
  unfold famc_loop. revert cur.
  induction famc as [| fam_id famc IH]; intros cur; simpl.
  - by rewrite app_nil_r.
  - rewrite IH. destruct (families !! fam_id) as [fam |].
    + by rewrite add_parents_app, <- app_assoc.
    + done.
Qed.

Lemma person_step (cur : list string) (person_id : string) :
  (if negb (has_key person_id people) then ret cur
   else
     do p <- getitem people (Some person_id);
     ret (famc_loop families (p_famc p) cur))
  = inr (cur ++ person_parents people families person_id)%list.
Proof.
  unfold has_key, person_parents, getitem.
  destruct (people !! person_id) as [p |]; simpl.
  - by rewrite famc_loop_app.
  - by rewrite app_nil_r.
Qed.

(** The loop over the previous generation never raises, and appends the
    generation step to the accumulator. *)
Lemma person_loop_app (ids cur : list string) :
  person_loop people families ids cur
  = inr (cur ++ parents_of people families ids)%list.
Proof.
  unfold person_loop, parents_of. revert cur.
  induction ids as [| person_id ids IH]; intros cur.
  - simpl. by rewrite app_nil_r.
  - cbn [for_each flat_map]. rewrite person_step. cbn [bind].
    by rewrite IH, <- app_assoc.
Qed.

Lemma range_succ (lo : Z) (n : nat) :
  map (fun i : nat => lo + Z.of_nat i) (seq 0 (S n))
  = lo :: map (fun i : nat => (lo + 1) + Z.of_nat i) (seq 0 n).
Proof.
  simpl. f_equal; [lia |].
  rewrite <- seq_shift, map_map. apply map_ext. intros i. lia.
Qed.

Lemma gen_set_insert (root_id : string) (g0 : Z) (G : gmap Z (list string))
    (prev : list string) :
  2 <= g0 -> gen_set people families root_id (g0 - 1) G ->
  G !! (g0 - 1) = Some prev -> parents_of people families prev <> [] ->
  gen_set people families root_id g0
          (<[g0 := parents_of people families prev]> G).
Proof.
  intros Hg0 (Hdom & Hone & Hne & Hstep) Hprev Hcur.
  assert (G !! g0 = None) as Hfresh.
  { apply eq_None_not_Some. rewrite Hdom. lia. }
  split; [| split; [| split]].
  - intros g. destruct (decide (g = g0)) as [-> | Hn].
    + rewrite lookup_insert_eq. split; [lia | eauto].
    + rewrite lookup_insert_ne by done. rewrite Hdom. lia.
  - by rewrite lookup_insert_ne by lia.
  - intros g l. destruct (decide (g = g0)) as [-> | Hn].
    + rewrite lookup_insert_eq. by intros [= <-].
    + rewrite lookup_insert_ne by done. apply Hne.
  - intros g l Hg. destruct (decide (g = g0)) as [-> | Hn].
    + rewrite lookup_insert_eq. intros [= <-].
      exists prev. by rewrite lookup_insert_ne by lia.
    + rewrite lookup_insert_ne by done. intros Hl.
      assert (1 <= g <= g0 - 1) by (apply Hdom; eauto).
      rewrite lookup_insert_ne by lia. by apply Hstep.
Qed.

(** The loop over the generation numbers [g0, g0 + 1, ...]: it never
    raises, extends a generation set, and stops short of the last number
    only at an empty generation step. *)
Lemma gen_loop_spec (root_id : string) (n : nat) :
  forall (g0 : Z) (G : gmap Z (list string)),
    2 <= g0 -> gen_set people families root_id (g0 - 1) G ->
    exists G' K,
      gen_loop people families
               (map (fun i : nat => g0 + Z.of_nat i) (seq 0 n)) G = inr G'
      /\ g0 - 1 <= K <= g0 - 1 + Z.of_nat n
      /\ gen_set people families root_id K G'
      /\ (K < g0 - 1 + Z.of_nat n ->
          exists last, G' !! K = Some last
                       /\ parents_of people families last = []).
Proof.
  induction n as [| n IH]; intros g0 G Hg0 HG.
  - exists G, (g0 - 1). simpl.
    split; [done |]. split; [lia |]. split; [done |]. lia.
  - rewrite range_succ. simpl.
    destruct HG as (Hdom & Hrest).
    destruct (proj2 (Hdom (g0 - 1))) as [prev Hprev]; [lia |].
    unfold defaultdict_getitem. rewrite Hprev, person_loop_app. simpl.
    destruct (parents_of people families prev) as [| x cur] eqn:Hcur; simpl.
    + exists G, (g0 - 1).
      split; [done |]. split; [lia |]. split; [by split |]. eauto.
    + destruct (IH (g0 + 1) (<[g0 := x :: cur]> G)) as (G' & K & HG' & HK & Hset & Hstop).
      * lia.
      * replace (g0 + 1 - 1) with g0 by lia. rewrite <- Hcur.
        apply gen_set_insert; [done | by split | done | by rewrite Hcur].
      * exists G', K.
        split; [done |]. split; [lia |]. split; [done |].
        intros HK'. apply Hstop. lia.
Qed.

End Builder.

Section GenerationSets.

Variable people : gmap string Person.
Variable families : gmap string Family.
Variable root_id : string.

Lemma gen_set_root : gen_set people families root_id 1 {[1 := [root_id]]}.
Proof.
  split; [| split; [| split]].
  - intros g. destruct (decide (g = 1)) as [-> | Hn].
    + rewrite lookup_singleton_eq. split; [lia | eauto].
    + rewrite lookup_singleton_ne by done.
      split; [by intros [? ?] | lia].
  - apply lookup_singleton_eq.
  - intros g l. destruct (decide (g = 1)) as [-> | Hn].
    + rewrite lookup_singleton_eq. by intros [= <-].
    + by rewrite lookup_singleton_ne by done.
  - intros g l Hg. by rewrite lookup_singleton_ne by lia.
Qed.

(** [build_generations] never raises and returns a generation set. *)
Lemma build_generations_spec (max_gen : Z) :
  exists G K,
    build_generations people families root_id max_gen = inr G
    /\ 1 <= K <= Z.max 1 max_gen
    /\ gen_set people families root_id K G
    /\ (K < max_gen ->
        exists last, G !! K = Some last
                     /\ parents_of people families last = []).
Proof.
  unfold build_generations, range.
  destruct (gen_loop_spec people families root_id
              (Z.to_nat (max_gen + 1 - 2)) 2 {[1 := [root_id]]})
    as (G & K & HG & HK & Hset & Hstop); [lia | apply gen_set_root |].
  exists G, K. split; [done |]. split; [lia |]. split; [done |].
  intros HK'. apply Hstop. lia.
Qed.

(** Two generation sets agree on the generations they both have. *)
Lemma gen_set_agree (K K' : Z) (G G' : gmap Z (list string)) :
  gen_set people families root_id K G ->
  gen_set people families root_id K' G' ->
  forall g, 1 <= g -> g <= K -> g <= K' -> G !! g = G' !! g.
Proof.
  intros (Hdom & Hone & _ & Hstep) (Hdom' & Hone' & _ & Hstep').
  assert (forall n : nat, 1 + Z.of_nat n <= K -> 1 + Z.of_nat n <= K' ->
                          G !! (1 + Z.of_nat n) = G' !! (1 + Z.of_nat n)) as Hnat.
  { induction n as [| n IH]; intros HK HK'.
    - change (1 + Z.of_nat 0) with 1. by rewrite Hone, Hone'.
    - destruct (proj2 (Hdom (1 + Z.of_nat (S n)))) as [l Hl]; [lia |].
      destruct (proj2 (Hdom' (1 + Z.of_nat (S n)))) as [l' Hl']; [lia |].
      destruct (Hstep (1 + Z.of_nat (S n)) l ltac:(lia) Hl)
        as (prev & Hprev & ->).
      destruct (Hstep' (1 + Z.of_nat (S n)) l' ltac:(lia) Hl')
        as (prev' & Hprev' & ->).
      replace (1 + Z.of_nat (S n) - 1) with (1 + Z.of_nat n) in * by lia.
      rewrite IH in Hprev by lia. rewrite Hl, Hl'. congruence. }
  intros g Hg HK HK'. specialize (Hnat (Z.to_nat (g - 1))).
  replace (1 + Z.of_nat (Z.to_nat (g - 1))) with g in Hnat by lia.
  by apply Hnat.
Qed.

(** A generation set cannot go past a generation whose step is empty. *)
Lemma gen_set_stop (K K' : Z) (G G' : gmap Z (list string))
    (last : list string) :
  gen_set people families root_id K G ->
  gen_set people families root_id K' G' ->
  G !! K = Some last -> parents_of people families last = [] -> K' <= K.
Proof.
  intros HG HG' Hlast Hempty.
  destruct (Z_le_gt_dec K' K) as [| Hgt]; [done |]. exfalso.
  assert (1 <= K) as HK1.
  { destruct HG as (Hdom & _). by destruct (proj1 (Hdom K)); [eauto |]. }
  pose proof (gen_set_agree K K' G G' HG HG' K HK1 ltac:(lia) ltac:(lia)) as Hag.
  destruct HG' as (Hdom' & _ & Hne' & Hstep').
  destruct (proj2 (Hdom' (K + 1))) as [l Hl]; [lia |].
  destruct (Hstep' (K + 1) l ltac:(lia) Hl) as (prev & Hprev & ->).
  replace (K + 1 - 1) with K in Hprev by lia.
  rewrite <- Hag, Hlast in Hprev. injection Hprev as <-.
  by apply (Hne' _ _ Hl).
Qed.

Lemma gen_set_unique (K : Z) (G G' : gmap Z (list string)) :
  gen_set people families root_id K G ->
  gen_set people families root_id K G' -> G = G'.
Proof.
  intros HG HG'. apply map_eq. intros g.
  destruct (decide (1 <= g <= K)) as [Hin | Hout].
  - apply (gen_set_agree K K G G' HG HG'); lia.
  - destruct HG as (Hdom & _), HG' as (Hdom' & _).
    assert (G !! g = None) as ->.
    { apply eq_None_not_Some. by rewrite Hdom. }
    symmetry. apply eq_None_not_Some. by rewrite Hdom'.
Qed.

(** Once the builder has stopped short of the requested number, asking
    for more generations changes nothing. *)
Lemma build_generations_stable (max_gen max_gen' K : Z)
    (G : gmap Z (list string)) (last : list string) :
  build_generations people families root_id max_gen = inr G ->
  gen_set people families root_id K G ->
  G !! K = Some last -> parents_of people families last = [] ->
  K < max_gen' ->
  build_generations people families root_id max_gen' = inr G.
Proof.
  intros Hb HG Hlast Hempty Hlt.
  destruct (build_generations_spec max_gen')
    as (G' & K' & Hb' & HK' & HG' & Hstop').
  rewrite Hb'. f_equal.
  pose proof (gen_set_stop K K' G G' last HG HG' Hlast Hempty) as Hle.
  assert (K' = K) as ->.
  { destruct (Z_le_gt_dec K K') as [| Hgt]; [lia |].
    destruct Hstop' as (last' & Hlast' & Hempty'); [lia |].
    pose proof (gen_set_stop K' K G' G last' HG' HG Hlast' Hempty'). lia. }
  symmetry. by apply (gen_set_unique K).
Qed.

(** A root without parents in the data has no second generation. *)
Lemma gen_set_orphan (K : Z) (G : gmap Z (list string)) :
  gen_set people families root_id K G ->
  1 <= K ->
  person_parents people families root_id = [] ->
  G = {[1 := [root_id]]}.
Proof.
  intros HG HK Horphan.
  assert (K <= 1) as HK1.
  { apply (gen_set_stop 1 K {[1 := [root_id]]} G [root_id]);
      [apply gen_set_root | done | apply lookup_singleton_eq |].
    simpl. by rewrite Horphan. }
  assert (K = 1) as -> by lia.
  by apply (gen_set_unique 1); [| apply gen_set_root].
Qed.

End GenerationSets.

(** C2. For [max_gen >= 1], [build_generations] returns a mapping whose
    generation 1 is the list of the root identifier alone, and in which
    every generation [g > 1] that is present is the concatenation, over
    the individuals of generation [g - 1] in order that are in the
    individuals mapping, over the families of their child-of list in order
    that are in the families mapping, of the husband then the wife, the
    empty ones left out; nothing is deduplicated. *)
Theorem build_generations_steps (people : gmap string Person)
    (families : gmap string Family) (root_id : string) (max_gen : Z) :
  1 <= max_gen ->
  exists G,
    build_generations people families root_id max_gen = inr G
    /\ G !! 1 = Some [root_id]
    /\ forall g l, 1 < g -> G !! g = Some l ->
         exists prev, G !! (g - 1) = Some prev
                      /\ l = parents_of people families prev.
Proof.
  intros _.
  destruct (build_generations_spec people families root_id max_gen)
    as (G & K & Hb & _ & (_ & Hone & _ & Hstep) & _).
  exists G. by repeat split.
Qed.

(** C10. For [max_gen >= 1], the keys of the mapping returned by
    [build_generations] are exactly [1, 2, ..., K] for some [K] between 1
    and [max_gen], and every generation list is non-empty. *)
Theorem build_generations_keys (people : gmap string Person)
    (families : gmap string Family) (root_id : string) (max_gen : Z) :
  1 <= max_gen ->
  exists G K,
    build_generations people families root_id max_gen = inr G
    /\ 1 <= K <= max_gen
    /\ dom G = list_to_set (range 1 (K + 1))
    /\ (forall g, is_Some (G !! g) <-> 1 <= g <= K)
    /\ (forall g l, G !! g = Some l -> l <> []).
Proof.
  intros Hmax.
  destruct (build_generations_spec people families root_id max_gen)
    as (G & K & Hb & HK & (Hdom & _ & Hne & _) & _).
  exists G, K. split; [done |]. split; [lia |]. split; [| by split].
  apply set_eq. intros g. rewrite elem_of_dom, Hdom, elem_of_list_to_set.
  unfold range. rewrite list_elem_of_fmap. split.
  - intros Hg. exists (Z.to_nat (g - 1)). split; [lia |].
    apply list_elem_of_In, in_seq. lia.
  - intros (i & -> & Hi). apply list_elem_of_In, in_seq in Hi. lia.
Qed.

(** C3. [build_generations] returns normally on every input, with only
    populated generations [1..K]; it stops before [max_gen] only at a
    generation whose step is empty; a root that is absent from the
    individuals mapping, or whose child-of list is empty, gives the single
    generation of the root, whatever [max_gen]; and once the data is
    exhausted, asking for more generations gives the same result. *)
Theorem build_generations_never_fails (people : gmap string Person)
    (families : gmap string Family) (root_id : string) (max_gen : Z) :
  exists G K,
    build_generations people families root_id max_gen = inr G
    /\ 1 <= K <= Z.max 1 max_gen
    /\ (forall g, is_Some (G !! g) <-> 1 <= g <= K)
    /\ (forall g l, G !! g = Some l -> l <> [])
    /\ (K < max_gen ->
        exists last, G !! K = Some last
                     /\ parents_of people families last = [])
    /\ (people !! root_id = None
        \/ (exists p, people !! root_id = Some p /\ p_famc p = []) ->
        G = {[1 := [root_id]]})
    /\ (forall max_gen', K < max_gen -> max_gen <= max_gen' ->
        build_generations people families root_id max_gen' = inr G).
Proof.
  destruct (build_generations_spec people families root_id max_gen)
    as (G & K & Hb & HK & HG & Hstop).
  exists G, K. split; [done |]. split; [done |].
  pose proof HG as (Hdom & _ & Hne & _).
  split; [done |]. split; [done |]. split; [done |]. split.
  - intros Horphan. apply (gen_set_orphan people families root_id K); [done | lia |].
    unfold person_parents.
    destruct Horphan as [-> | (p & -> & ->)]; done.
  - intros max_gen' Hlt Hle. destruct (Hstop Hlt) as (last & Hlast & Hempty).
    apply (build_generations_stable people families root_id max_gen max_gen' K G last);
      try done. lia.
Qed.

(** ** Places of an individual *)

(** Decides the comparisons of literal tags. *)
Ltac eval_tags :=
  repeat match goal with
         | |- context [String.eqb ?a ?b] =>
             let v := eval vm_compute in (String.eqb a b) in
             match v with
             | true => change (String.eqb a b) with true
             | false => change (String.eqb a b) with false
             end
         end;
  cbv iota.

Lemma step_below (s : State) (line level tag data : string) :
  parse_line line = Some (level, tag, data) -> level <> "0" ->
  step s line = match current_type s with
                | Some INDI => indi_line s tag data
                | Some FAM => fam_line s tag data
                | Some SOUR => sour_line s tag data
                | None => ret s
                end.
Proof.
  intros Hp Hl. unfold step. rewrite Hp.
  by destruct (String.eqb_spec level "0").
Qed.

(** C5. Inside an Individual record, a [PLAC] line sets [birth_place]
    exactly when [birth_date] is in the event map and [birth_place] is not;
    otherwise it sets [death_place] exactly when [death_date] is in the
    event map and [death_place] is not; otherwise the event map is
    unchanged.  Nothing else in the state changes. *)
Theorem plac_fills_first_empty_slot (s : State) (c : string) (p : Person)
    (line level data : string) :
  current_type s = Some INDI -> current s = Some c -> people s !! c = Some p ->
  parse_line line = Some (level, "PLAC", data) -> level <> "0" ->
  exists p',
    step s line = inr (with_people s (<[c := p']> (people s)))
    /\ p_id p' = p_id p /\ p_name p' = p_name p /\ p_sources p' = p_sources p
    /\ p_famc p' = p_famc p /\ p_fams p' = p_fams p
    /\ let ev := p_events p in
       let birth := is_Some (ev !! "birth_date") /\ ev !! "birth_place" = None in
       let death := is_Some (ev !! "death_date") /\ ev !! "death_place" = None in
       (birth -> p_events p' = <["birth_place" := data]> ev)
       /\ (~ birth -> death -> p_events p' = <["death_place" := data]> ev)
       /\ (~ birth -> ~ death -> p_events p' = ev).
Proof.
  intros Ht Hc Hp Hline Hlevel.
  exists (indi_plac data p). split.
  { rewrite (step_below _ _ _ _ _ Hline Hlevel), Ht.
    unfold indi_line. eval_tags. by run_modify Hc Hp. }
  unfold indi_plac, has_key.
  destruct (p_events p !! "birth_date") as [bd |] eqn:Hbd,
           (p_events p !! "birth_place") as [bp |] eqn:Hbp,
           (p_events p !! "death_date") as [dd |] eqn:Hdd,
           (p_events p !! "death_place") as [dp |] eqn:Hdp;
    simpl; do 5 (split; [done |]);
    (split; [| split]); intros;
    solve [ done
          | exfalso; match goal with
                     | H : _ /\ _ |- _ => destruct H as [[? ?] ?]; done
                     end
          | exfalso; match goal with
                     | H : ~ _ |- _ => apply H; split; by eauto
                     end ].
Qed.

(** ** Dates of an individual *)

Lemma quiet_step (c : string) (s : State) (line : string) :
  in_indi c s -> quiet line = true ->
  exists s',
    step s line = inr s' /\ in_indi c s'
    /\ in_birth s' = in_birth s /\ in_death s' = in_death s
    /\ recorded "birth_date" c s' = recorded "birth_date" c s
    /\ recorded "death_date" c s' = recorded "death_date" c s.
Proof.
  intros (Ht & Hc & [p Hp]) Hq. unfold quiet in Hq.
  destruct (parse_line line) as [[[level tag] data] |] eqn:Hline.
  - apply andb_true_iff in Hq as [Hq Hdate].
    apply andb_true_iff in Hq as [Hq Hdeat].
    apply andb_true_iff in Hq as [Hlevel Hbirt].
    apply negb_true_iff in Hdate, Hdeat, Hbirt, Hlevel.
    apply String.eqb_neq in Hlevel.
    rewrite (step_below _ _ _ _ _ Hline Hlevel), Ht.
    unfold indi_line. rewrite Hbirt, Hdeat, Hdate.
    repeat case_match; try run_modify Hc Hp;
      (eexists; split; [reflexivity |]);
      unfold in_indi, recorded; simpl;
      rewrite ?lookup_insert_eq, ?Hp; simpl;
      (split; [by eauto |]); repeat (split; [done |]); try done;
      unfold indi_plac; repeat case_match; simpl;
      by rewrite ?lookup_insert_ne by done.
  - exists s. rewrite step_skip by (unfold has_fields; by rewrite Hline).
    unfold in_indi. by eauto 10.
Qed.

Lemma quiet_run (c : string) (lines : list string) :
  Forall (fun l => quiet l = true) lines ->
  forall s, in_indi c s ->
    exists s',
      run lines s = inr s' /\ in_indi c s'
      /\ in_birth s' = in_birth s /\ in_death s' = in_death s
      /\ recorded "birth_date" c s' = recorded "birth_date" c s
      /\ recorded "death_date" c s' = recorded "death_date" c s.
Proof.
  induction 1 as [| line lines Hq _ IH]; intros s Hin.
  - exists s. by eauto 10.
  - destruct (quiet_step c s line Hin Hq)
      as (s1 & Hs1 & Hin1 & Hb1 & Hd1 & Hrb1 & Hrd1).
    destruct (IH s1 Hin1) as (s2 & Hs2 & Hin2 & Hb2 & Hd2 & Hrb2 & Hrd2).
    exists s2. rewrite run_cons, Hs1. simpl.
    do 2 (split; [done |]). repeat split; congruence.
Qed.

Lemma event_tag_step (e : DateEvent) (s : State) (line level data : string) :
  current_type s = Some INDI ->
  parse_line line = Some (level, event_tag e, data) -> level <> "0" ->
  step s line = inr (match e with
                     | Birth => with_in_birth s true
                     | Death => with_in_death s true
                     end).
Proof.
  intros Ht Hline Hlevel.
  rewrite (step_below _ _ _ _ _ Hline Hlevel), Ht.
  unfold indi_line. by destruct e; simpl; eval_tags.
Qed.

Lemma date_step (c : string) (p : Person) (s : State)
    (line level data : string) :
  current_type s = Some INDI -> current s = Some c -> people s !! c = Some p ->
  parse_line line = Some (level, "DATE", data) -> level <> "0" ->
  step s line
  = inr (if in_birth s then
           with_in_birth
             (with_people s (<[c := set_event "birth_date" data p]> (people s)))
             false
         else if in_death s then
           with_in_death
             (with_people s (<[c := set_event "death_date" data p]> (people s)))
             false
         else s).
Proof.
  intros Ht Hc Hp Hline Hlevel.
  rewrite (step_below _ _ _ _ _ Hline Hlevel), Ht.
  unfold indi_line. eval_tags.
  destruct (in_birth s); [by run_modify Hc Hp |].
  destruct (in_death s); [by run_modify Hc Hp | done].
Qed.

(** C4, as the code has it.  Inside an Individual record, when the flag of
    the other event is not pending, a [BIRT] (respectively [DEAT]) tag is
    followed by one capture only: the first [DATE] line after it is
    recorded as [birth_date] (respectively [death_date]) and clears the
    flag, and a second [DATE] line arriving before another [BIRT] or [DEAT]
    tag leaves the whole state as it is: the recorded date is kept and the
    date of the other event is the one from before. *)
Theorem first_date_only (e : DateEvent) (c : string) (s : State)
    (l_tag l_date1 l_date2 : string) (mid1 mid2 : list string)
    (lv0 d0 lv1 d1 lv2 d2 : string) :
  in_indi c s ->
  pending (other e) s = false ->
  parse_line l_tag = Some (lv0, event_tag e, d0) -> lv0 <> "0" ->
  Forall (fun l => quiet l = true) mid1 ->
  parse_line l_date1 = Some (lv1, "DATE", d1) -> lv1 <> "0" ->
  Forall (fun l => quiet l = true) mid2 ->
  parse_line l_date2 = Some (lv2, "DATE", d2) -> lv2 <> "0" ->
  exists s1 s2,
    run (l_tag :: mid1 ++ [l_date1]) s = inr s1
    /\ recorded (date_key e) c s1 = Some d1
    /\ in_birth s1 = false /\ in_death s1 = false
    /\ run mid2 s1 = inr s2
    /\ step s2 l_date2 = inr s2
    /\ recorded (date_key e) c s2 = Some d1
    /\ recorded (date_key (other e)) c s2 = recorded (date_key (other e)) c s.
Proof.
  intros Hin Hother Htag Hlv0 Hmid1 Hdate1 Hlv1 Hmid2 Hdate2 Hlv2.
  pose proof Hin as (Ht & Hc & Hp).
  pose proof (event_tag_step e s l_tag lv0 d0 Ht Htag Hlv0) as Hstep0.
  set (s0 := match e with
             | Birth => with_in_birth s true
             | Death => with_in_death s true
             end) in Hstep0.
  assert (in_indi c s0) as Hin0 by (by destruct e).
  destruct (quiet_run c mid1 Hmid1 s0 Hin0)
    as (sa & Hruna & Hina & Hba & Hda & Hrba & Hrda).
  pose proof Hina as (Hta & Hca & [pa Hpa]).
  pose proof (date_step c pa sa l_date1 lv1 d1 Hta Hca Hpa Hdate1 Hlv1) as Hstep1.
  set (s1 := if in_birth sa then _ else _) in Hstep1.
  assert (in_indi c s1 /\ recorded (date_key e) c s1 = Some d1
          /\ in_birth s1 = false /\ in_death s1 = false
          /\ recorded (date_key (other e)) c s1
             = recorded (date_key (other e)) c s) as (Hin1 & Hr1 & Hb1 & Hd1 & Ho1).
  { subst s1 s0.
    destruct e; simpl in *; rewrite ?Hba, ?Hda, ?Hother; simpl;
      unfold in_indi, recorded in *; simpl in *;
      rewrite lookup_insert_eq; simpl;
      rewrite ?lookup_insert_eq, ?lookup_insert_ne by done;
      rewrite Hpa in Hrba, Hrda;
      repeat split; eauto; congruence. }
  destruct (quiet_run c mid2 Hmid2 s1 Hin1)
    as (s2 & Hrun2 & Hin2 & Hb2 & Hd2 & Hrb2 & Hrd2).
  pose proof Hin2 as (Ht2 & Hc2 & [p2 Hp2]).
  exists s1, s2. split.
  { rewrite run_cons, Hstep0. cbn [bind]. rewrite run_app, Hruna. cbn [bind].
    by rewrite run_cons, Hstep1. }
  do 4 (split; [done |]).
  split.
  { rewrite (date_step c p2 s2 l_date2 lv2 d2 Ht2 Hc2 Hp2 Hdate2 Hlv2).
    by rewrite Hb2, Hb1, Hd2, Hd1. }
  destruct e; simpl in *; split; congruence.
Qed.

(** ** Records are kept *)

Lemma person_ext_refl (p : Person) : person_ext p p.
Proof. by unfold person_ext. Qed.

Lemma person_ext_trans (p1 p2 p3 : Person) :
  person_ext p1 p2 -> person_ext p2 p3 -> person_ext p1 p3.
Proof.
  intros (? & ? & ? & ? & ?) (? & ? & ? & ? & ?).
  unfold person_ext. repeat split; try congruence; by etrans.
Qed.

Lemma family_ext_refl (f : Family) : family_ext f f.
Proof. by unfold family_ext. Qed.

Lemma family_ext_trans (f1 f2 f3 : Family) :
  family_ext f1 f2 -> family_ext f2 f3 -> family_ext f1 f3.
Proof.
  intros (? & ? & ?) (? & ? & ?).
  unfold family_ext. repeat split; try congruence; by etrans.
Qed.

Lemma source_ext_refl (x : Source) : source_ext x x.
Proof. by unfold source_ext. Qed.

Lemma source_ext_trans (x1 x2 x3 : Source) :
  source_ext x1 x2 -> source_ext x2 x3 -> source_ext x1 x3.
Proof. unfold source_ext. congruence. Qed.

Lemma option_rel_refl {V : Type} (R : V -> V -> Prop) (o : option V) :
  (forall v, R v v) -> option_Forall2 R o o.
Proof. intros HR. destruct o; by constructor. Qed.

Lemma option_rel_trans {V : Type} (R : V -> V -> Prop) (o1 o2 o3 : option V) :
  (forall a b c, R a b -> R b c -> R a c) ->
  option_Forall2 R o1 o2 -> option_Forall2 R o2 o3 -> option_Forall2 R o1 o3.
Proof.
  intros HR H12 H23. destruct H12; inversion H23; subst; constructor; eauto.
Qed.

(** An in-place change of one record relates every entry of the mapping to
    itself, before and after. *)
Lemma modify_rel {V : Type} (R : V -> V -> Prop) (f : V -> V)
    (d d' : gmap string V) (k0 : option string) :
  (forall v, R v v) -> (forall v, R v (f v)) ->
  modify d k0 f = inr d' ->
  forall k, option_Forall2 R (d !! k) (d' !! k).
Proof.
  intros Hrefl Hf Hm k.
  apply modify_inv in Hm as (c & v & -> & Hv & ->).
  destruct (decide (k = c)) as [-> | Hn].
  - rewrite lookup_insert_eq, Hv. constructor. apply Hf.
  - rewrite lookup_insert_ne by done. by apply option_rel_refl.
Qed.

Lemma indi_plac_ext (data : string) (p : Person) :
  person_ext p (indi_plac data p).
Proof.
  unfold indi_plac, person_ext.
  repeat case_match; simpl; repeat split; try done; set_solver.
Qed.

Lemma fam_plac_ext (data : string) (f : Family) :
  family_ext f (fam_plac data f).
Proof.
  unfold fam_plac, family_ext.
  repeat case_match; simpl; repeat split; try done; set_solver.
Qed.

Ltac solve_ext :=
  intros ?; unfold person_ext, family_ext, source_ext; simpl;
  repeat split; try done; try (by apply prefix_app_r); set_solver.

Lemma indi_line_people (s s' : State) (tag data : string) :
  indi_line s tag data = inr s' ->
  forall k, option_Forall2 person_ext (people s !! k) (people s' !! k).
Proof.
  unfold indi_line. intros H k.
  repeat case_match; inv_ret H; simpl;
    try (by apply option_rel_refl, person_ext_refl);
    (eapply modify_rel; [apply person_ext_refl | | eassumption]);
    first [ apply indi_plac_ext | solve_ext ].
Qed.

Lemma fam_line_families (s s' : State) (tag data : string) :
  fam_line s tag data = inr s' ->
  forall k, option_Forall2 family_ext (families s !! k) (families s' !! k).
Proof.
  unfold fam_line. intros H k.
  repeat case_match; inv_ret H; simpl;
    try (by apply option_rel_refl, family_ext_refl);
    (eapply modify_rel; [apply family_ext_refl | | eassumption]);
    first [ apply fam_plac_ext | solve_ext ].
Qed.

Lemma sour_line_sources (s s' : State) (tag data : string) :
  sour_line s tag data = inr s' ->
  forall k, option_Forall2 source_ext (sources s !! k) (sources s' !! k).
Proof.
  unfold sour_line. intros H k.
  repeat case_match; inv_ret H; simpl;
    try (by apply option_rel_refl, source_ext_refl);
    (eapply modify_rel; [apply source_ext_refl | | eassumption]);
    solve_ext.
Qed.

Lemma new_record_people (s : State) (tag data : string) :
  people (new_record s tag data)
  = match opened tag data with
    | Some (INDI, k) => <[k := mkPerson k "" ∅ [] [] []]> (people s)
    | _ => people s
    end.
Proof. unfold new_record, opened. by repeat case_match. Qed.

Lemma new_record_families (s : State) (tag data : string) :
  families (new_record s tag data)
  = match opened tag data with
    | Some (FAM, k) => <[k := mkFamily k "" "" [] ∅]> (families s)
    | _ => families s
    end.
Proof. unfold new_record, opened. by repeat case_match. Qed.

Lemma new_record_sources (s : State) (tag data : string) :
  sources (new_record s tag data)
  = match opened tag data with
    | Some (SOUR, k) => <[k := mkSource k "" "" "" ""]> (sources s)
    | _ => sources s
    end.
Proof. unfold new_record, opened. by repeat case_match. Qed.

Lemma step_opened (s s' : State) (line : string) (t : RecType) (k : string) :
  opens line = Some (t, k) -> step s line = inr s' ->
  match t with
  | INDI => people s' !! k = Some (mkPerson k "" ∅ [] [] [])
  | FAM => families s' !! k = Some (mkFamily k "" "" [] ∅)
  | SOUR => sources s' !! k = Some (mkSource k "" "" "" "")
  end.
Proof.
  unfold opens, step.
  destruct (parse_line line) as [[[level tag] data] |]; [| done].
  destruct (level =? "0"); [| done].
  intros Ho [= <-]. destruct t.
  - rewrite new_record_people, Ho. apply lookup_insert_eq.
  - rewrite new_record_families, Ho. apply lookup_insert_eq.
  - rewrite new_record_sources, Ho. apply lookup_insert_eq.
Qed.

Lemma step_people_kept (s s' : State) (line k : string) :
  step s line = inr s' -> opens line <> Some (INDI, k) ->
  option_Forall2 person_ext (people s !! k) (people s' !! k).
Proof.
  unfold opens, step.
  destruct (parse_line line) as [[[level tag] data] |];
    [destruct (level =? "0") |].
  - intros [= <-] Hno. rewrite new_record_people.
    destruct (opened tag data) as [[[| |] k'] |];
      try (by apply option_rel_refl, person_ext_refl).
    rewrite lookup_insert_ne by congruence.
    by apply option_rel_refl, person_ext_refl.
  - intros H _. destruct (current_type s) as [[| |] |].
    + by eapply indi_line_people.
    + apply fam_line_frame in H as (_ & _ & _ & -> & _).
      by apply option_rel_refl, person_ext_refl.
    + apply sour_line_frame in H as (_ & _ & _ & -> & _).
      by apply option_rel_refl, person_ext_refl.
    + inv_ret H. by apply option_rel_refl, person_ext_refl.
  - intros H _. inv_ret H. by apply option_rel_refl, person_ext_refl.
Qed.

Lemma step_families_kept (s s' : State) (line k : string) :
  step s line = inr s' -> opens line <> Some (FAM, k) ->
  option_Forall2 family_ext (families s !! k) (families s' !! k).
Proof.
  unfold opens, step.
  destruct (parse_line line) as [[[level tag] data] |];
    [destruct (level =? "0") |].
  - intros [= <-] Hno. rewrite new_record_families.
    destruct (opened tag data) as [[[| |] k'] |];
      try (by apply option_rel_refl, family_ext_refl).
    rewrite lookup_insert_ne by congruence.
    by apply option_rel_refl, family_ext_refl.
  - intros H _. destruct (current_type s) as [[| |] |].
    + apply indi_line_frame in H as (_ & _ & _ & -> & _).
      by apply option_rel_refl, family_ext_refl.
    + by eapply fam_line_families.
    + apply sour_line_frame in H as (_ & _ & _ & _ & -> & _).
      by apply option_rel_refl, family_ext_refl.
    + inv_ret H. by apply option_rel_refl, family_ext_refl.
  - intros H _. inv_ret H. by apply option_rel_refl, family_ext_refl.
Qed.

Lemma step_sources_kept (s s' : State) (line k : string) :
  step s line = inr s' -> opens line <> Some (SOUR, k) ->
  option_Forall2 source_ext (sources s !! k) (sources s' !! k).
Proof.
  unfold opens, step.
  destruct (parse_line line) as [[[level tag] data] |];
    [destruct (level =? "0") |].
  - intros [= <-] Hno. rewrite new_record_sources.
    destruct (opened tag data) as [[[| |] k'] |];
      try (by apply option_rel_refl, source_ext_refl).
    rewrite lookup_insert_ne by congruence.
    by apply option_rel_refl, source_ext_refl.
  - intros H _. destruct (current_type s) as [[| |] |].
    + apply indi_line_frame in H as (_ & _ & _ & _ & -> & _).
      by apply option_rel_refl, source_ext_refl.
    + apply fam_line_frame in H as (_ & _ & _ & _ & -> & _).
      by apply option_rel_refl, source_ext_refl.
    + by eapply sour_line_sources.
    + inv_ret H. by apply option_rel_refl, source_ext_refl.
  - intros H _. inv_ret H. by apply option_rel_refl, source_ext_refl.
Qed.

(** One line never removes a key. *)
Lemma step_keys (s s' : State) (line : string) :
  step s line = inr s' ->
  dom (people s) ⊆ dom (people s')
  /\ dom (families s) ⊆ dom (families s')
  /\ dom (sources s) ⊆ dom (sources s').
Proof.
  intros H. repeat split; intros k; rewrite !elem_of_dom; intros [v Hv].
  - destruct (decide (opens line = Some (INDI, k))) as [Ho | Hno].
    + by rewrite (step_opened _ _ _ _ _ Ho H).
    + pose proof (step_people_kept _ _ _ k H Hno) as Hk.
      rewrite Hv in Hk. inversion Hk. eauto.
  - destruct (decide (opens line = Some (FAM, k))) as [Ho | Hno].
    + by rewrite (step_opened _ _ _ _ _ Ho H).
    + pose proof (step_families_kept _ _ _ k H Hno) as Hk.
      rewrite Hv in Hk. inversion Hk. eauto.
  - destruct (decide (opens line = Some (SOUR, k))) as [Ho | Hno].
    + by rewrite (step_opened _ _ _ _ _ Ho H).
    + pose proof (step_sources_kept _ _ _ k H Hno) as Hk.
      rewrite Hv in Hk. inversion Hk. eauto.
Qed.

Lemma run_keys (lines : list string) (s s' : State) :
  run lines s = inr s' ->
  dom (people s) ⊆ dom (people s')
  /\ dom (families s) ⊆ dom (families s')
  /\ dom (sources s) ⊆ dom (sources s').
Proof.
  revert s. induction lines as [| line lines IH]; intros s H.
  - by injection H as <-.
  - rewrite run_cons in H. apply bind_ret_inv in H as (s1 & H1 & H2).
    apply step_keys in H1 as (? & ? & ?). apply IH in H2 as (? & ? & ?).
    repeat split; by etrans.
Qed.

Lemma run_people_kept (k : string) (lines : list string) (s s' : State) :
  run lines s = inr s' ->
  Forall (fun l => opens l <> Some (INDI, k)) lines ->
  option_Forall2 person_ext (people s !! k) (people s' !! k).
Proof.
  intros H Hno. revert s H.
  induction Hno as [| line lines Hline _ IH]; intros s H.
  - injection H as <-. by apply option_rel_refl, person_ext_refl.
  - rewrite run_cons in H. apply bind_ret_inv in H as (s1 & H1 & H2).
    eapply option_rel_trans;
      [apply person_ext_trans | by eapply step_people_kept | by apply IH].
Qed.

Lemma run_families_kept (k : string) (lines : list string) (s s' : State) :
  run lines s = inr s' ->
  Forall (fun l => opens l <> Some (FAM, k)) lines ->
  option_Forall2 family_ext (families s !! k) (families s' !! k).
Proof.
  intros H Hno. revert s H.
  induction Hno as [| line lines Hline _ IH]; intros s H.
  - injection H as <-. by apply option_rel_refl, family_ext_refl.
  - rewrite run_cons in H. apply bind_ret_inv in H as (s1 & H1 & H2).
    eapply option_rel_trans;
      [apply family_ext_trans | by eapply step_families_kept | by apply IH].
Qed.

Lemma run_sources_kept (k : string) (lines : list string) (s s' : State) :
  run lines s = inr s' ->
  Forall (fun l => opens l <> Some (SOUR, k)) lines ->
  option_Forall2 source_ext (sources s !! k) (sources s' !! k).
Proof.
  intros H Hno. revert s H.
  induction Hno as [| line lines Hline _ IH]; intros s H.
  - injection H as <-. by apply option_rel_refl, source_ext_refl.
  - rewrite run_cons in H. apply bind_ret_inv in H as (s1 & H1 & H2).
    eapply option_rel_trans;
      [apply source_ext_trans | by eapply step_sources_kept | by apply IH].
Qed.

(** C6, as the code has it.  Along the pass no key leaves any of the three
    mappings.  While no level-0 line opens the identifier of a record
    again, the record keeps its identifier, its lists only grow at the end
    and the keys of its event map only grow; its other fields may be
    overwritten.  A level-0 line that opens an identifier stores a fresh
    empty record under it. *)
Theorem records_are_kept (lines : list string) (s s' : State) :
  run lines s = inr s' ->
  (dom (people s) ⊆ dom (people s')
   /\ dom (families s) ⊆ dom (families s')
   /\ dom (sources s) ⊆ dom (sources s'))
  /\ (forall k p,
        people s !! k = Some p ->
        Forall (fun l => opens l <> Some (INDI, k)) lines ->
        exists p', people s' !! k = Some p' /\ person_ext p p')
  /\ (forall k f,
        families s !! k = Some f ->
        Forall (fun l => opens l <> Some (FAM, k)) lines ->
        exists f', families s' !! k = Some f' /\ family_ext f f')
  /\ (forall k x,
        sources s !! k = Some x ->
        Forall (fun l => opens l <> Some (SOUR, k)) lines ->
        exists x', sources s' !! k = Some x' /\ source_ext x x')
  /\ (forall line t k s1 s2,
        opens line = Some (t, k) -> step s1 line = inr s2 ->
        match t with
        | INDI => people s2 !! k = Some (mkPerson k "" ∅ [] [] [])
        | FAM => families s2 !! k = Some (mkFamily k "" "" [] ∅)
        | SOUR => sources s2 !! k = Some (mkSource k "" "" "" "")
        end).
Proof.
  intros H. split; [by eapply run_keys |].
  split; [| split; [| split]].
  - intros k p Hp Hno. pose proof (run_people_kept k _ _ _ H Hno) as Hk.
    rewrite Hp in Hk. inversion Hk. eauto.
  - intros k f Hf Hno. pose proof (run_families_kept k _ _ _ H Hno) as Hk.
    rewrite Hf in Hk. inversion Hk. eauto.
  - intros k x Hx Hno. pose proof (run_sources_kept k _ _ _ H Hno) as Hk.
    rewrite Hx in Hk. inversion Hk. eauto.
  - intros line t k s1 s2. apply step_opened.
Qed.

(** ** Stripping is idempotent *)

Module StrFacts.

Lemma lstrip_no_lead (p : ascii -> bool) (s : string) :
  Str.no_lead p (Str.lstrip p s).
Proof.
  induction s as [| c s IH]; simpl; [done |].
  by destruct (p c) eqn:Hc.
Qed.

Lemma lstrip_id (p : ascii -> bool) (s : string) :
  Str.no_lead p s -> Str.lstrip p s = s.
Proof. destruct s as [| c s]; simpl; [done |]. by intros ->. Qed.

Lemma rstrip_no_lead (p : ascii -> bool) (s : string) :
  Str.no_lead p s -> Str.no_lead p (Str.rstrip p s).
Proof.
  destruct s as [| c s]; simpl; [done |]. intros Hc.
  destruct (Str.rstrip p s); simpl; by rewrite ?Hc.
Qed.

Lemma rstrip_idemp (p : ascii -> bool) (s : string) :
  Str.rstrip p (Str.rstrip p s) = Str.rstrip p s.
Proof.
  induction s as [| c s IH]; simpl; [done |].
  destruct (Str.rstrip p s) as [| d r] eqn:Hr.
  - destruct (p c) eqn:Hc; simpl; by rewrite ?Hc.
  - simpl in *. by rewrite IH.
Qed.

Lemma strip_idemp (p : ascii -> bool) (s : string) :
  Str.strip p (Str.strip p s) = Str.strip p s.
Proof.
  unfold Str.strip.
  rewrite (lstrip_id p (Str.rstrip p (Str.lstrip p s)))
    by apply rstrip_no_lead, lstrip_no_lead.
  apply rstrip_idemp.
Qed.

End StrFacts.

Lemma clean_id_idemp (w : string) : clean_id (clean_id w) = clean_id w.
Proof.
  unfold clean_id. destruct (Str.truthy w) eqn:Hw; [| by rewrite Hw].
  destruct (Str.truthy (Str.strip (Str.is_char "@") w)); [| done].
  apply StrFacts.strip_idemp.
Qed.

(** ** Family references and individual records *)

Lemma step_ids_ok (s s' : State) (line : string) :
  step s line = inr s' -> ids_ok (people s) -> ids_ok (people s').
Proof.
  intros H Hok k p' Hp'.
  destruct (decide (opens line = Some (INDI, k))) as [Ho | Hno].
  - pose proof (step_opened _ _ _ _ _ Ho H) as Hk. simpl in Hk.
    rewrite Hk in Hp'. by injection Hp' as <-.
  - pose proof (step_people_kept _ _ _ k H Hno) as Hk.
    rewrite Hp' in Hk. inversion Hk as [p ? Hext Hp |]; subst.
    destruct Hext as (-> & _). by apply Hok.
Qed.

Lemma run_ids_ok (lines : list string) (s s' : State) :
  run lines s = inr s' -> ids_ok (people s) -> ids_ok (people s').
Proof.
  revert s. induction lines as [| line lines IH]; intros s H Hok.
  - by injection H as <-.
  - rewrite run_cons in H. apply bind_ret_inv in H as (s1 & H1 & H2).
    eapply IH; [done |]. by eapply step_ids_ok.
Qed.

Lemma run_opened_present (lines : list string) (line k : string)
    (s s' : State) :
  line ∈ lines -> opens line = Some (INDI, k) -> run lines s = inr s' ->
  is_Some (people s' !! k).
Proof.
  intros Hin Ho. revert s.
  induction Hin as [line lines | line l0 lines Hin IH]; intros s H;
    rewrite run_cons in H; apply bind_ret_inv in H as (s1 & H1 & H2).
  - pose proof (step_opened _ _ _ _ _ Ho H1) as Hk. simpl in Hk.
    apply run_keys in H2 as (Hsub & _).
    apply elem_of_dom, Hsub, elem_of_dom. by rewrite Hk.
  - by eapply IH.
Qed.

Lemma refs_within_mono (X Y : list string) (fams : gmap string Family) :
  refs_within X fams -> refs_within (X ++ Y) fams.
Proof.
  intros H k f x Hf Hx. destruct (H k f x Hf Hx) as [-> | Hin]; [by left |].
  right. apply elem_of_app. by left.
Qed.

Lemma modify_refs (X Y : list string) (f : Family -> Family)
    (d d' : gmap string Family) (k0 : option string) :
  (forall v x, x ∈ family_refs (f v) -> x ∈ family_refs v \/ x ∈ Y) ->
  modify d k0 f = inr d' -> refs_within X d -> refs_within (X ++ Y) d'.
Proof.
  intros Hf Hm HX k v' x Hv' Hx.
  apply modify_inv in Hm as (c & v & -> & Hv & ->).
  destruct (decide (k = c)) as [-> | Hn].
  - rewrite lookup_insert_eq in Hv'. injection Hv' as <-.
    destruct (Hf v x Hx) as [Hold | HY].
    + destruct (HX c v x Hv Hold) as [-> | Hin]; [by left |].
      right. apply elem_of_app. by left.
    + right. apply elem_of_app. by right.
  - rewrite lookup_insert_ne in Hv' by done.
    by apply (refs_within_mono X Y d HX k v' x).
Qed.

Ltac solve_refs :=
  intros ? ?; unfold family_refs, fam_plac; repeat case_match; simpl;
  rewrite ?elem_of_cons, ?elem_of_app, ?elem_of_cons, ?elem_of_nil;
  tauto.

Lemma fam_line_refs (X : list string) (s s' : State) (tag data : string) :
  fam_line s tag data = inr s' ->
  refs_within X (families s) ->
  refs_within
    (X ++ option_list
            (if (tag =? "HUSB") || (tag =? "WIFE") || (tag =? "CHIL")
             then Some (clean_id data) else None))
    (families s').
Proof.
  unfold fam_line. intros H HX.
  repeat case_match; inv_ret H; simpl in *;
    try (by apply refs_within_mono);
    try discriminate;
    (eapply modify_refs; [| eassumption | assumption]); solve_refs.
Qed.

Lemma step_refs (X : list string) (s s' : State) (line : string) :
  step s line = inr s' ->
  refs_within X (families s) ->
  refs_within (X ++ option_list (ref_of line)) (families s').
Proof.
  unfold step, ref_of.
  destruct (parse_line line) as [[[level tag] data] |];
    [destruct (level =? "0") |]; simpl.
  - intros [= <-] HX. rewrite new_record_families, app_nil_r.
    destruct (opened tag data) as [[[| |] k'] |]; try done.
    intros k f x Hf Hx. destruct (decide (k = k')) as [-> | Hn].
    + rewrite lookup_insert_eq in Hf. injection Hf as <-. left.
      unfold family_refs in Hx. simpl in Hx.
      rewrite !elem_of_cons, elem_of_nil in Hx. tauto.
    + rewrite lookup_insert_ne in Hf by done. by eapply HX.
  - intros H HX. destruct (current_type s) as [[| |] |].
    + apply indi_line_frame in H as (_ & _ & _ & -> & _).
      by apply refs_within_mono.
    + by eapply fam_line_refs.
    + apply sour_line_frame in H as (_ & _ & _ & _ & -> & _).
      by apply refs_within_mono.
    + inv_ret H. by apply refs_within_mono.
  - intros H HX. inv_ret H. by apply refs_within_mono.
Qed.

Lemma run_refs (lines : list string) :
  forall (X : list string) (s s' : State),
    run lines s = inr s' ->
    refs_within X (families s) ->
    refs_within (X ++ omap ref_of lines) (families s').
Proof.
  induction lines as [| line lines IH]; intros X s s' H HX.
  - injection H as <-. by apply refs_within_mono.
  - rewrite run_cons in H. apply bind_ret_inv in H as (s1 & H1 & H2).
    pose proof (IH _ _ _ H2 (step_refs X _ _ _ H1 HX)) as Hfin.
    simpl. destruct (ref_of line); simpl in *.
    + by rewrite <- app_assoc in Hfin.
    + by rewrite app_nil_r in Hfin.
Qed.

(** Where the stored references come from, and that opened individuals
    are found under their identifier. *)
Lemma family_refs_origin (lines : list string) (R : Parsed) :
  parse_gedcom lines = inr R ->
  (forall fid fam x,
      r_families R !! fid = Some fam -> x ∈ family_refs fam ->
      x = "" \/ x ∈ omap ref_of lines)
  /\ (forall fid fam x line,
        r_families R !! fid = Some fam -> x ∈ family_refs fam ->
        line ∈ lines -> opens line = Some (INDI, x) ->
        exists p, r_people R !! x = Some p /\ p_id p = x)
  /\ (forall l1 l2 level tag w,
        parse_line l1 = Some ("0", w, "INDI") -> Str.startswith "@" w = true ->
        parse_line l2 = Some (level, tag, w) -> level <> "0" ->
        tag ∈ ["HUSB"; "WIFE"; "CHIL"] ->
        opens l1 = Some (INDI, clean_id w) /\ ref_of l2 = Some (clean_id w))
  /\ (forall w, clean_id (clean_id w) = clean_id w).
Proof.
  intros Hparse.
  destruct (parse_gedcom_total lines) as (s & Hrun & Hparse').
  rewrite Hparse' in Hparse. injection Hparse as <-. simpl.
  split; [| split; [| split]].
  - intros fid fam x Hfam Hx.
    by apply (run_refs lines [] init s Hrun) with (k := fid) (f := fam).
  - intros fid fam x line _ _ Hin Ho.
    destruct (run_opened_present lines line x init s Hin Ho Hrun) as [p Hp].
    exists p. split; [done |].
    apply (run_ids_ok lines init s Hrun); [| done].
    intros k q Hq. simpl in Hq. by rewrite lookup_empty in Hq.
  - intros l1 l2 level tag w H1 Hw H2 Hlevel Htag.
    unfold opens, ref_of, opened. rewrite H1, H2, Hw. simpl. split; [done |].
    apply String.eqb_neq in Hlevel. rewrite Hlevel. simpl.
    rewrite !elem_of_cons, elem_of_nil in Htag.
    destruct Htag as [-> | [-> | [-> | []]]]; done.
  - apply clean_id_idemp.
Qed.

(** ** The properties at concrete inputs *)

Lemma build_generations_steps_witness :
  exists G,
    build_generations (r_people example_parsed) (r_families example_parsed)
                      "I1" 2 = inr G
    /\ G !! 1 = Some ["I1"]
    /\ forall g l, 1 < g -> G !! g = Some l ->
         exists prev, G !! (g - 1) = Some prev
                      /\ l = parents_of (r_people example_parsed)
                                        (r_families example_parsed) prev.
Proof.
  apply (build_generations_steps (r_people example_parsed)
           (r_families example_parsed) "I1" 2).
  lia.
Defined.

Lemma build_generations_keys_witness :
  exists G K,
    build_generations (r_people example_parsed) (r_families example_parsed)
                      "I1" 2 = inr G
    /\ 1 <= K <= 2
    /\ dom G = list_to_set (range 1 (K + 1))
    /\ (forall g, is_Some (G !! g) <-> 1 <= g <= K)
    /\ (forall g l, G !! g = Some l -> l <> []).
Proof.
  apply (build_generations_keys (r_people example_parsed)
           (r_families example_parsed) "I1" 2).
  lia.
Defined.

Lemma first_date_only_witness :
  exists s1 s2,
    run ("1 BIRT" :: ["2 PLAC Boston"] ++ ["2 DATE 1 JAN 1900"])
        example_indi_state = inr s1
    /\ recorded "birth_date" "I1" s1 = Some "1 JAN 1900"
    /\ in_birth s1 = false /\ in_death s1 = false
    /\ run ["1 NAME John /Doe/"] s1 = inr s2
    /\ step s2 "2 DATE 2 JAN 1900" = inr s2
    /\ recorded "birth_date" "I1" s2 = Some "1 JAN 1900"
    /\ recorded "death_date" "I1" s2
       = recorded "death_date" "I1" example_indi_state.
Proof.
  apply (first_date_only Birth "I1" example_indi_state
           "1 BIRT" "2 DATE 1 JAN 1900" "2 DATE 2 JAN 1900"
           ["2 PLAC Boston"] ["1 NAME John /Doe/"]
           "1" "" "2" "1 JAN 1900" "2" "2 JAN 1900").
  - split; [reflexivity | split; [reflexivity |]].
    eexists. vm_compute. reflexivity.
  - reflexivity.
  - reflexivity.
  - discriminate.
  - repeat constructor.
  - reflexivity.
  - discriminate.
  - repeat constructor.
  - reflexivity.
  - discriminate.
Defined.

Lemma plac_fills_first_empty_slot_witness :
  exists p',
    step born_state "2 PLAC Boston"
    = inr (with_people born_state (<["I1" := p']> (people born_state)))
    /\ p_id p' = "I1" /\ p_name p' = "" /\ p_sources p' = []
    /\ p_famc p' = [] /\ p_fams p' = []
    /\ let ev := p_events born_person in
       let birth := is_Some (ev !! "birth_date") /\ ev !! "birth_place" = None in
       let death := is_Some (ev !! "death_date") /\ ev !! "death_place" = None in
       (birth -> p_events p' = <["birth_place" := "Boston"]> ev)
       /\ (~ birth -> death -> p_events p' = <["death_place" := "Boston"]> ev)
       /\ (~ birth -> ~ death -> p_events p' = ev).
Proof.
  apply (plac_fills_first_empty_slot born_state "I1" born_person
           "2 PLAC Boston" "2" "Boston").
  - reflexivity.
  - reflexivity.
  - vm_compute. reflexivity.
  - reflexivity.
  - discriminate.
Defined.

Lemma records_are_kept_witness :
  (dom (people example_indi_state) ⊆ dom (people example_final_state)
   /\ dom (families example_indi_state) ⊆ dom (families example_final_state)
   /\ dom (sources example_indi_state) ⊆ dom (sources example_final_state))
  /\ (forall k p,
        people example_indi_state !! k = Some p ->
        Forall (fun l => opens l <> Some (INDI, k)) example_rest ->
        exists p', people example_final_state !! k = Some p' /\ person_ext p p')
  /\ (forall k f,
        families example_indi_state !! k = Some f ->
        Forall (fun l => opens l <> Some (FAM, k)) example_rest ->
        exists f', families example_final_state !! k = Some f'
                   /\ family_ext f f')
  /\ (forall k x,
        sources example_indi_state !! k = Some x ->
        Forall (fun l => opens l <> Some (SOUR, k)) example_rest ->
        exists x', sources example_final_state !! k = Some x'
                   /\ source_ext x x')
  /\ (forall line t k s1 s2,
        opens line = Some (t, k) -> step s1 line = inr s2 ->
        match t with
        | INDI => people s2 !! k = Some (mkPerson k "" ∅ [] [] [])
        | FAM => families s2 !! k = Some (mkFamily k "" "" [] ∅)
        | SOUR => sources s2 !! k = Some (mkSource k "" "" "" "")
        end).
Proof.
  apply (records_are_kept example_rest example_indi_state example_final_state).
  vm_compute. reflexivity.
Defined.

(** ** Where the claims as stated fail *)

(** C4 as stated fails when both flags are pending.  Below, [BIRT] comes
    after [DEAT]: the first [DATE] line is recorded as the birth date, and
    the second one, which arrives before any other [BIRT] or [DEAT] tag, is
    not discarded: it is recorded as the death date. *)
Lemma second_date_sets_other_event :
  let lines := ["0 @I1@ INDI"; "1 DEAT"; "1 BIRT"; "2 DATE 1 JAN 1900";
                "2 DATE 2 JAN 1900"] in
  exists R p,
    parse_gedcom lines = inr R
    /\ r_people R !! "I1" = Some p
    /\ p_events p !! "birth_date" = Some "1 JAN 1900"
    /\ p_events p !! "death_date" = Some "2 JAN 1900".
Proof.
  simpl. eexists. eexists.
  split; [vm_compute; reflexivity |].
  split; [vm_compute; reflexivity |].
  split; vm_compute; reflexivity.
Qed.

(** C6 as stated fails: a level-0 line that opens the identifier of an
    existing record again stores a fresh record; the name and the child-of
    list gathered so far are gone. *)
Lemma reopened_record_is_reset :
  exists s1 s2 p1 p2,
    run ["0 @I1@ INDI"; "1 NAME John /Doe/"; "1 FAMC @F1@"] init = inr s1
    /\ people s1 !! "I1" = Some p1
    /\ p_name p1 = "John Doe" /\ p_famc p1 = ["F1"]
    /\ step s1 "0 @I1@ INDI" = inr s2
    /\ people s2 !! "I1" = Some p2
    /\ p_name p2 = "" /\ p_famc p2 = [].
Proof.
  do 4 eexists.
  split; [vm_compute; reflexivity |].
  split; [vm_compute; reflexivity |].
  split; [reflexivity |]. split; [reflexivity |].
  split; [vm_compute; reflexivity |].
  split; [vm_compute; reflexivity |].
  split; reflexivity.
Qed.

(** * Further properties of the parser *)

(** ** Every change of a mapping is an opening or one of the updates *)

Lemma indi_line_cases (s s' : State) (tag data : string) :
  indi_line s tag data = inr s' ->
  people s' = people s
  \/ exists c p f, indi_update f /\ people s !! c = Some p
                   /\ people s' = <[c := f p]> (people s).
Proof.
  unfold indi_line. intros H.
  repeat case_match; inv_ret H; simpl; try (by left);
    match goal with
    | Hm : modify _ _ _ = inr _ |- _ =>
        apply modify_inv in Hm as (c & p & _ & Hp & ->)
    end;
    right; exists c, p; eexists; (split; [| by split]); constructor.
Qed.

Lemma fam_line_cases (s s' : State) (tag data : string) :
  fam_line s tag data = inr s' ->
  families s' = families s
  \/ exists c p f, fam_update f /\ families s !! c = Some p
                   /\ families s' = <[c := f p]> (families s).
Proof.
  unfold fam_line. intros H.
  repeat case_match; inv_ret H; simpl; try (by left);
    match goal with
    | Hm : modify _ _ _ = inr _ |- _ =>
        apply modify_inv in Hm as (c & p & _ & Hp & ->)
    end;
    right; exists c, p; eexists; (split; [| by split]); constructor.
Qed.

Lemma sour_line_cases (s s' : State) (tag data : string) :
  sour_line s tag data = inr s' ->
  sources s' = sources s
  \/ exists c p f, sour_update f /\ sources s !! c = Some p
                   /\ sources s' = <[c := f p]> (sources s).
Proof.
  unfold sour_line. intros H.
  repeat case_match; inv_ret H; simpl; try (by left);
    match goal with
    | Hm : modify _ _ _ = inr _ |- _ =>
        apply modify_inv in Hm as (c & p & _ & Hp & ->)
    end;
    right; exists c, p; eexists; (split; [| by split]); constructor.
Qed.

Lemma step_people_cases (s s' : State) (line : string) :
  step s line = inr s' ->
  people s' = people s
  \/ (exists k, opens line = Some (INDI, k)
                /\ people s' = <[k := new_person k]> (people s))
  \/ exists c p f, indi_update f /\ people s !! c = Some p
                   /\ people s' = <[c := f p]> (people s).
Proof.
  unfold step, opens.
  destruct (parse_line line) as [[[level tag] data] |];
    [destruct (level =? "0") |].
  - intros [= <-]. rewrite new_record_people.
    destruct (opened tag data) as [[[| |] k] |]; try (by left).
    right; left. by exists k.
  - intros H. destruct (current_type s) as [[| |] |].
    + apply indi_line_cases in H as [H | H]; [by left | by right; right].
    + apply fam_line_frame in H as (_ & _ & _ & -> & _). by left.
    + apply sour_line_frame in H as (_ & _ & _ & -> & _). by left.
    + inv_ret H. by left.
  - intros H. inv_ret H. by left.
Qed.

Lemma step_families_cases (s s' : State) (line : string) :
  step s line = inr s' ->
  families s' = families s
  \/ (exists k, opens line = Some (FAM, k)
                /\ families s' = <[k := new_family k]> (families s))
  \/ exists c p f, fam_update f /\ families s !! c = Some p
                   /\ families s' = <[c := f p]> (families s).
Proof.
  unfold step, opens.
  destruct (parse_line line) as [[[level tag] data] |];
    [destruct (level =? "0") |].
  - intros [= <-]. rewrite new_record_families.
    destruct (opened tag data) as [[[| |] k] |]; try (by left).
    right; left. by exists k.
  - intros H. destruct (current_type s) as [[| |] |].
    + apply indi_line_frame in H as (_ & _ & _ & -> & _). by left.
    + apply fam_line_cases in H as [H | H]; [by left | by right; right].
    + apply sour_line_frame in H as (_ & _ & _ & _ & -> & _). by left.
    + inv_ret H. by left.
  - intros H. inv_ret H. by left.
Qed.

Lemma step_sources_cases (s s' : State) (line : string) :
  step s line = inr s' ->
  sources s' = sources s
  \/ (exists k, opens line = Some (SOUR, k)
                /\ sources s' = <[k := new_source k]> (sources s))
  \/ exists c p f, sour_update f /\ sources s !! c = Some p
                   /\ sources s' = <[c := f p]> (sources s).
Proof.
  unfold step, opens.
  destruct (parse_line line) as [[[level tag] data] |];
    [destruct (level =? "0") |].
  - intros [= <-]. rewrite new_record_sources.
    destruct (opened tag data) as [[[| |] k] |]; try (by left).
    right; left. by exists k.
  - intros H. destruct (current_type s) as [[| |] |].
    + apply indi_line_frame in H as (_ & _ & _ & _ & -> & _). by left.
    + apply fam_line_frame in H as (_ & _ & _ & _ & -> & _). by left.
    + apply sour_line_cases in H as [H | H]; [by left | by right; right].
    + inv_ret H. by left.
  - intros H. inv_ret H. by left.
Qed.

(** A property of the records that the fresh record has and every update
    keeps holds of every record after the pass. *)
Section RecordInvariants.

Context {V : Type}.
Variable field : State -> gmap string V.
Variable fresh : string -> V.
Variable update : (V -> V) -> Prop.
Variable t : RecType.

Hypothesis step_cases : forall s s' line,
  step s line = inr s' ->
  field s' = field s
  \/ (exists k, opens line = Some (t, k) /\ field s' = <[k := fresh k]> (field s))
  \/ exists c p f, update f /\ field s !! c = Some p
                   /\ field s' = <[c := f p]> (field s).

Variable P : string -> V -> Prop.
Hypothesis P_fresh : forall k, P k (fresh k).
Hypothesis P_update : forall k p f, update f -> P k p -> P k (f p).

Lemma step_invariant (s s' : State) (line : string) :
  step s line = inr s' -> map_Forall P (field s) -> map_Forall P (field s').
Proof.
  intros H HP.
  destruct (step_cases s s' line H)
    as [-> | [(k & _ & ->) | (c & p & f & Hf & Hp & ->)]]; [done | |].
  - apply map_Forall_insert_2; [apply P_fresh | done].
  - apply map_Forall_insert_2; [| done].
    apply P_update; [done |]. by apply (HP c p).
Qed.

Lemma run_invariant (lines : list string) (s s' : State) :
  run lines s = inr s' -> map_Forall P (field s) -> map_Forall P (field s').
Proof.
  revert s. induction lines as [| line lines IH]; intros s H HP.
  - by injection H as <-.
  - rewrite run_cons in H. apply bind_ret_inv in H as (s1 & H1 & H2).
    eapply IH; [done |]. by eapply step_invariant.
Qed.

End RecordInvariants.

(** ** Invariants of the parsed records *)

Lemma has_key_true {V : Type} (k : string) (d : gmap string V) :
  has_key k d = true <-> is_Some (d !! k).
Proof.
  unfold has_key. destruct (d !! k); split; try done; by intros [? ?].
Qed.

Lemma has_key_false {V : Type} (k : string) (d : gmap string V) :
  has_key k d = false <-> d !! k = None.
Proof. unfold has_key. by destruct (d !! k). Qed.

Lemma indi_update_events (f : Person -> Person) (p : Person) :
  indi_update f ->
  p_events (f p) = p_events p
  \/ (exists d, p_events (f p) = <["birth_date" := d]> (p_events p))
  \/ (exists d, p_events (f p) = <["death_date" := d]> (p_events p))
  \/ (exists d, is_Some (p_events p !! "birth_date")
                /\ p_events (f p) = <["birth_place" := d]> (p_events p))
  \/ (exists d, is_Some (p_events p !! "death_date")
                /\ p_events (f p) = <["death_place" := d]> (p_events p)).
Proof.
  intros [data | data | data | data | data | data | data]; simpl;
    try (by left); try (by right; left; eexists);
    try (by right; right; left; eexists).
  unfold indi_plac.
  destruct (has_key "birth_date" (p_events p)) eqn:Hbd; simpl.
  - destruct (has_key "birth_place" (p_events p)) eqn:Hbp; simpl.
    + destruct (has_key "death_date" (p_events p)) eqn:Hdd; simpl; [| by left].
      destruct (has_key "death_place" (p_events p)); simpl; [by left |].
      right; right; right; right. exists data.
      split; [by apply has_key_true | done].
    + right; right; right; left. exists data.
      split; [by apply has_key_true | done].
  - destruct (has_key "death_date" (p_events p)) eqn:Hdd; simpl; [| by left].
    destruct (has_key "death_place" (p_events p)); simpl; [by left |].
    right; right; right; right. exists data.
    split; [by apply has_key_true | done].
Qed.

Lemma fam_update_events (f : Family -> Family) (x : Family) :
  fam_update f ->
  f_events (f x) = f_events x
  \/ (exists d, f_events (f x) = <["marriage_date" := d]> (f_events x))
  \/ (exists d, is_Some (f_events x !! "marriage_date")
                /\ f_events (f x) = <["marriage_place" := d]> (f_events x)).
Proof.
  intros [data | data | data | data | data]; simpl;
    try (by left); try (by right; left; eexists).
  unfold fam_plac.
  destruct (has_key "marriage_date" (f_events x)) eqn:Hd; simpl; [| by left].
  destruct (has_key "marriage_place" (f_events x)); simpl; [by left |].
  right; right. exists data. split; [by apply has_key_true | done].
Qed.

Lemma indi_update_id (f : Person -> Person) (p : Person) :
  indi_update f -> p_id (f p) = p_id p.
Proof.
  intros [data | data | data | data | data | data | data]; simpl; try done.
  unfold indi_plac. by repeat case_match.
Qed.

Lemma fam_update_id (f : Family -> Family) (x : Family) :
  fam_update f -> f_id (f x) = f_id x.
Proof.
  intros [data | data | data | data | data]; simpl; try done.
  unfold fam_plac. by repeat case_match.
Qed.

Lemma sour_update_id (f : Source -> Source) (x : Source) :
  sour_update f -> s_id (f x) = s_id x.
Proof. by intros [data | data | data | data]. Qed.

Ltac solve_keys :=
  rewrite ?dom_insert_L; try done;
  apply union_subseteq; (split; [| done]);
  apply singleton_subseteq_l;
  rewrite !elem_of_union, !elem_of_singleton; auto 10.

(** X1. In every parse result the event map of an individual has no key
    besides [birth_date], [birth_place], [death_date] and [death_place],
    and the event map of a family none besides [marriage_date] and
    [marriage_place]. *)
Theorem parsed_event_keys (lines : list string) :
  exists R, parse_gedcom lines = inr R
    /\ (forall k p, r_people R !! k = Some p ->
          dom (p_events p) ⊆ indi_event_keys)
    /\ (forall k f, r_families R !! k = Some f ->
          dom (f_events f) ⊆ fam_event_keys).
Proof.
  destruct (parse_gedcom_total lines) as (s & Hrun & Hparse).
  exists (parsed_of s). split; [done |]. simpl. split.
  - apply (run_invariant people new_person indi_update INDI step_people_cases
             (fun _ p => dom (p_events p) ⊆ indi_event_keys)) with lines init;
      [| | done | done].
    + intros k. simpl. rewrite dom_empty_L. apply empty_subseteq.
    + intros k p f Hf HP. unfold indi_event_keys in *.
      destruct (indi_update_events f p Hf)
        as [-> | [[d ->] | [[d ->] | [(d & _ & ->) | (d & _ & ->)]]]];
        solve_keys.
  - apply (run_invariant families new_family fam_update FAM step_families_cases
             (fun _ f => dom (f_events f) ⊆ fam_event_keys)) with lines init;
      [| | done | done].
    + intros k. simpl. rewrite dom_empty_L. apply empty_subseteq.
    + intros k x f Hf HP. unfold fam_event_keys in *.
      destruct (fam_update_events f x Hf) as [-> | [[d ->] | (d & _ & ->)]];
        solve_keys.
Qed.

(** X2. In every parse result a place is recorded only beside its date: an
    individual with a [birth_place] has a [birth_date], one with a
    [death_place] has a [death_date], and a family with a
    [marriage_place] has a [marriage_date]. *)
Theorem parsed_place_needs_date (lines : list string) :
  exists R, parse_gedcom lines = inr R
    /\ (forall k p, r_people R !! k = Some p ->
          (is_Some (p_events p !! "birth_place") ->
           is_Some (p_events p !! "birth_date"))
          /\ (is_Some (p_events p !! "death_place") ->
              is_Some (p_events p !! "death_date")))
    /\ (forall k f, r_families R !! k = Some f ->
          is_Some (f_events f !! "marriage_place") ->
          is_Some (f_events f !! "marriage_date")).
Proof.
  destruct (parse_gedcom_total lines) as (s & Hrun & Hparse).
  exists (parsed_of s). split; [done |]. simpl. split.
  - apply (run_invariant people new_person indi_update INDI step_people_cases
             (fun _ p =>
                (is_Some (p_events p !! "birth_place") ->
                 is_Some (p_events p !! "birth_date"))
                /\ (is_Some (p_events p !! "death_place") ->
                    is_Some (p_events p !! "death_date"))))
      with lines init; [| | done | done].
    + intros k. simpl. rewrite !lookup_empty. by split; intros [? ?].
    + intros k p f Hf [Hb Hd].
      destruct (indi_update_events f p Hf)
        as [-> | [[d ->] | [[d ->] | [(d & Hs & ->) | (d & Hs & ->)]]]];
        [done | | | |];
        rewrite ?lookup_insert_eq, ?lookup_insert_ne by done;
        split; eauto.
  - apply (run_invariant families new_family fam_update FAM step_families_cases
             (fun _ f =>
                is_Some (f_events f !! "marriage_place") ->
                is_Some (f_events f !! "marriage_date")))
      with lines init; [| | done | done].
    + intros k. simpl. rewrite !lookup_empty. by intros [? ?].
    + intros k x f Hf Hm.
      destruct (fam_update_events f x Hf) as [-> | [[d ->] | (d & Hs & ->)]];
        [done | |];
        rewrite ?lookup_insert_eq, ?lookup_insert_ne by done; eauto.
Qed.

(** X3. In every parse result each record of the three mappings is stored
    under its own identifier. *)
Theorem parsed_ids_are_keys (lines : list string) :
  exists R, parse_gedcom lines = inr R
    /\ (forall k p, r_people R !! k = Some p -> p_id p = k)
    /\ (forall k f, r_families R !! k = Some f -> f_id f = k)
    /\ (forall k x, r_sources R !! k = Some x -> s_id x = k).
Proof.
  destruct (parse_gedcom_total lines) as (s & Hrun & Hparse).
  exists (parsed_of s). split; [done |]. simpl. split; [| split].
  - apply (run_invariant people new_person indi_update INDI step_people_cases
             (fun k p => p_id p = k)) with lines init; try done.
    intros k p f Hf <-. by apply indi_update_id.
  - apply (run_invariant families new_family fam_update FAM step_families_cases
             (fun k f => f_id f = k)) with lines init; try done.
    intros k x f Hf <-. by apply fam_update_id.
  - apply (run_invariant sources new_source sour_update SOUR step_sources_cases
             (fun k x => s_id x = k)) with lines init; try done.
    intros k x f Hf <-. by apply sour_update_id.
Qed.

(** ** Which records exist *)

Lemma opens_kind_indi (line : string) : opens_kind INDI line = opens_indi line.
Proof.
  unfold opens_kind, opens_indi. by destruct (opens line) as [[[| |] k] |].
Qed.

Lemma opens_kind_Some (t : RecType) (line k : string) :
  opens_kind t line = Some k <-> opens line = Some (t, k).
Proof.
  unfold opens_kind. destruct (opens line) as [[t' k'] |]; [| done].
  destruct (decide (t' = t)) as [-> | Hn]; split; intros H;
    simplify_eq; done.
Qed.

Lemma step_dom (s s' : State) (line k : string) :
  step s line = inr s' ->
  (k ∈ dom (people s') <-> k ∈ dom (people s) \/ opens line = Some (INDI, k))
  /\ (k ∈ dom (families s')
      <-> k ∈ dom (families s) \/ opens line = Some (FAM, k))
  /\ (k ∈ dom (sources s')
      <-> k ∈ dom (sources s) \/ opens line = Some (SOUR, k)).
Proof.
  intros H. rewrite !elem_of_dom. split; [| split].
  - destruct (decide (opens line = Some (INDI, k))) as [Ho | Hno].
    + pose proof (step_opened _ _ _ _ _ Ho H) as Hk. simpl in Hk.
      rewrite Hk. split; eauto.
    + pose proof (step_people_kept _ _ _ k H Hno) as Hk.
      inversion Hk; (split; [by eauto |]); intros [Hx | Hx]; by eauto.
  - destruct (decide (opens line = Some (FAM, k))) as [Ho | Hno].
    + pose proof (step_opened _ _ _ _ _ Ho H) as Hk. simpl in Hk.
      rewrite Hk. split; eauto.
    + pose proof (step_families_kept _ _ _ k H Hno) as Hk.
      inversion Hk; (split; [by eauto |]); intros [Hx | Hx]; by eauto.
  - destruct (decide (opens line = Some (SOUR, k))) as [Ho | Hno].
    + pose proof (step_opened _ _ _ _ _ Ho H) as Hk. simpl in Hk.
      rewrite Hk. split; eauto.
    + pose proof (step_sources_kept _ _ _ k H Hno) as Hk.
      inversion Hk; (split; [by eauto |]); intros [Hx | Hx]; by eauto.
Qed.

Lemma run_dom (lines : list string) (s s' : State) (k : string) :
  run lines s = inr s' ->
  (k ∈ dom (people s')
   <-> k ∈ dom (people s) \/ k ∈ omap (opens_kind INDI) lines)
  /\ (k ∈ dom (families s')
      <-> k ∈ dom (families s) \/ k ∈ omap (opens_kind FAM) lines)
  /\ (k ∈ dom (sources s')
      <-> k ∈ dom (sources s) \/ k ∈ omap (opens_kind SOUR) lines).
Proof.
  revert s. induction lines as [| line lines IH]; intros s H.
  - injection H as <-. simpl. rewrite !elem_of_nil. tauto.
  - rewrite run_cons in H. apply bind_ret_inv in H as (s1 & H1 & H2).
    destruct (step_dom _ _ _ k H1) as (Hp & Hf & Hs).
    destruct (IH _ H2) as (Hp' & Hf' & Hs').
    rewrite Hp', Hf', Hs', Hp, Hf, Hs. simpl.
    rewrite <- !opens_kind_Some.
    destruct (opens_kind INDI line) as [ki |],
             (opens_kind FAM line) as [kf |],
             (opens_kind SOUR line) as [ks |];
      rewrite ?elem_of_cons; repeat split; intros; try tauto;
      intuition congruence.
Qed.

(** X4. The keys of the three mappings are exactly the identifiers of the
    records the lines of the file open: an individual, family or source is
    in the parse result if and only if some level-0 line opened it. *)
Theorem parsed_keys_are_opened (lines : list string) :
  exists R, parse_gedcom lines = inr R
    /\ dom (r_people R) = list_to_set (omap (opens_kind INDI) lines)
    /\ dom (r_families R) = list_to_set (omap (opens_kind FAM) lines)
    /\ dom (r_sources R) = list_to_set (omap (opens_kind SOUR) lines).
Proof.
  destruct (parse_gedcom_total lines) as (s & Hrun & Hparse).
  exists (parsed_of s). split; [done |]. simpl.
  split; [| split]; apply set_eq; intros k; rewrite elem_of_list_to_set;
    destruct (run_dom lines init s k Hrun) as (Hp & Hf & Hs);
    simpl in Hp, Hf, Hs; rewrite ?Hp, ?Hf, ?Hs, dom_empty_L, elem_of_empty;
    tauto.
Qed.

(** X5. A root identifier returned by the parser is a key of the
    individuals mapping, and the record found there carries it. *)
Theorem parsed_root_is_present (lines : list string) :
  exists R, parse_gedcom lines = inr R
    /\ forall r, r_root_id R = Some r ->
         exists p, r_people R !! r = Some p /\ p_id p = r.
Proof.
  destruct (parse_gedcom_total lines) as (s & Hrun & Hparse).
  exists (parsed_of s). split; [done |]. simpl. intros r Hr.
  rewrite (run_root_id _ _ _ Hrun) in Hr. simpl in Hr.
  apply head_Some_elem_of in Hr.
  destruct (run_dom lines init s r Hrun) as (Hp & _).
  assert (r ∈ dom (people s)) as Hin.
  { apply Hp. right.
    by rewrite (list_omap_ext _ opens_indi lines lines)
      by (try done; apply Forall2_same_length_lookup_2; [done |];
          intros; simplify_eq; apply opens_kind_indi). }
  apply elem_of_dom in Hin as [p Hp']. exists p. split; [done |].
  apply (run_ids_ok lines init s Hrun); [| done].
  intros k q Hq. simpl in Hq. by rewrite lookup_empty in Hq.
Qed.

(** ** Names *)

Lemma has_char_remove_all (c : ascii) (s : string) :
  has_char c (Str.remove_all c s) = false.
Proof.
  induction s as [| d s IH]; simpl; [done |].
  destruct (Ascii.eqb d c) eqn:Hd; simpl; [done |]. by rewrite Hd.
Qed.

Lemma has_char_lstrip (c : ascii) (p : ascii -> bool) (s : string) :
  has_char c s = false -> has_char c (Str.lstrip p s) = false.
Proof.
  induction s as [| d s IH]; simpl; [done |].
  intros H. apply orb_false_iff in H as [Hd Hs].
  destruct (p d); simpl; [by apply IH | by rewrite Hd, Hs].
Qed.

Lemma has_char_rstrip (c : ascii) (p : ascii -> bool) (s : string) :
  has_char c s = false -> has_char c (Str.rstrip p s) = false.
Proof.
  induction s as [| d s IH]; simpl; [done |].
  intros H. apply orb_false_iff in H as [Hd Hs]. specialize (IH Hs).
  destruct (Str.rstrip p s) as [| e r]; simpl in *.
  - destruct (p d); simpl; [done | by rewrite Hd].
  - by rewrite Hd, IH.
Qed.

Lemma indi_update_name (f : Person -> Person) (p : Person) :
  indi_update f ->
  p_name (f p) = p_name p
  \/ exists data,
       p_name (f p) = Str.strip Str.is_space (Str.remove_all "/" data).
Proof.
  intros [data | data | data | data | data | data | data]; simpl;
    try (by left); [by right; exists data |].
  left. unfold indi_plac. by repeat case_match.
Qed.

(** X6. In every parse result the name of an individual contains no [/]
    and has no white space at either end. *)
Theorem parsed_names_are_clean (lines : list string) :
  exists R, parse_gedcom lines = inr R
    /\ forall k p, r_people R !! k = Some p ->
         has_char "/" (p_name p) = false
         /\ Str.strip Str.is_space (p_name p) = p_name p.
Proof.
  destruct (parse_gedcom_total lines) as (s & Hrun & Hparse).
  exists (parsed_of s). split; [done |]. simpl.
  apply (run_invariant people new_person indi_update INDI step_people_cases
           (fun _ p => has_char "/" (p_name p) = false
                       /\ Str.strip Str.is_space (p_name p) = p_name p))
    with lines init; try done.
  intros k p f Hf HP.
  destruct (indi_update_name f p Hf) as [-> | [data ->]]; [done |]. split.
  - apply has_char_rstrip, has_char_lstrip, has_char_remove_all.
  - apply StrFacts.strip_idemp.
Qed.

(** ** Lines outside the records *)

Lemma step_not_level0 (s : State) (line : string) :
  is_level0 line = false -> current_type s = None -> step s line = inr s.
Proof.
  unfold is_level0, step. intros H0 Ht.
  destruct (parse_line line) as [[[level tag] data] |]; [| done].
  by rewrite H0, Ht.
Qed.

Lemma run_not_level0 (lines : list string) (s : State) :
  Forall (fun l => is_level0 l = false) lines -> current_type s = None ->
  run lines s = inr s.
Proof.
  induction 1 as [| line lines Hl _ IH]; intros Ht; [done |].
  rewrite run_cons, (step_not_level0 _ _ Hl Ht). simpl. by apply IH.
Qed.

(** X7. A level-0 line that opens no record closes the current one:
    whatever lines follow below level 0, none of them changes a mapping
    or the root; the state reached is the one right after the level-0
    line.  This is how header and trailer blocks are passed over. *)
Theorem lines_outside_records_are_ignored (s : State) (l0 : string)
    (lines : list string) :
  is_level0 l0 = true -> opens l0 = None ->
  Forall (fun l => is_level0 l = false) lines ->
  run (l0 :: lines) s
  = inr (mkState (people s) (families s) (sources s) (root_id s) None None
                 false false false).
Proof.
  unfold is_level0, opens. intros H0 Ho Hlines.
  rewrite run_cons. unfold step at 1.
  destruct (parse_line l0) as [[[level tag] data] |]; [| done].
  rewrite H0 in *. simpl.
  assert (new_record s tag data
          = mkState (people s) (families s) (sources s) (root_id s) None None
                    false false false) as ->.
  { unfold new_record, opened in *. by repeat case_match. }
  by apply run_not_level0.
Qed.

(** ** The marriage date *)

Lemma quiet_fam_step (c : string) (s : State) (line : string) :
  in_fam c s -> quiet_fam line = true ->
  exists s',
    step s line = inr s' /\ in_fam c s' /\ in_marr s' = in_marr s
    /\ recorded_fam "marriage_date" c s' = recorded_fam "marriage_date" c s.
Proof.
  intros (Ht & Hc & [p Hp]) Hq. unfold quiet_fam in Hq.
  destruct (parse_line line) as [[[level tag] data] |] eqn:Hline.
  - apply andb_true_iff in Hq as [Hq Hdate].
    apply andb_true_iff in Hq as [Hlevel Hmarr].
    apply negb_true_iff in Hdate, Hmarr, Hlevel.
    apply String.eqb_neq in Hlevel.
    rewrite (step_below _ _ _ _ _ Hline Hlevel), Ht.
    unfold fam_line. rewrite Hmarr, Hdate. simpl.
    repeat case_match; try run_modify Hc Hp;
      (eexists; split; [reflexivity |]);
      unfold in_fam, recorded_fam; simpl;
      rewrite ?lookup_insert_eq, ?Hp; simpl;
      (split; [by eauto |]); (split; [done |]); try done;
      unfold fam_plac; repeat case_match; simpl;
      by rewrite ?lookup_insert_ne by done.
  - exists s. rewrite step_skip by (unfold has_fields; by rewrite Hline).
    unfold in_fam. by eauto 10.
Qed.

Lemma quiet_fam_run (c : string) (lines : list string) :
  Forall (fun l => quiet_fam l = true) lines ->
  forall s, in_fam c s ->
    exists s',
      run lines s = inr s' /\ in_fam c s' /\ in_marr s' = in_marr s
      /\ recorded_fam "marriage_date" c s' = recorded_fam "marriage_date" c s.
Proof.
  induction 1 as [| line lines Hq _ IH]; intros s Hin.
  - exists s. by eauto 10.
  - destruct (quiet_fam_step c s line Hin Hq) as (s1 & Hs1 & Hin1 & Hm1 & Hr1).
    destruct (IH s1 Hin1) as (s2 & Hs2 & Hin2 & Hm2 & Hr2).
    exists s2. rewrite run_cons, Hs1. simpl.
    do 2 (split; [done |]). split; congruence.
Qed.

Lemma fam_date_step (c : string) (f : Family) (s : State)
    (line level data : string) :
  current_type s = Some FAM -> current s = Some c -> families s !! c = Some f ->
  parse_line line = Some (level, "DATE", data) -> level <> "0" ->
  step s line
  = inr (if in_marr s then
           with_in_marr
             (with_families s
                (<[c := set_fam_event "marriage_date" data f]> (families s)))
             false
         else s).
Proof.
  intros Ht Hc Hf Hline Hlevel.
  rewrite (step_below _ _ _ _ _ Hline Hlevel), Ht.
  unfold fam_line. eval_tags.
  destruct (in_marr s); simpl; [by run_modify Hc Hf | done].
Qed.

(** X8. Inside a Family record, after a [MARR] tag only the first [DATE]
    line is recorded as [marriage_date]; a second [DATE] line arriving
    before another [MARR] tag leaves the whole state as it is.  With a
    single flag, this holds whatever came before. *)
Theorem first_marriage_date_only (c : string) (s : State)
    (l_tag l_date1 l_date2 : string) (mid1 mid2 : list string)
    (lv0 d0 lv1 d1 lv2 d2 : string) :
  in_fam c s ->
  parse_line l_tag = Some (lv0, "MARR", d0) -> lv0 <> "0" ->
  Forall (fun l => quiet_fam l = true) mid1 ->
  parse_line l_date1 = Some (lv1, "DATE", d1) -> lv1 <> "0" ->
  Forall (fun l => quiet_fam l = true) mid2 ->
  parse_line l_date2 = Some (lv2, "DATE", d2) -> lv2 <> "0" ->
  exists s1 s2,
    run (l_tag :: mid1 ++ [l_date1]) s = inr s1
    /\ recorded_fam "marriage_date" c s1 = Some d1
    /\ in_marr s1 = false
    /\ run mid2 s1 = inr s2
    /\ step s2 l_date2 = inr s2
    /\ recorded_fam "marriage_date" c s2 = Some d1.
Proof.
  intros Hin Htag Hlv0 Hmid1 Hdate1 Hlv1 Hmid2 Hdate2 Hlv2.
  pose proof Hin as (Ht & Hc & Hp).
  assert (step s l_tag = inr (with_in_marr s true)) as Hstep0.
  { rewrite (step_below _ _ _ _ _ Htag Hlv0), Ht. unfold fam_line. by eval_tags. }
  assert (in_fam c (with_in_marr s true)) as Hin0 by done.
  destruct (quiet_fam_run c mid1 Hmid1 _ Hin0) as (sa & Hruna & Hina & Hma & Hra).
  pose proof Hina as (Hta & Hca & [fa Hfa]).
  pose proof (fam_date_step c fa sa l_date1 lv1 d1 Hta Hca Hfa Hdate1 Hlv1)
    as Hstep1.
  rewrite Hma in Hstep1. simpl in Hstep1.
  set (s1 := with_in_marr _ false) in Hstep1.
  assert (in_fam c s1) as Hin1.
  { unfold in_fam, s1. simpl. rewrite lookup_insert_eq. by eauto. }
  assert (recorded_fam "marriage_date" c s1 = Some d1) as Hr1.
  { unfold recorded_fam, s1. simpl. rewrite lookup_insert_eq. simpl.
    apply lookup_insert_eq. }
  destruct (quiet_fam_run c mid2 Hmid2 s1 Hin1) as (s2 & Hrun2 & Hin2 & Hm2 & Hr2).
  pose proof Hin2 as (Ht2 & Hc2 & [f2 Hf2]).
  exists s1, s2. split.
  { rewrite run_cons, Hstep0. cbn [bind]. rewrite run_app, Hruna. cbn [bind].
    by rewrite run_cons, Hstep1. }
  do 3 (split; [done |]). split; [| congruence].
  rewrite (fam_date_step c f2 s2 l_date2 lv2 d2 Ht2 Hc2 Hf2 Hdate2 Hlv2).
  by rewrite Hm2.
Qed.

(** ** Wrapping and cleaning an identifier *)

Lemma rstrip_app_char (p : ascii -> bool) (c : ascii) (x : string) :
  p c = true -> Str.rstrip p (x ++ String c "") = Str.rstrip p x.
Proof.
  intros Hc. induction x as [| d x IH]; simpl; [by rewrite Hc |].
  by rewrite IH.
Qed.

Lemma strip_fixed_no_lead (p : ascii -> bool) (x : string) :
  Str.strip p x = x -> Str.no_lead p x.
Proof.
  intros <-. apply StrFacts.rstrip_no_lead, StrFacts.lstrip_no_lead.
Qed.

Lemma strip_wrapped (p : ascii -> bool) (c : ascii) (x : string) :
  p c = true -> Str.strip p x = x ->
  Str.strip p (String c (x ++ String c "")) = x.
Proof.
  intros Hc Hx. pose proof (strip_fixed_no_lead p x Hx) as Hlead.
  unfold Str.strip in *.
  rewrite (StrFacts.lstrip_id p x Hlead) in Hx.
  destruct x as [| d x].
  - simpl. by rewrite !Hc.
  - simpl in Hlead. cbn [Str.lstrip]. rewrite Hc.
    change (String d x ++ String c "") with (String d (x ++ String c "")).
    cbn [Str.lstrip]. rewrite Hlead.
    change (String d (x ++ String c "")) with (String d x ++ String c "").
    by rewrite rstrip_app_char.
Qed.

Lemma clean_id_fixed (w : string) :
  Str.strip (Str.is_char "@") (clean_id w) = clean_id w.
Proof.
  unfold clean_id. destruct (Str.truthy w) eqn:Hw.
  - apply StrFacts.strip_idemp.
  - by destruct w.
Qed.

(** X9. Cleaning undoes wrapping: an identifier that [clean_id] returned,
    put between two [@] and cleaned again, comes back unchanged.  A
    cleaned identifier never starts with [@]. *)
Theorem clean_id_unwraps (w : string) :
  clean_id ("@" ++ clean_id w ++ "@") = clean_id w
  /\ Str.startswith "@" (clean_id w) = false.
Proof.
  split.
  - change ("@" ++ clean_id w ++ "@")
      with (String "@" (clean_id w ++ String "@" "")).
    unfold clean_id at 1. simpl Str.truthy. cbv iota.
    apply strip_wrapped; [done | apply clean_id_fixed].
  - pose proof (strip_fixed_no_lead _ _ (clean_id_fixed w)) as Hlead.
    destruct (clean_id w) as [| c x]; simpl in *; [done |].
    unfold Str.is_char in Hlead.
    rewrite Ascii.eqb_sym. exact Hlead.
Qed.

(** * Further properties of the generation builder *)

Section GenerationFacts.

Variable people : gmap string Person.
Variable families : gmap string Family.
Variable root_id : string.

(** Asking for at least as many generations gives at least as many. *)
Lemma build_generations_mono_sets (max_gen max_gen' : Z) :
  max_gen <= max_gen' ->
  exists G G' K K',
    build_generations people families root_id max_gen = inr G
    /\ build_generations people families root_id max_gen' = inr G'
    /\ gen_set people families root_id K G
    /\ gen_set people families root_id K' G'
    /\ K <= K'.
Proof.
  intros Hle.
  destruct (build_generations_spec people families root_id max_gen)
    as (G & K & Hb & HK & HG & Hstop).
  destruct (build_generations_spec people families root_id max_gen')
    as (G' & K' & Hb' & HK' & HG' & Hstop').
  exists G, G', K, K'. do 4 (split; [done |]).
  destruct (Z_lt_le_dec K' max_gen') as [Hlt | Hge]; [| lia].
  destruct (Hstop' Hlt) as (last & Hlast & Hempty).
  by apply (gen_set_stop people families root_id K' K G' G last).
Qed.

Lemma elem_of_family_parents (x : string) (fam : Family) :
  x ∈ family_parents fam ->
  x <> "" /\ (x = f_husb fam \/ x = f_wife fam).
Proof.
  unfold family_parents. rewrite elem_of_app.
  destruct (f_husb fam) as [| c h] eqn:Hh, (f_wife fam) as [| d w] eqn:Hw;
    simpl; rewrite ?elem_of_cons, ?elem_of_nil; intros H;
    intuition (subst; auto; done).
Qed.

Lemma elem_of_parents_of (x : string) (prev : list string) :
  x ∈ parents_of people families prev ->
  exists child p fid fam,
    child ∈ prev /\ people !! child = Some p /\ fid ∈ p_famc p
    /\ families !! fid = Some fam /\ x ∈ family_parents fam.
Proof.
  unfold parents_of. rewrite list_elem_of_In, in_flat_map.
  intros (child & Hchild & Hx). unfold person_parents in Hx.
  destruct (people !! child) as [p |] eqn:Hp; [| done].
  apply in_flat_map in Hx as (fid & Hfid & Hx).
  destruct (families !! fid) as [fam |] eqn:Hfam; [| done].
  exists child, p, fid, fam.
  rewrite !list_elem_of_In. by repeat split.
Qed.

Lemma length_family_parents (fam : Family) :
  (length (family_parents fam) <= 2)%nat.
Proof.
  unfold family_parents.
  destruct (Str.truthy (f_husb fam)), (Str.truthy (f_wife fam)); simpl; lia.
Qed.

Lemma length_parents_of (prev : list string) :
  (forall k p, people !! k = Some p -> (length (p_famc p) <= 1)%nat) ->
  (length (parents_of people families prev) <= 2 * length prev)%nat.
Proof.
  intros Hone. unfold parents_of.
  induction prev as [| child prev IH]; simpl; [lia |].
  rewrite length_app.
  assert (length (person_parents people families child) <= 2)%nat; [| lia].
  unfold person_parents. destruct (people !! child) as [p |] eqn:Hp;
    [| simpl; lia].
  specialize (Hone child p Hp).
  destruct (p_famc p) as [| fid [| fid' famc]]; simpl in *; try lia.
  rewrite app_nil_r. destruct (families !! fid) as [fam |]; simpl; [| lia].
  apply length_family_parents.
Qed.

Lemma gen_set_sizes (K : Z) (G : gmap Z (list string)) :
  (forall k p, people !! k = Some p -> (length (p_famc p) <= 1)%nat) ->
  gen_set people families root_id K G ->
  forall g l, G !! g = Some l -> Z.of_nat (length l) <= 2 ^ (g - 1).
Proof.
  intros Hone (Hdom & Hroot & _ & Hstep).
  assert (forall n : nat, forall l, G !! (1 + Z.of_nat n) = Some l ->
            Z.of_nat (length l) <= 2 ^ Z.of_nat n) as Hnat.
  { induction n as [| n IH]; intros l Hl.
    - change (1 + Z.of_nat 0) with 1 in Hl. rewrite Hroot in Hl.
      injection Hl as <-. simpl. lia.
    - destruct (Hstep (1 + Z.of_nat (S n)) l ltac:(lia) Hl)
        as (prev & Hprev & ->).
      replace (1 + Z.of_nat (S n) - 1) with (1 + Z.of_nat n) in Hprev by lia.
      specialize (IH prev Hprev).
      pose proof (length_parents_of prev Hone) as Hlen.
      replace (Z.of_nat (S n)) with (Z.succ (Z.of_nat n)) by lia.
      rewrite Z.pow_succ_r by lia. lia. }
  intros g l Hl.
  assert (1 <= g) by (destruct (proj1 (Hdom g)); [eauto | done]).
  specialize (Hnat (Z.to_nat (g - 1)) l).
  replace (1 + Z.of_nat (Z.to_nat (g - 1))) with g in Hnat by lia.
  replace (Z.of_nat (Z.to_nat (g - 1))) with (g - 1) in Hnat by lia.
  by apply Hnat.
Qed.

End GenerationFacts.

(** X10. Asking for more generations only adds generations: the result
    for [max_gen] is contained in the result for any larger
    [max_gen']. *)
Theorem build_generations_monotone (people : gmap string Person)
    (families : gmap string Family) (root_id : string) (max_gen max_gen' : Z) :
  max_gen <= max_gen' ->
  exists G G',
    build_generations people families root_id max_gen = inr G
    /\ build_generations people families root_id max_gen' = inr G'
    /\ G ⊆ G'.
Proof.
  intros Hle.
  destruct (build_generations_mono_sets people families root_id
              max_gen max_gen' Hle)
    as (G & G' & K & K' & Hb & Hb' & HG & HG' & HK).
  exists G, G'. do 2 (split; [done |]).
  apply map_subseteq_spec. intros g l Hl.
  assert (1 <= g <= K) as Hg.
  { destruct HG as (Hdom & _). apply Hdom. eauto. }
  rewrite <- (gen_set_agree people families root_id K K' G G' HG HG')
    by lia.
  done.
Qed.

(** X11. Every member of a generation after the first is a non-empty
    identifier, the husband or the wife of a family of the families
    mapping that is in the child-of list of a member of the generation
    before who is in the individuals mapping. *)
Theorem generation_members_are_parents (people : gmap string Person)
    (families : gmap string Family) (root_id : string) (max_gen : Z) :
  exists G,
    build_generations people families root_id max_gen = inr G
    /\ forall g l x, 1 < g -> G !! g = Some l -> x ∈ l ->
         x <> ""
         /\ exists prev child p fid fam,
              G !! (g - 1) = Some prev /\ child ∈ prev
              /\ people !! child = Some p /\ fid ∈ p_famc p
              /\ families !! fid = Some fam
              /\ (x = f_husb fam \/ x = f_wife fam).
Proof.
  destruct (build_generations_spec people families root_id max_gen)
    as (G & K & Hb & _ & (_ & _ & _ & Hstep) & _).
  exists G. split; [done |]. intros g l x Hg Hl Hx.
  destruct (Hstep g l Hg Hl) as (prev & Hprev & ->).
  apply elem_of_parents_of in Hx
    as (child & p & fid & fam & Hchild & Hp & Hfid & Hfam & Hx).
  apply elem_of_family_parents in Hx as [Hne Hor].
  split; [done |]. by exists prev, child, p, fid, fam.
Qed.

(** X12. When no individual is a child of more than one family,
    generation [g] has at most [2 ^ (g - 1)] members. *)
Theorem generation_sizes (people : gmap string Person)
    (families : gmap string Family) (root_id : string) (max_gen : Z) :
  (forall k p, people !! k = Some p -> (length (p_famc p) <= 1)%nat) ->
  exists G,
    build_generations people families root_id max_gen = inr G
    /\ forall g l, G !! g = Some l -> Z.of_nat (length l) <= 2 ^ (g - 1).
Proof.
  intros Hone.
  destruct (build_generations_spec people families root_id max_gen)
    as (G & K & Hb & _ & HG & _).
  exists G. split; [done |].
  by apply (gen_set_sizes people families root_id K).
Qed.

(** * Properties of the report *)

(** ** Generation titles *)

Lemma str_of_Z_inj (a b : Z) : str_of_Z a = str_of_Z b -> a = b.
Proof.
  unfold str_of_Z. intros H. apply DecimalZ.to_int_inj.
  assert (forall z, NilZero.int_of_string (NilZero.string_of_int (Z.to_int z))
                    = Some (Z.to_int z)) as Hisi.
  { intros z. apply NilZero.isi; destruct z as [| p | p]; simpl;
      try discriminate; intros [= Hp];
      by apply (DecimalPos.Unsigned.to_uint_nonnil p). }
  pose proof (Hisi a) as Ha. rewrite H, Hisi in Ha. by injection Ha.
Qed.

Lemma string_of_uint_no_space (d : Decimal.uint) :
  has_char " " (NilEmpty.string_of_uint d) = false.
Proof. induction d; simpl; done. Qed.

Lemma str_of_Z_no_space (z : Z) : has_char " " (str_of_Z z) = false.
Proof.
  unfold str_of_Z, NilZero.string_of_int, NilZero.string_of_uint.
  destruct (Z.to_int z) as [d | d]; destruct d; simpl;
    try done; apply string_of_uint_no_space.
Qed.

Lemma break_no_sep (c : ascii) (a : string) :
  has_char c a = false -> Str.break c a = (a, None).
Proof.
  induction a as [| d a IH]; simpl; [done |].
  intros H. apply orb_false_iff in H as [Hd Ha].
  by rewrite Hd, (IH Ha).
Qed.

Lemma break_app (c : ascii) (a b : string) :
  has_char c a = false -> Str.break c (a ++ String c b) = (a, Some b).
Proof.
  induction a as [| d a IH]; simpl.
  - intros _. by rewrite Ascii.eqb_refl.
  - intros H. apply orb_false_iff in H as [Hd Ha].
    by rewrite Hd, (IH Ha).
Qed.

Lemma append_empty_r (a : string) : a ++ "" = a.
Proof.
  induction a as [| d a IH]; [done |].
  change (String d a ++ "") with (String d (a ++ "")). by rewrite IH.
Qed.

Lemma append_cancel_l (a t t' : string) : a ++ t = a ++ t' -> t = t'.
Proof.
  induction a as [| d a IH]; [done |].
  change (String d a ++ t) with (String d (a ++ t)).
  change (String d a ++ t') with (String d (a ++ t')).
  intros [= H]. by apply IH.
Qed.

Lemma labels_outside (g : Z) : g < 1 \/ 10 < g -> labels !! g = None.
Proof.
  intros Hg. unfold labels. apply not_elem_of_list_to_map_1. simpl.
  rewrite !elem_of_cons, elem_of_nil. lia.
Qed.

(** The title is [Generation], the number, and possibly a label that
    starts with a space. *)
Lemma generation_title_shape (g : Z) :
  exists rest,
    generation_title g = "Generation " ++ str_of_Z g ++ rest
    /\ (rest = "" \/ exists r, rest = String " " r)
    /\ (g < 1 \/ 10 < g -> rest = "").
Proof.
  destruct (decide (1 <= g <= 10)) as [Hin | Hout].
  - assert (g = 1 \/ g = 2 \/ g = 3 \/ g = 4 \/ g = 5 \/ g = 6 \/ g = 7
            \/ g = 8 \/ g = 9 \/ g = 10) as Hg by lia.
    destruct Hg as [-> | [-> | [-> | [-> | [-> | [-> | [-> | [-> | [-> | ->]]]]]]]]].
    + exists "". split; [reflexivity |]. split; [by left | lia].
    + exists " (Parents)". split; [reflexivity |]. split; [by eauto | lia].
    + exists " (Grandparents)". split; [reflexivity |]. split; [by eauto | lia].
    + exists " (Great-grandparents)".
      split; [reflexivity |]. split; [by eauto | lia].
    + exists " (2nd Great-grandparents)".
      split; [reflexivity |]. split; [by eauto | lia].
    + exists " (3rd Great-grandparents)".
      split; [reflexivity |]. split; [by eauto | lia].
    + exists " (4th Great-grandparents)".
      split; [reflexivity |]. split; [by eauto | lia].
    + exists " (5th Great-grandparents)".
      split; [reflexivity |]. split; [by eauto | lia].
    + exists " (6th Great-grandparents)".
      split; [reflexivity |]. split; [by eauto | lia].
    + exists " (7th Great-grandparents)".
      split; [reflexivity |]. split; [by eauto | lia].
  - exists "". rewrite append_empty_r. unfold generation_title.
    rewrite labels_outside by lia. split; [done |]. split; [by left | done].
Qed.

Lemma generation_title_number (g : Z) :
  exists t, generation_title g = "Generation " ++ t
            /\ fst (Str.break " " t) = str_of_Z g.
Proof.
  destruct (generation_title_shape g) as (rest & Ht & [-> | [r ->]] & _).
  - exists (str_of_Z g). rewrite append_empty_r in Ht. split; [done |].
    by rewrite break_no_sep by apply str_of_Z_no_space.
  - exists (str_of_Z g ++ String " " r). split; [done |].
    by rewrite break_app by apply str_of_Z_no_space.
Qed.

(** X13. A generation title is the word [Generation], a space and the
    number in decimal, followed by a label only for the numbers 2 to 10;
    distinct numbers have distinct titles. *)
Theorem generation_title_distinct (g : Z) :
  (exists rest,
      generation_title g = "Generation " ++ str_of_Z g ++ rest
      /\ (g < 1 \/ 10 < g -> rest = ""))
  /\ forall g', generation_title g = generation_title g' -> g = g'.
Proof.
  split.
  - destruct (generation_title_shape g) as (rest & Ht & _ & Hout). eauto.
  - intros g' H.
    destruct (generation_title_number g) as (t & Ht & Hn).
    destruct (generation_title_number g') as (t' & Ht' & Hn').
    rewrite Ht, Ht' in H. apply append_cancel_l in H as ->.
    apply str_of_Z_inj. congruence.
Qed.

(** ** The number the report returns *)

Lemma foldl_max_spec (ks : list Z) :
  forall k, foldl Z.max k ks ∈ k :: ks
            /\ forall x, x ∈ k :: ks -> x <= foldl Z.max k ks.
Proof.
  induction ks as [| y ks IH]; intros k; simpl.
  - split; [by left |]. intros x Hx.
    apply elem_of_cons in Hx as [-> | Hx]; [lia |]. by apply elem_of_nil in Hx.
  - destruct (IH (Z.max k y)) as [Hin Hle]. split.
    + apply elem_of_cons in Hin as [Hm | Hin].
      * rewrite Hm. destruct (Z.max_spec k y) as [[_ ->] | [_ ->]].
        -- right. by left.
        -- by left.
      * right. by right.
    + intros x Hx. apply elem_of_cons in Hx as [-> | Hx].
      * specialize (Hle (Z.max k y) ltac:(by left)). lia.
      * apply elem_of_cons in Hx as [-> | Hx].
        -- specialize (Hle (Z.max k y) ltac:(by left)). lia.
        -- apply Hle. by right.
Qed.

Lemma max_key_None (G : gmap Z (list string)) : max_key G = None <-> G = ∅.
Proof.
  unfold max_key. destruct (elements (dom G)) as [| k ks] eqn:E.
  - split; [intros _ | done].
    apply elements_empty_inv in E. apply leibniz_equiv in E.
    by apply dom_empty_inv_L.
  - split; [done |]. intros ->. by rewrite dom_empty_L, elements_empty in E.
Qed.

Lemma max_key_Some (G : gmap Z (list string)) (m : Z) :
  max_key G = Some m ->
  is_Some (G !! m) /\ forall g, is_Some (G !! g) -> g <= m.
Proof.
  unfold max_key. destruct (elements (dom G)) as [| k ks] eqn:E; [done |].
  intros [= <-]. destruct (foldl_max_spec ks k) as [Hin Hle].
  rewrite <- E in Hin. split.
  - by apply elem_of_dom, elem_of_elements.
  - intros g Hg. apply Hle. rewrite <- E.
    by apply elem_of_elements, elem_of_dom.
Qed.


(** ** The loops of the report *)

Section ReportFacts.

Variable dash : string.
Variable people : gmap string Person.
Variable families : gmap string Family.
Variable sources : gmap string Source.

Lemma person_lines_ok (g : Z) (person_id : string) :
  missing_family people families person_id = false ->
  person_lines dash people families sources g person_id
  = inr (lines_of dash people families sources g person_id)
  /\ length (lines_of dash people families sources g person_id)
     = (if Z.ltb 1 g then 7 else 4)%nat.
Proof.
  unfold lines_of, person_lines, missing_family, lookup_person, first_family.
  destruct (people !! person_id) as [p |]; simpl.
  - destruct (p_fams p) as [| fam_id fams]; simpl.
    + intros _. by destruct (Z.ltb 1 g).
    + unfold has_key. destruct (families !! fam_id) as [fam |]; [| done].
      intros _. simpl. by destruct (Z.ltb 1 g).
  - intros _. by destruct (Z.ltb 1 g).
Qed.

Lemma person_lines_err (g : Z) (person_id : string) :
  missing_family people families person_id = true ->
  person_lines dash people families sources g person_id = inl KeyError.
Proof.
  unfold person_lines, missing_family, lookup_person, first_family.
  destruct (people !! person_id) as [p |]; simpl; [| done].
  destruct (p_fams p) as [| fam_id fams]; simpl; [done |].
  unfold has_key. by destruct (families !! fam_id).
Qed.

Lemma sorted_keys_elem (G : gmap Z (list string)) (g : Z) :
  g ∈ merge_sort Z.le (elements (dom G)) <-> is_Some (G !! g).
Proof.
  rewrite merge_sort_Permutation, elem_of_elements. apply elem_of_dom.
Qed.

End ReportFacts.

(** ** The report of built generations *)





Section Headings.

Variable dash : string.
Variable people : gmap string Person.
Variable families : gmap string Family.
Variable sources : gmap string Source.





End Headings.

(** ** What the report does *)

Lemma max_key_greatest (G : gmap Z (list string)) (m : Z) :
  max_key G = Some m
  <-> is_Some (G !! m) /\ forall g, is_Some (G !! g) -> g <= m.
Proof.
  split; [apply max_key_Some |]. intros [Hin Hle].
  destruct (max_key G) as [m' |] eqn:Hm.
  - apply max_key_Some in Hm as [Hin' Hle']. f_equal.
    specialize (Hle m' Hin'). specialize (Hle' m Hin). lia.
  - apply max_key_None in Hm. subst G. rewrite lookup_empty in Hin.
    by destruct Hin.
Qed.

Section ReportLoops.

Variable dash : string.
Variable people : gmap string Person.
Variable families : gmap string Family.
Variable sources : gmap string Source.
Variable paragraph_ok : string -> Style -> bool.

Lemma appends_impl (bad bad' : Prop) (chunk els : list Flowable)
    (r : rresult (list Flowable)) :
  (bad <-> bad') ->
  appends paragraph_ok bad chunk els r -> appends paragraph_ok bad' chunk els r.
Proof.
  intros Hb. destruct r as [[| e |] | els']; simpl; tauto.
Qed.

Lemma appends_paragraph (els : list Flowable) (text : string) (style : Style) :
  appends paragraph_ok False [Paragraph text style] els
          (append_paragraph paragraph_ok els text style).
Proof.
  unfold append_paragraph. simpl.
  destruct (paragraph_ok text style) eqn:Hp; simpl; rewrite Hp; [| done].
  split; [tauto | done].
Qed.

Lemma appends_spacer (els : list Flowable) (w h : Z) :
  appends paragraph_ok False [Spacer w h] els (inr (els ++ [Spacer w h])%list).
Proof.
  simpl. split; [tauto | done].
Qed.

Lemma appends_bind (bad1 bad2 : Prop) (c1 c2 els : list Flowable)
    (m : rresult (list Flowable))
    (k : list Flowable -> rresult (list Flowable)) :
  appends paragraph_ok bad1 c1 els m ->
  (forall els1, appends paragraph_ok bad2 c2 els1 (k els1)) ->
  appends paragraph_ok (bad1 \/ bad2) (c1 ++ c2)%list els (rbind m k).
Proof.
  intros Hm Hk. destruct m as [[| e |] | els1]; simpl in Hm |- *.
  - done.
  - destruct Hm as [-> Hb]. split; [done | by left].
  - by rewrite forallb_app, Hm.
  - destruct Hm as (Hb & Hc & ->). specialize (Hk (els ++ c1)%list).
    destruct (k (els ++ c1)%list) as [[| e |] | els2]; simpl in Hk |- *.
    + done.
    + destruct Hk as [-> Hb2]. split; [done | by right].
    + by rewrite forallb_app, Hk, andb_false_r.
    + destruct Hk as (Hb2 & Hc2 & ->).
      split; [tauto |]. split; [by rewrite forallb_app, Hc, Hc2 |].
      by rewrite app_assoc.
Qed.

Lemma appends_for_each {A : Type}
    (body : list Flowable -> A -> rresult (list Flowable))
    (chunk : A -> list Flowable) (bad : A -> Prop) (xs : list A) :
  (forall els x, x ∈ xs ->
                 appends paragraph_ok (bad x) (chunk x) els (body els x)) ->
  forall els,
    appends paragraph_ok (Exists bad xs) (flat_map chunk xs) els
            (rfor_each body xs els).
Proof.
  induction xs as [| x xs IH]; intros Hbody els.
  - simpl. split; [rewrite Exists_nil; tauto |]. split; [done |].
    by rewrite app_nil_r.
  - cbn [rfor_each flat_map].
    apply (appends_impl (bad x \/ Exists bad xs)); [by rewrite Exists_cons |].
    apply appends_bind; [apply Hbody; left |].
    intros els1. apply IH. intros els2 y Hy. apply Hbody. by right.
Qed.

Lemma flat_map_paragraphs (lines : list string) :
  flat_map (fun line => [Paragraph line Normal]) lines
  = map (fun line => Paragraph line Normal) lines.
Proof.
  induction lines as [| line lines IH]; [done |]. simpl. by rewrite IH.
Qed.

(** The body of the loop over the members. *)
Lemma person_elements_appends (g : Z) (n : nat) (els : list Flowable)
    (member : nat * string) :
  appends paragraph_ok
          (missing_family people families (snd member) = true)
          (member_layout dash people families sources g n member) els
          (person_elements dash people families sources paragraph_ok g n els
                           member).
Proof.
  destruct member as [i person_id].
  unfold person_elements, member_layout. cbn [fst snd].
  destruct (missing_family people families person_id) eqn:Hm.
  - rewrite (person_lines_err dash people families sources g person_id Hm).
    simpl. done.
  - destruct (person_lines_ok dash people families sources g person_id Hm)
      as [-> _].
    cbn [lift rbind]. unfold block.
    rewrite <- flat_map_paragraphs, <- app_assoc.
    apply (appends_impl
             (Exists (fun _ : string => False)
                     (lines_of dash people families sources g person_id)
              \/ False)).
    { split; [| done]. intros [H | []].
      apply Exists_exists in H as (? & _ & []). }
    apply appends_bind.
    { apply appends_for_each. intros els1 line _. apply appends_paragraph. }
    intros els1.
    destruct (Z.ltb (Z.of_nat i) (Z.of_nat n - 1)).
    + unfold append_paragraph.
      destruct (paragraph_ok SEP_SHORT Normal) eqn:Hp; simpl; rewrite Hp.
      * split; [tauto |]. split; [done |]. by rewrite <- !app_assoc.
      * done.
    + simpl. split; [tauto |]. done.
Qed.

(** The separator goes between two members, and not after the last. *)
Lemma member_layout_separated (g : Z) (members : list string) :
  forall a : nat,
    flat_map (member_layout dash people families sources g
                            (a + length members))
             (combine (seq a (length members)) members)
    = separated (map (fun person_id =>
                        block (lines_of dash people families sources g
                                        person_id))
                     members).
Proof.
  induction members as [| x members IH]; intros a; [done |].
  cbn [length seq combine flat_map map].
  replace (a + S (length members))%nat with (S a + length members)%nat by lia.
  rewrite IH. unfold member_layout at 1. cbn [fst snd].
  destruct members as [| y members].
  - cbn [length map separated].
    replace (Z.ltb (Z.of_nat a) (Z.of_nat (S a + 0) - 1)) with false
      by (symmetry; apply Z.ltb_ge; lia).
    by rewrite !app_nil_r.
  - replace (Z.ltb (Z.of_nat a)
                   (Z.of_nat (S a + length (y :: members)) - 1)) with true
      by (symmetry; apply Z.ltb_lt; simpl length; lia).
    cbn [map separated]. by rewrite <- app_assoc.
Qed.

Lemma Exists_members (P : string -> Prop) (members : list string) :
  forall a : nat,
    Exists (fun member : nat * string => P (snd member))
           (combine (seq a (length members)) members)
    <-> Exists P members.
Proof.
  induction members as [| x members IH]; intros a; simpl.
  - by rewrite !Exists_nil.
  - by rewrite !Exists_cons, IH.
Qed.

(** The body of the loop over the generation numbers. *)
Lemma generation_elements_appends (G : gmap Z (list string))
    (els : list Flowable) (g : Z) :
  appends paragraph_ok
          (Exists (fun person_id =>
                     missing_family people families person_id = true)
                  (default [] (G !! g)))
          (generation_layout dash people families sources G g) els
          (generation_elements dash people families sources paragraph_ok G
                               els g).
Proof.
  unfold generation_elements, generation_layout.
  set (members := default [] (G !! g)).
  rewrite <- (member_layout_separated g members 0). cbn [Nat.add].
  apply (appends_impl
           (False
            \/ False
            \/ Exists (fun member : nat * string =>
                         missing_family people families (snd member) = true)
                      (combine (seq 0 (length members)) members)
            \/ False \/ False)).
  { rewrite (Exists_members
               (fun person_id =>
                  missing_family people families person_id = true)).
    tauto. }
  change ([Paragraph (generation_title g) Heading2; Paragraph SEP_LINE Normal]
          ++ flat_map (member_layout dash people families sources g
                                     (length members))
                      (combine (seq 0 (length members)) members)
          ++ [Paragraph SEP_LINE Normal; Spacer 1 20])%list
    with ([Paragraph (generation_title g) Heading2]
          ++ [Paragraph SEP_LINE Normal]
          ++ flat_map (member_layout dash people families sources g
                                     (length members))
                      (combine (seq 0 (length members)) members)
          ++ [Paragraph SEP_LINE Normal] ++ [Spacer 1 20])%list.
  apply appends_bind; [apply appends_paragraph |]. intros els1.
  apply appends_bind; [apply appends_paragraph |]. intros els2.
  apply appends_bind.
  { apply appends_for_each. intros els3 member _.
    apply person_elements_appends. }
  intros els3.
  apply appends_bind; [apply appends_paragraph |]. intros els4.
  apply appends_spacer.
Qed.

(** The loop of the report: what it appends is the layout, it fails with
    [KeyError] only at a listed individual whose first spouse-in family
    has no record, and otherwise only where reportlab refuses a paragraph
    of the layout. *)
Lemma report_elements_appends (G : gmap Z (list string)) :
  appends paragraph_ok
          (exists g l person_id,
              G !! g = Some l /\ person_id ∈ l
              /\ missing_family people families person_id = true)
          (report_layout dash people families sources G) []
          (report_elements dash people families sources paragraph_ok G).
Proof.
  unfold report_elements, report_layout.
  eapply appends_impl;
    [| apply appends_for_each; intros els g _;
       apply generation_elements_appends].
  rewrite Exists_exists. split.
  - intros (g & Hg & Hex). apply sorted_keys_elem in Hg as [l Hl].
    rewrite Hl in Hex. simpl in Hex.
    apply Exists_exists in Hex as (person_id & Hin & Hmiss). by eauto 6.
  - intros (g & l & person_id & Hl & Hin & Hmiss). exists g. split.
    + apply sorted_keys_elem. by eauto.
    + rewrite Hl. simpl. apply Exists_exists. by eauto.
Qed.

End ReportLoops.

(** X14. [write_generations_pdf] raises the [ValueError] of [max] exactly
    on an empty generation mapping.  A failed subscript of its own is a
    [KeyError], and is raised only when some listed individual has a
    record whose first spouse-in family has no record; with such an
    individual it never returns.  When reportlab accepts every paragraph
    of the layout, it raises [KeyError] exactly when the mapping is not
    empty and there is such an individual.  An exception of reportlab
    means that a paragraph of the layout is refused, or that the layout
    was all built and writing the document failed. *)
Theorem report_failures (dash : string) (people : gmap string Person)
    (families : gmap string Family) (sources : gmap string Source)
    (paragraph_ok : string -> Style -> bool)
    (build_ok : list Flowable -> bool) (G : gmap Z (list string)) :
  (write_generations_pdf dash people families sources paragraph_ok build_ok G
   = inl MaxOfEmpty
   <-> G = ∅)
  /\ (forall e,
        write_generations_pdf dash people families sources paragraph_ok
                              build_ok G
        = inl (Lookup e) ->
        e = KeyError
        /\ exists g l person_id,
             G !! g = Some l /\ person_id ∈ l
             /\ missing_family people families person_id = true)
  /\ (forall g l person_id r,
        G !! g = Some l -> person_id ∈ l ->
        missing_family people families person_id = true ->
        write_generations_pdf dash people families sources paragraph_ok
                              build_ok G
        <> inr r)
  /\ (forallb (accepted paragraph_ok)
              (report_layout dash people families sources G) = true ->
      (write_generations_pdf dash people families sources paragraph_ok
                             build_ok G
       = inl (Lookup KeyError)
       <-> G <> ∅
           /\ exists g l person_id,
                G !! g = Some l /\ person_id ∈ l
                /\ missing_family people families person_id = true))
  /\ (write_generations_pdf dash people families sources paragraph_ok
                            build_ok G
      = inl Reportlab ->
      forallb (accepted paragraph_ok)
              (report_layout dash people families sources G) = false
      \/ (forallb (accepted paragraph_ok)
                  (report_layout dash people families sources G) = true
          /\ build_ok (report_layout dash people families sources G)
             = false)).
Proof.
  pose proof (report_elements_appends dash people families sources
                paragraph_ok G) as Hloop.
  unfold write_generations_pdf.
  destruct (max_key G) as [m |] eqn:Hm.
  - assert (G <> ∅) as Hne.
    { intros HG. apply max_key_None in HG. congruence. }
    destruct (report_elements dash people families sources paragraph_ok G)
      as [[| e |] | els]; simpl in Hloop |- *.
    + done.
    + destruct Hloop as [-> Hbad].
      split; [by split |]. split; [by intros e [= <-] |].
      split; [done |]. split; [done |]. done.
    + split; [by split |]. split; [done |]. split; [done |].
      split; [congruence |]. intros _. by left.
    + destruct Hloop as (Hbad & Hacc & ->). simpl.
      destruct (build_ok (report_layout dash people families sources G))
        eqn:Hb.
      * split; [by split |]. split; [done |].
        split; [intros g l person_id r Hl Hin Hmiss _; apply Hbad; by eauto 6 |].
        split; [| done]. intros _. split; [done |].
        intros [_ Hex]. by destruct Hbad.
      * split; [by split |]. split; [done |].
        split; [done |].
        split; [| intros _; by right].
        intros _. split; [done |]. intros [_ Hex]. by destruct Hbad.
  - apply max_key_None in Hm. subst G.
    split; [done |]. split; [done |].
    split; [intros g l person_id r Hl; by rewrite lookup_empty in Hl |].
    split; [| done]. intros _. split; [done |]. by intros [Hne _].
Qed.

(** X15. [write_generations_pdf] returns exactly when the generation
    mapping is not empty, no listed individual has a first spouse-in
    family without a record, reportlab accepts every paragraph of the
    layout and writes the document.  The elements handed to the document
    are then, for each generation number in increasing order, the
    heading, a rule, the blocks of the members with a short separator
    between two members and none after the last, a rule and a spacer; the
    number returned is the greatest generation number. *)
Theorem report_layout_correct (dash : string) (people : gmap string Person)
    (families : gmap string Family) (sources : gmap string Source)
    (paragraph_ok : string -> Style -> bool)
    (build_ok : list Flowable -> bool) (G : gmap Z (list string))
    (els : list Flowable) (m : Z) :
  write_generations_pdf dash people families sources paragraph_ok build_ok G
  = inr (els, m)
  <-> els = report_layout dash people families sources G
      /\ is_Some (G !! m)
      /\ (forall g, is_Some (G !! g) -> g <= m)
      /\ (forall g l person_id,
            G !! g = Some l -> person_id ∈ l ->
            missing_family people families person_id = false)
      /\ forallb (accepted paragraph_ok)
                 (report_layout dash people families sources G) = true
      /\ build_ok (report_layout dash people families sources G) = true.
Proof.
  pose proof (report_elements_appends dash people families sources
                paragraph_ok G) as Hloop.
  unfold write_generations_pdf. split.
  - destruct (max_key G) as [m' |] eqn:Hm; [| done].
    destruct (report_elements dash people families sources paragraph_ok G)
      as [[| e |] | els']; simpl in Hloop |- *; try done.
    destruct Hloop as (Hbad & Hacc & ->). simpl.
    destruct (build_ok (report_layout dash people families sources G))
      eqn:Hb; [| done].
    intros [= <- <-]. apply max_key_Some in Hm as [Hin Hle].
    do 3 (split; [done |]). split; [| done].
    intros g l person_id Hl Hin'.
    destruct (missing_family people families person_id) eqn:Hmiss; [| done].
    destruct Hbad. by eauto 6.
  - intros (-> & Hin & Hle & Hok & Hacc & Hb).
    rewrite (proj2 (max_key_greatest G m) (conj Hin Hle)).
    destruct (report_elements dash people families sources paragraph_ok G)
      as [[| e |] | els']; simpl in Hloop |- *.
    + done.
    + destruct Hloop as (_ & g & l & person_id & Hl & Hin' & Hmiss).
      rewrite (Hok g l person_id Hl Hin') in Hmiss. done.
    + congruence.
    + destruct Hloop as (_ & _ & ->). simpl. by rewrite Hb.
Qed.



(** ** The further properties at concrete inputs *)

Lemma lines_outside_records_are_ignored_witness :
  run ("0 TRLR" :: ["1 NAME Ghost"; "2 DATE 1 JAN 1900"]) example_indi_state
  = inr (mkState (people example_indi_state) (families example_indi_state)
                 (sources example_indi_state) (root_id example_indi_state)
                 None None false false false).
Proof.
  apply (lines_outside_records_are_ignored example_indi_state "0 TRLR"
           ["1 NAME Ghost"; "2 DATE 1 JAN 1900"]).
  - reflexivity.
  - reflexivity.
  - repeat constructor.
Defined.

Lemma first_marriage_date_only_witness :
  exists s1 s2,
    run ("1 MARR" :: ["1 HUSB @I2@"] ++ ["2 DATE 4 JUL 1950"])
        example_fam_state = inr s1
    /\ recorded_fam "marriage_date" "F1" s1 = Some "4 JUL 1950"
    /\ in_marr s1 = false
    /\ run ["2 PLAC Boston"] s1 = inr s2
    /\ step s2 "2 DATE 5 JUL 1950" = inr s2
    /\ recorded_fam "marriage_date" "F1" s2 = Some "4 JUL 1950".
Proof.
  apply (first_marriage_date_only "F1" example_fam_state
           "1 MARR" "2 DATE 4 JUL 1950" "2 DATE 5 JUL 1950"
           ["1 HUSB @I2@"] ["2 PLAC Boston"]
           "1" "" "2" "4 JUL 1950" "2" "5 JUL 1950").
  - split; [reflexivity | split; [reflexivity |]].
    eexists. vm_compute. reflexivity.
  - reflexivity.
  - discriminate.
  - repeat constructor.
  - reflexivity.
  - discriminate.
  - repeat constructor.
  - reflexivity.
  - discriminate.
Defined.

Lemma build_generations_monotone_witness :
  exists G G',
    build_generations (r_people example_parsed) (r_families example_parsed)
                      "I1" 1 = inr G
    /\ build_generations (r_people example_parsed) (r_families example_parsed)
                         "I1" 5 = inr G'
    /\ G ⊆ G'.
Proof.
  apply (build_generations_monotone (r_people example_parsed)
           (r_families example_parsed) "I1" 1 5).
  lia.
Defined.

Lemma generation_sizes_witness :
  exists G,
    build_generations (r_people example_parsed) (r_families example_parsed)
                      "I1" 5 = inr G
    /\ forall g l, G !! g = Some l -> Z.of_nat (length l) <= 2 ^ (g - 1).
Proof.
  apply (generation_sizes (r_people example_parsed)
           (r_families example_parsed) "I1" 5).
  apply (bool_decide_unpack
           (map_Forall (fun _ p => (length (p_famc p) <= 1)%nat)
                       (r_people example_parsed))).
  vm_compute. exact I.
Defined.

Lemma report_layout_correct_witness :
  write_generations_pdf "--" (r_people example_parsed)
    (r_families example_parsed) (r_sources example_parsed) any_text writable
    example_generations
  = inr (report_layout "--" (r_people example_parsed)
           (r_families example_parsed) (r_sources example_parsed)
           example_generations, 2).
Proof.
  apply (report_layout_correct "--" (r_people example_parsed)
           (r_families example_parsed) (r_sources example_parsed) any_text
           writable example_generations).
  split; [reflexivity |]. split; [vm_compute; eauto |]. split.
  { intros g [l Hl].
    pose proof (bool_decide_unpack
                  (map_Forall (fun g (_ : list string) => g <= 2)
                              example_generations)) as HF.
    exact (HF ltac:(vm_compute; exact I) g l Hl). }
  split.
  { intros g l person_id Hl Hin.
    pose proof (bool_decide_unpack
                  (map_Forall
                     (fun _ l =>
                        Forall (fun person_id =>
                                  missing_family (r_people example_parsed)
                                    (r_families example_parsed) person_id
                                  = false) l)
                     example_generations)) as HF.
    specialize (HF ltac:(vm_compute; exact I) g l Hl).
    rewrite Forall_forall in HF. by apply HF. }
  split; vm_compute; reflexivity.
Defined.

(** [generate] at concrete inputs: the example of the specification with
    as many generations as requested and with fewer, a name that
    reportlab refuses, a first spouse-in family without a record, a file
    that cannot be read and a combobox without a number. *)
Example generate_done :
  generate "--" any_text writable (Some example_lines) (Some 2) = Done.
Proof. vm_compute. reflexivity. Qed.

Example generate_notice :
  generate "--" any_text writable (Some example_lines) (Some 6) = Notice 6 2.
Proof. vm_compute. reflexivity. Qed.

Example generate_refused_markup :
  generate "--" no_bracket writable (Some markup_lines) (Some 2)
  = Error (Raised Reportlab).
Proof. vm_compute. reflexivity. Qed.

Example generate_missing_family :
  generate "--" any_text writable (Some dangling_lines) (Some 2)
  = Error (Raised (Lookup KeyError)).
Proof. vm_compute. reflexivity. Qed.

Example generate_unreadable :
  generate "--" any_text writable None (Some 2) = Error ReadFailed.
Proof. reflexivity. Qed.

Example generate_no_number :
  generate "--" any_text writable (Some example_lines) None = InvalidInput.
Proof. reflexivity. Qed.

(** ** Writing a line and reading it back *)

Lemma has_space_char (s : string) : has_space s = false -> has_char " " s = false.
Proof.
  induction s as [| c s IH]; simpl; [done |].
  intros H. apply orb_false_iff in H as [Hc Hs]. rewrite (IH Hs), orb_false_r.
  destruct (Ascii.eqb_spec c " ") as [-> | Hn]; [done | done].
Qed.

Lemma rstrip_nonempty_app (p : ascii -> bool) (a b : string) :
  Str.rstrip p b <> "" -> Str.rstrip p (a ++ b) = a ++ Str.rstrip p b.
Proof.
  intros Hb. induction a as [| d a IH]; [done |].
  change (String d a ++ b) with (String d (a ++ b)).
  change (String d a ++ Str.rstrip p b) with (String d (a ++ Str.rstrip p b)).
  cbn [Str.rstrip]. rewrite IH.
  destruct (a ++ Str.rstrip p b) as [| e r] eqn:E; [| done].
  destruct a; simpl in E; [done | discriminate].
Qed.

Lemma rstrip_no_space (s : string) :
  has_space s = false -> Str.rstrip Str.is_space s = s.
Proof.
  induction s as [| c s IH]; [done |]. simpl.
  intros H. apply orb_false_iff in H as [Hc Hs]. rewrite (IH Hs).
  destruct s; by rewrite ?Hc.
Qed.

Lemma lstrip_first (p : ascii -> bool) (c : ascii) (s : string) :
  p c = false -> Str.lstrip p (String c s) = String c s.
Proof. intros Hc. simpl. by rewrite Hc. Qed.

Lemma append_assoc (a b c : string) : (a ++ b) ++ c = a ++ (b ++ c).
Proof.
  induction a as [| d a IH]; [done |].
  change ((String d a ++ b) ++ c) with (String d ((a ++ b) ++ c)).
  by rewrite IH.
Qed.

(** X18. A line written as a level, a space, a tag, a space and a value
    is read back as these three fields, when the level and the tag are
    non-empty and free of white space and the value does not end in white
    space; an empty value may be written with or without its space. *)
Theorem parse_line_of_fields (level tag data : string) :
  level <> "" -> tag <> "" ->
  has_space level = false -> has_space tag = false ->
  Str.rstrip Str.is_space data = data ->
  parse_line (level ++ " " ++ tag ++ " " ++ data) = Some (level, tag, data)
  /\ parse_line (level ++ " " ++ tag) = Some (level, tag, "").
Proof.
  intros Hlevel Htag Hsl Hst Hdata.
  assert (Str.rstrip Str.is_space tag = tag) as Hrt by by apply rstrip_no_space.
  assert (forall rest,
            Str.lstrip Str.is_space (level ++ rest) = level ++ rest) as Hlead.
  { intros rest. destruct level as [| c level]; [done |].
    simpl in Hsl. apply orb_false_iff in Hsl as [Hc _].
    change (String c level ++ rest) with (String c (level ++ rest)).
    by apply lstrip_first. }
  assert (Str.split " " 2 (level ++ " " ++ tag) = [level; tag]) as Hsplit2.
  { cbn [Str.split].
    change (level ++ " " ++ tag) with (level ++ String " " tag).
    rewrite break_app by by apply has_space_char.
    by rewrite break_no_sep by by apply has_space_char. }
  assert (Str.strip Str.is_space (level ++ " " ++ tag) = level ++ " " ++ tag)
    as Hstrip2.
  { unfold Str.strip. rewrite Hlead.
    rewrite rstrip_nonempty_app.
    - change (" " ++ tag) with (String " " tag).
      f_equal. change (String " " tag) with (" " ++ tag).
      rewrite rstrip_nonempty_app; [by rewrite Hrt | by rewrite Hrt].
    - change (" " ++ tag) with (String " " tag).
      change (String " " tag) with (" " ++ tag).
      rewrite rstrip_nonempty_app by by rewrite Hrt.
      rewrite Hrt. by destruct tag. }
  split; [| unfold parse_line; by rewrite Hstrip2, Hsplit2].
  unfold parse_line. destruct data as [| c data].
  - replace (level ++ " " ++ tag ++ " " ++ "")
      with ((level ++ " " ++ tag) ++ String " " "")
      by (by rewrite !append_assoc).
    unfold Str.strip.
    replace ((level ++ " " ++ tag) ++ String " " "")
      with (level ++ ((" " ++ tag) ++ String " " ""))
      by (by rewrite !append_assoc).
    rewrite Hlead.
    replace (level ++ ((" " ++ tag) ++ String " " ""))
      with ((level ++ " " ++ tag) ++ String " " "")
      by (by rewrite !append_assoc).
    rewrite rstrip_app_char by done.
    unfold Str.strip in Hstrip2. rewrite Hlead in Hstrip2.
    by rewrite Hstrip2, Hsplit2.
  - assert (Str.strip Str.is_space (level ++ " " ++ tag ++ " " ++ String c data)
            = level ++ " " ++ tag ++ " " ++ String c data) as ->.
    { unfold Str.strip. rewrite Hlead.
      replace (level ++ " " ++ tag ++ " " ++ String c data)
        with ((level ++ " " ++ tag ++ " ") ++ String c data)
        by (by rewrite !append_assoc).
      rewrite rstrip_nonempty_app by by rewrite Hdata.
      by rewrite Hdata. }
    cbn [Str.split].
    change (level ++ " " ++ tag ++ " " ++ String c data)
      with (level ++ String " " (tag ++ String " " (String c data))).
    rewrite break_app by by apply has_space_char.
    by rewrite break_app by by apply has_space_char.
Qed.

(** ** The marriage place *)

(** X19. Inside a Family record, a [PLAC] line sets [marriage_place]
    exactly when [marriage_date] is in the event map and
    [marriage_place] is not; otherwise the record is unchanged.  Nothing
    else in the state changes. *)
Theorem marriage_place_needs_date (s : State) (c : string) (f : Family)
    (line level data : string) :
  current_type s = Some FAM -> current s = Some c -> families s !! c = Some f ->
  parse_line line = Some (level, "PLAC", data) -> level <> "0" ->
  exists f',
    step s line = inr (with_families s (<[c := f']> (families s)))
    /\ f_id f' = f_id f /\ f_husb f' = f_husb f /\ f_wife f' = f_wife f
    /\ f_chil f' = f_chil f
    /\ (is_Some (f_events f !! "marriage_date")
        /\ f_events f !! "marriage_place" = None ->
        f_events f' = <["marriage_place" := data]> (f_events f))
    /\ (~ (is_Some (f_events f !! "marriage_date")
           /\ f_events f !! "marriage_place" = None) ->
        f_events f' = f_events f).
Proof.
  intros Ht Hc Hf Hline Hlevel.
  exists (fam_plac data f). split.
  { rewrite (step_below _ _ _ _ _ Hline Hlevel), Ht.
    unfold fam_line. eval_tags. simpl. by run_modify Hc Hf. }
  unfold fam_plac, has_key.
  destruct (f_events f !! "marriage_date") as [d |] eqn:Hd,
           (f_events f !! "marriage_place") as [pl |] eqn:Hp;
    simpl; do 4 (split; [done |]); split; intros H;
    solve [ done
          | exfalso; destruct H as [[? ?] ?]; done
          | exfalso; apply H; split; by eauto ].
Qed.

(** ** The lines of a person *)

Lemma safe_nonempty (val : string) : safe val <> "".
Proof. unfold safe. by destruct val. Qed.

Lemma pretty_marriage_nonempty (dash : string) (family : option Family) :
  pretty_marriage dash family <> "".
Proof.
  unfold pretty_marriage. destruct family as [fam |]; [| done].
  destruct (get_or_empty (f_events fam) "marriage_date") as [| c d];
    destruct (get_or_empty (f_events fam) "marriage_place") as [| c' d'];
    done.
Qed.

Lemma join_nil_titles (sources : gmap string Source) (refs : list string) :
  Forall (fun s => sources !! s = None) refs ->
  source_titles sources refs = [].
Proof.
  unfold source_titles. induction 1 as [| s refs Hs _ IH]; [done |].
  simpl. by rewrite Hs.
Qed.

(** X20. The text after a label is never empty on the [Name], [Birth],
    [Birthplace] and [Marriage] lines of a person, nor on the [Death] and
    [Deathplace] lines of a later generation: what is missing reads
    [No data].  A block has four lines in generation 1 and seven in
    later generations. *)
Theorem person_lines_are_filled (dash : string) (people : gmap string Person)
    (families : gmap string Family) (sources : gmap string Source)
    (g : Z) (person_id : string) :
  missing_family people families person_id = false ->
  exists name birth bplace marriage rest,
    person_lines dash people families sources g person_id
    = inr (name :: birth :: bplace :: marriage :: rest)
    /\ labelled "Name: " name /\ labelled "Birth: " birth
    /\ labelled "Birthplace: " bplace /\ labelled "Marriage: " marriage
    /\ (g <= 1 -> rest = [])
    /\ (1 < g ->
        exists death dplace srcs,
          rest = [death; dplace; srcs]
          /\ labelled "Death: " death /\ labelled "Deathplace: " dplace).
Proof.
  intros Hm. unfold person_lines.
  assert (exists family,
            first_family families (lookup_person people person_id)
            = inr family) as [family ->].
  { unfold missing_family, first_family, lookup_person in *.
    destruct (people !! person_id) as [p |]; simpl; [| by eauto].
    destruct (p_fams p) as [| fam_id fams]; simpl; [by eauto |].
    unfold has_key in Hm. destruct (families !! fam_id); simpl; by eauto. }
  cbn [bind]. unfold ret.
  destruct (Z.ltb 1 g) eqn:Hg.
  - apply Z.ltb_lt in Hg. do 5 eexists. split; [reflexivity |].
    repeat (split; [eexists; split; [reflexivity |];
                    first [apply safe_nonempty
                          | apply pretty_marriage_nonempty] |]).
    split; [lia |]. intros _. do 3 eexists. split; [reflexivity |].
    split; eexists; (split; [reflexivity | apply safe_nonempty]).
  - apply Z.ltb_ge in Hg. do 5 eexists. split; [reflexivity |].
    repeat (split; [eexists; split; [reflexivity |];
                    first [apply safe_nonempty
                          | apply pretty_marriage_nonempty] |]).
    split; [done | lia].
Qed.

(** X21. The [Sources] line reads [No data] when the person has no source
    reference, or no record at all; but when the person has references
    and none of them has a record in the sources mapping, the line is the
    bare label [Sources: ] with nothing after it. *)
Theorem sources_line_cases (people : gmap string Person)
    (sources : gmap string Source) (person_id : string) :
  (people !! person_id = None
   \/ (exists p, people !! person_id = Some p /\ p_sources p = []) ->
   sources_line sources (lookup_person people person_id) = "Sources: No data")
  /\ (forall p,
        people !! person_id = Some p -> p_sources p <> [] ->
        Forall (fun s => sources !! s = None) (p_sources p) ->
        sources_line sources (lookup_person people person_id) = "Sources: ").
Proof.
  unfold sources_line, lookup_person. split.
  - intros [-> | (p & -> & Hs)]; simpl; [done | by rewrite Hs].
  - intros p -> Hne Hall. cbn [rp_sources].
    destruct (p_sources p) as [| s refs] eqn:Hs; [done |].
    by rewrite (join_nil_titles sources (s :: refs) Hall).
Qed.

Lemma parse_line_of_fields_witness :
  parse_line ("2" ++ " " ++ "DATE" ++ " " ++ "4 JUL 1950")
  = Some ("2", "DATE", "4 JUL 1950")
  /\ parse_line ("2" ++ " " ++ "DATE") = Some ("2", "DATE", "").
Proof.
  apply (parse_line_of_fields "2" "DATE" "4 JUL 1950").
  - discriminate.
  - discriminate.
  - reflexivity.
  - reflexivity.
  - reflexivity.
Defined.

Lemma marriage_place_needs_date_witness :
  exists f',
    step married_state "2 PLAC Boston"
    = inr (with_families married_state
             (<["F1" := f']> (families married_state)))
    /\ f_id f' = "F1" /\ f_husb f' = "" /\ f_wife f' = "" /\ f_chil f' = []
    /\ (is_Some (f_events married_family !! "marriage_date")
        /\ f_events married_family !! "marriage_place" = None ->
        f_events f' = <["marriage_place" := "Boston"]> (f_events married_family))
    /\ (~ (is_Some (f_events married_family !! "marriage_date")
           /\ f_events married_family !! "marriage_place" = None) ->
        f_events f' = f_events married_family).
Proof.
  apply (marriage_place_needs_date married_state "F1" married_family
           "2 PLAC Boston" "2" "Boston").
  - reflexivity.
  - reflexivity.
  - vm_compute. reflexivity.
  - reflexivity.
  - discriminate.
Defined.

Lemma person_lines_are_filled_witness :
  exists name birth bplace marriage rest,
    person_lines "--" (r_people example_parsed) (r_families example_parsed)
                 (r_sources example_parsed) 2 "I1"
    = inr (name :: birth :: bplace :: marriage :: rest)
    /\ labelled "Name: " name /\ labelled "Birth: " birth
    /\ labelled "Birthplace: " bplace /\ labelled "Marriage: " marriage
    /\ (2 <= 1 -> rest = [])
    /\ (1 < 2 ->
        exists death dplace srcs,
          rest = [death; dplace; srcs]
          /\ labelled "Death: " death /\ labelled "Deathplace: " dplace).
Proof.
  apply (person_lines_are_filled "--" (r_people example_parsed)
           (r_families example_parsed) (r_sources example_parsed) 2 "I1").
  vm_compute. reflexivity.
Defined.

(** * Identifiers are stored without their delimiters *)

(** ** [clean_id] gives the stripped form, and nothing else does *)

Lemma times_at_S (n : nat) : times "@" (S n) = String "@" (times "@" n).
Proof. reflexivity. Qed.

Lemma times_at_snoc (n : nat) : times "@" (S n) = times "@" n ++ "@".
Proof.
  induction n as [| n IH]; [done |].
  rewrite times_at_S, IH at 1. by rewrite times_at_S.
Qed.

Lemma is_char_true (c d : ascii) : Str.is_char c d = true -> d = c.
Proof. unfold Str.is_char. intros H. by apply Ascii.eqb_eq in H. Qed.

Lemma lstrip_at (s : string) :
  exists n, s = times "@" n ++ Str.lstrip (Str.is_char "@") s.
Proof.
  induction s as [| d s [n IH]]; [by exists 0%nat |]. cbn [Str.lstrip].
  destruct (Str.is_char "@" d) eqn:Hd.
  - apply is_char_true in Hd as ->. exists (S n).
    exact (f_equal (String "@") IH).
  - by exists 0%nat.
Qed.

Lemma rstrip_at (s : string) :
  exists m, s = Str.rstrip (Str.is_char "@") s ++ times "@" m.
Proof.
  induction s as [| d s [m IH]]; [by exists 0%nat |]. cbn [Str.rstrip].
  destruct (Str.rstrip (Str.is_char "@") s) as [| e r] eqn:Hr.
  - simpl in IH. destruct (Str.is_char "@" d) eqn:Hd.
    + apply is_char_true in Hd as ->. exists (S m).
      exact (f_equal (String "@") IH).
    + exists m. exact (f_equal (String d) IH).
  - exists m. exact (f_equal (String d) IH).
Qed.

Lemma ends_with_rstrip (s : string) :
  ends_with "@" (Str.rstrip (Str.is_char "@") s) = false.
Proof.
  induction s as [| d s IH]; [done |]. cbn [Str.rstrip].
  destruct (Str.rstrip (Str.is_char "@") s) as [| e r] eqn:Hr.
  - destruct (Str.is_char "@" d) eqn:Hd; [done |]. cbn [ends_with].
    unfold Str.is_char in Hd. by rewrite Ascii.eqb_sym.
  - exact IH.
Qed.

Lemma no_lead_startswith (s : string) :
  Str.no_lead (Str.is_char "@") s -> Str.startswith "@" s = false.
Proof.
  destruct s as [| c s]; [done |]. simpl. unfold Str.is_char.
  intros H. by rewrite Ascii.eqb_sym.
Qed.

Lemma clean_id_strip (w : string) :
  clean_id w = Str.strip (Str.is_char "@") w.
Proof. by destruct w. Qed.

Lemma clean_id_stripped (w : string) : stripped_form w (clean_id w).
Proof.
  rewrite clean_id_strip. unfold Str.strip. split; [| split].
  - destruct (lstrip_at w) as [n Hn].
    destruct (rstrip_at (Str.lstrip (Str.is_char "@") w)) as [m Hm].
    exists n, m. by rewrite <- Hm.
  - apply no_lead_startswith, StrFacts.rstrip_no_lead, StrFacts.lstrip_no_lead.
  - apply ends_with_rstrip.
Qed.

Lemma lstrip_times_at (n : nat) (x : string) :
  Str.lstrip (Str.is_char "@") (times "@" n ++ x)
  = Str.lstrip (Str.is_char "@") x.
Proof.
  induction n as [| n IH]; [done |].
  rewrite times_at_S.
  change (String "@" (times "@" n) ++ x) with (String "@" (times "@" n ++ x)).
  simpl. exact IH.
Qed.

Lemma rstrip_times_at (m : nat) (r : string) :
  Str.rstrip (Str.is_char "@") (r ++ times "@" m)
  = Str.rstrip (Str.is_char "@") r.
Proof.
  induction m as [| m IH]; [by rewrite append_empty_r |].
  rewrite times_at_snoc, <- append_assoc.
  by rewrite rstrip_app_char.
Qed.

Lemma rstrip_cons (p : ascii -> bool) (d : ascii) (s : string) :
  Str.rstrip p (String d s)
  = match Str.rstrip p s with
    | EmptyString => if p d then EmptyString else String d EmptyString
    | String e r => String d (String e r)
    end.
Proof. reflexivity. Qed.

Lemma rstrip_ends_with (r : string) :
  ends_with "@" r = false -> Str.rstrip (Str.is_char "@") r = r.
Proof.
  induction r as [| d r IH]; [done |].
  destruct r as [| e r].
  - cbn [ends_with]. intros Hd. rewrite rstrip_cons. cbn [Str.rstrip].
    unfold Str.is_char. by rewrite Ascii.eqb_sym, Hd.
  - intros He. change (ends_with "@" (String e r) = false) in He.
    by rewrite rstrip_cons, (IH He).
Qed.

(** The stripped form is unique: it is what [clean_id] returns. *)
Lemma stripped_form_clean_id (w r : string) :
  stripped_form w r -> clean_id w = r.
Proof.
  intros ((n & m & ->) & Hstart & Hend).
  rewrite clean_id_strip. unfold Str.strip. rewrite lstrip_times_at.
  destruct r as [| c r].
  - change ("" ++ times "@" m) with (times "@" m).
    rewrite <- (append_empty_r (times "@" m)), lstrip_times_at. done.
  - simpl in Hstart. unfold Str.is_char.
    change (String c r ++ times "@" m) with (String c (r ++ times "@" m)).
    cbn [Str.lstrip]. rewrite Ascii.eqb_sym, Hstart.
    change (String c (r ++ times "@" m)) with (String c r ++ times "@" m).
    rewrite rstrip_times_at. by apply rstrip_ends_with.
Qed.

(** ** The root identifier *)

Lemma opens_indi_tag (line : string) :
  opens_indi line = clean_id <$> indi_tag line.
Proof.
  unfold opens_indi, opens, opened, indi_tag.
  destruct (parse_line line) as [[[level tag] data] |]; [| done].
  destruct (level =? "0"), (Str.startswith "@" tag); simpl; try done.
  destruct (String.eqb_spec data "INDI") as [-> | Hn]; [done |].
  by repeat case_match.
Qed.

Lemma head_omap_fmap {A B C : Type} (f : B -> C) (g : A -> option B)
    (l : list A) :
  head (omap (fun x => f <$> g x) l) = f <$> head (omap g l).
Proof.
  induction l as [| x l IH]; [done |]. simpl.
  by destruct (g x).
Qed.

Lemma head_opens_indi (lines : list string) :
  head (omap opens_indi lines) = clean_id <$> head (omap indi_tag lines).
Proof.
  rewrite <- head_omap_fmap. f_equal.
  induction lines as [| line lines IH]; [done |].
  cbn [omap list_omap]. by rewrite opens_indi_tag, IH.
Qed.

(** C7. [parse_gedcom] returns on every input, and the root identifier it
    returns is the tag of the first line of the file that opens an
    Individual record, with the delimiters stripped: the tag is a run of
    [@], the root, and a run of [@], and the root neither starts nor ends
    with [@].  Family and Source records before or after that line do not
    matter; when no line opens an Individual record, no root identifier is
    returned. *)
Theorem root_id_is_first_individual (lines : list string) :
  exists R, parse_gedcom lines = inr R
    /\ r_root_id R = head (omap opens_indi lines)
    /\ match head (omap indi_tag lines) with
       | None => r_root_id R = None
       | Some tag => exists r, r_root_id R = Some r /\ stripped_form tag r
       end.
Proof.
  destruct (parse_gedcom_total lines) as (s & Hrun & Hparse).
  exists (parsed_of s). split; [done |]. simpl.
  rewrite (run_root_id _ _ _ Hrun). simpl. split; [done |].
  rewrite head_opens_indi.
  destruct (head (omap indi_tag lines)) as [tag |]; simpl; [| done].
  exists (clean_id tag). split; [done | apply clean_id_stripped].
Qed.

(** ** Family references *)

Lemma indi_tag_opens (line w : string) :
  indi_tag line = Some w -> opens line = Some (INDI, clean_id w).
Proof.
  unfold indi_tag, opens, opened.
  destruct (parse_line line) as [[[level tag] data] |]; [| done].
  destruct (level =? "0"), (Str.startswith "@" tag); simpl; try done.
  destruct (String.eqb_spec data "INDI") as [-> | Hn]; [| done].
  by intros [= ->].
Qed.

Lemma step_opens_current (s s' : State) (line : string) (t : RecType)
    (k : string) :
  opens line = Some (t, k) -> step s line = inr s' ->
  current s' = Some k /\ current_type s' = Some t.
Proof.
  unfold opens, step.
  destruct (parse_line line) as [[[level tag] data] |]; [| done].
  destruct (level =? "0"); [| done].
  unfold opened, new_record. intros Ho [= <-].
  repeat case_match; simplify_eq; done.
Qed.

Lemma step_not_level0_context (s s' : State) (line : string) :
  is_level0 line = false -> step s line = inr s' ->
  current s' = current s /\ current_type s' = current_type s.
Proof.
  unfold is_level0, step.
  destruct (parse_line line) as [[[level tag] data] |];
    [| by intros _ [= <-]].
  intros ->. intros H. destruct (current_type s) as [[| |] |] eqn:Ht.
  - apply indi_line_frame in H as (_ & Hc & Hty & _). by rewrite Hc, Hty.
  - apply fam_line_frame in H as (_ & Hc & Hty & _). by rewrite Hc, Hty.
  - apply sour_line_frame in H as (_ & Hc & Hty & _). by rewrite Hc, Hty.
  - inv_ret H. done.
Qed.

Lemma run_not_level0_in_fam (c : string) (lines : list string) :
  Forall (fun l => is_level0 l = false) lines ->
  forall s s', in_fam c s -> run lines s = inr s' -> in_fam c s'.
Proof.
  induction 1 as [| line lines Hl _ IH]; intros s s' Hin H.
  - by injection H as <-.
  - rewrite run_cons in H. apply bind_ret_inv in H as (s1 & H1 & H2).
    apply (IH s1); [| done].
    destruct Hin as (Ht & Hc & Hf).
    destruct (step_not_level0_context _ _ _ Hl H1) as [Hc1 Ht1].
    split; [congruence |]. split; [congruence |].
    apply step_keys in H1 as (_ & Hsub & _).
    by apply elem_of_dom, Hsub, elem_of_dom.
Qed.

(** A reference line inside a family record stores the cleaned data in
    the field of its tag. *)
Lemma ref_line_step (s : State) (c : string) (f : Family)
    (line level tag w : string) :
  current_type s = Some FAM -> current s = Some c -> families s !! c = Some f ->
  parse_line line = Some (level, tag, w) -> level <> "0" ->
  tag ∈ ["HUSB"; "WIFE"; "CHIL"] ->
  exists f',
    step s line = inr (with_families s (<[c := f']> (families s)))
    /\ (tag = "HUSB" -> f' = set_husb (clean_id w) f)
    /\ (tag = "WIFE" -> f' = set_wife (clean_id w) f)
    /\ (tag = "CHIL" -> f' = append_chil (clean_id w) f).
Proof.
  intros Ht Hc Hf Hline Hlevel Htag.
  rewrite (step_below _ _ _ _ _ Hline Hlevel), Ht.
  rewrite !elem_of_cons, elem_of_nil in Htag.
  destruct Htag as [-> | [-> | [-> | []]]]; unfold fam_line; eval_tags;
    run_modify Hc Hf; eexists; (split; [reflexivity |]);
    repeat split; intros; done.
Qed.

Ltac kept_field H Hfalse c :=
  unfold fam_line in H; rewrite Hfalse in H;
  repeat case_match; inv_ret H; simpl; try done;
  let c0 := fresh "c0" in
  let v := fresh "v" in
  let Hv := fresh "Hv" in
  let Hn := fresh "Hn" in
  match goal with
  | Hm : modify _ _ _ = inr _ |- _ =>
      apply modify_inv in Hm as (c0 & v & _ & Hv & ->)
  end;
  destruct (decide (c = c0)) as [-> | Hn];
  [ rewrite lookup_insert_eq, Hv; simpl;
    unfold fam_plac; by repeat case_match
  | by rewrite lookup_insert_ne by done ].

Lemma step_husb_kept (s s' : State) (line c : string) :
  step s line = inr s' -> opens line <> Some (FAM, c) ->
  line_tag line <> Some "HUSB" ->
  f_husb <$> families s' !! c = f_husb <$> families s !! c.
Proof.
  unfold step, opens, line_tag.
  destruct (parse_line line) as [[[level tag] data] |];
    [| by intros [= <-]].
  destruct (level =? "0").
  - intros [= <-] Hno _. rewrite new_record_families.
    destruct (opened tag data) as [[[| |] k] |]; try done.
    by rewrite lookup_insert_ne by congruence.
  - intros H _ Htag.
    assert ((tag =? "HUSB") = false) as Hfalse
      by (apply String.eqb_neq; congruence).
    destruct (current_type s) as [[| |] |].
    + by apply indi_line_frame in H as (_ & _ & _ & -> & _).
    + kept_field H Hfalse c.
    + by apply sour_line_frame in H as (_ & _ & _ & _ & -> & _).
    + by inv_ret H.
Qed.

Lemma step_wife_kept (s s' : State) (line c : string) :
  step s line = inr s' -> opens line <> Some (FAM, c) ->
  line_tag line <> Some "WIFE" ->
  f_wife <$> families s' !! c = f_wife <$> families s !! c.
Proof.
  unfold step, opens, line_tag.
  destruct (parse_line line) as [[[level tag] data] |];
    [| by intros [= <-]].
  destruct (level =? "0").
  - intros [= <-] Hno _. rewrite new_record_families.
    destruct (opened tag data) as [[[| |] k] |]; try done.
    by rewrite lookup_insert_ne by congruence.
  - intros H _ Htag.
    assert ((tag =? "WIFE") = false) as Hfalse
      by (apply String.eqb_neq; congruence).
    destruct (current_type s) as [[| |] |].
    + by apply indi_line_frame in H as (_ & _ & _ & -> & _).
    + kept_field H Hfalse c.
    + by apply sour_line_frame in H as (_ & _ & _ & _ & -> & _).
    + by inv_ret H.
Qed.

Lemma run_husb_kept (c : string) (lines : list string) :
  Forall (fun l => opens l <> Some (FAM, c)) lines ->
  Forall (fun l => line_tag l <> Some "HUSB") lines ->
  forall s s', run lines s = inr s' ->
    f_husb <$> families s' !! c = f_husb <$> families s !! c.
Proof.
  induction 1 as [| line lines Hl _ IH]; intros Htags s s' H.
  - by injection H as <-.
  - apply Forall_cons in Htags as [Htag Htags].
    rewrite run_cons in H. apply bind_ret_inv in H as (s1 & H1 & H2).
    rewrite (IH Htags s1 s' H2). by apply (step_husb_kept s s1 line).
Qed.

Lemma run_wife_kept (c : string) (lines : list string) :
  Forall (fun l => opens l <> Some (FAM, c)) lines ->
  Forall (fun l => line_tag l <> Some "WIFE") lines ->
  forall s s', run lines s = inr s' ->
    f_wife <$> families s' !! c = f_wife <$> families s !! c.
Proof.
  induction 1 as [| line lines Hl _ IH]; intros Htags s s' H.
  - by injection H as <-.
  - apply Forall_cons in Htags as [Htag Htags].
    rewrite run_cons in H. apply bind_ret_inv in H as (s1 & H1 & H2).
    rewrite (IH Htags s1 s' H2). by apply (step_wife_kept s s1 line).
Qed.

(** A reference line of a family record, read to the end of the file. *)
Lemma kin_resolves (pre mid post : list string) (l0 l2 l1 : string)
    (c level tag w w1 r : string) (s : State) :
  run (pre ++ [l0] ++ mid ++ [l2] ++ post)%list init = inr s ->
  opens l0 = Some (FAM, c) ->
  Forall (fun l => is_level0 l = false) mid ->
  parse_line l2 = Some (level, tag, w) -> level <> "0" ->
  tag ∈ ["HUSB"; "WIFE"; "CHIL"] ->
  Forall (fun l => opens l <> Some (FAM, c)) post ->
  (tag = "CHIL" \/ Forall (fun l => line_tag l <> Some tag) post) ->
  l1 ∈ (pre ++ [l0] ++ mid ++ [l2] ++ post)%list -> indi_tag l1 = Some w1 ->
  stripped_form w1 r -> stripped_form w r ->
  exists f p,
    families s !! c = Some f
    /\ (tag = "HUSB" -> f_husb f = r)
    /\ (tag = "WIFE" -> f_wife f = r)
    /\ (tag = "CHIL" -> r ∈ f_chil f)
    /\ people s !! r = Some p /\ p_id p = r.
Proof.
  intros Hrun Hl0 Hmid Hl2 Hlevel Htag Hpost Hover Hin Hl1 Hw1 Hw.
  apply stripped_form_clean_id in Hw1, Hw.
  (* the individual *)
  pose proof (indi_tag_opens _ _ Hl1) as Ho1. rewrite Hw1 in Ho1.
  destruct (run_opened_present _ l1 r init s Hin Ho1 Hrun) as [p Hp].
  assert (p_id p = r) as Hid.
  { apply (run_ids_ok _ init s Hrun); [| done].
    intros k q Hq. simpl in Hq. by rewrite lookup_empty in Hq. }
  (* the family *)
  rewrite run_app in Hrun. apply bind_ret_inv in Hrun as (s0 & _ & Hrun).
  change ([l0] ++ mid ++ [l2] ++ post)%list
    with (l0 :: (mid ++ l2 :: post))%list in Hrun.
  rewrite run_cons in Hrun. apply bind_ret_inv in Hrun as (s1 & Hs1 & Hrun).
  rewrite run_app in Hrun. apply bind_ret_inv in Hrun as (s2 & Hs2 & Hrun).
  rewrite run_cons in Hrun. apply bind_ret_inv in Hrun as (s3 & Hs3 & Hs).
  assert (in_fam c s1) as Hin1.
  { destruct (step_opens_current _ _ _ _ _ Hl0 Hs1) as [Hc Ht].
    pose proof (step_opened _ _ _ _ _ Hl0 Hs1) as Hf. simpl in Hf.
    split; [done |]. split; [done |]. by rewrite Hf. }
  destruct (run_not_level0_in_fam c mid Hmid s1 s2 Hin1 Hs2)
    as (Ht2 & Hc2 & [f2 Hf2]).
  destruct (ref_line_step s2 c f2 l2 level tag w Ht2 Hc2 Hf2 Hl2 Hlevel Htag)
    as (f' & Hstep & Hhusb & Hwife & Hchil).
  rewrite Hstep in Hs3. injection Hs3 as <-.
  pose proof (run_families_kept c post _ s Hs Hpost) as Hkept.
  simpl in Hkept. rewrite lookup_insert_eq in Hkept.
  inversion Hkept as [? f Hext Ha Hf |]; subst. symmetry in Hf.
  exists f, p. split; [done |].
  rewrite !elem_of_cons, elem_of_nil in Htag.
  destruct Htag as [-> | [-> | [-> | []]]].
  - destruct Hover as [? | Hno]; [done |].
    pose proof (run_husb_kept c post Hpost Hno _ s Hs) as Hk.
    simpl in Hk. rewrite lookup_insert_eq, Hf, (Hhusb eq_refl) in Hk.
    simpl in Hk. injection Hk as ->. by repeat split.
  - destruct Hover as [? | Hno]; [done |].
    pose proof (run_wife_kept c post Hpost Hno _ s Hs) as Hk.
    simpl in Hk. rewrite lookup_insert_eq, Hf, (Hwife eq_refl) in Hk.
    simpl in Hk. injection Hk as ->. by repeat split.
  - destruct Hext as (_ & [k Hk] & _). rewrite (Hchil eq_refl) in Hk.
    simpl in Hk. split; [done |]. split; [done |]. split; [| done].
    intros _. rewrite Hk. rewrite !elem_of_app, elem_of_cons. auto.
Qed.

(** C8. In every parse result:
    - every identifier a family refers to is empty or is the cleaned data
      of a [HUSB], [WIFE] or [CHIL] line, and one that is the identifier
      of an opened Individual record is found in the individuals mapping
      under that very key;
    - a [HUSB], [WIFE] or [CHIL] line inside a Family record stores, in
      the field of its tag, the data with the delimiters stripped;
    - so a reference line of a Family record whose data strips to the
      same identifier as the tag of a line that opens an Individual
      record ends, when no later line overrides or resets it, as a
      reference that is a key of the individuals mapping, the key of a
      record with that identifier;
    - the record line and the reference line apply the same [clean_id],
      which is idempotent. *)
Theorem family_refs_resolve (lines : list string) (R : Parsed) :
  parse_gedcom lines = inr R ->
  (forall fid fam x,
      r_families R !! fid = Some fam -> x ∈ family_refs fam ->
      x = "" \/ x ∈ omap ref_of lines)
  /\ (forall fid fam x line,
        r_families R !! fid = Some fam -> x ∈ family_refs fam ->
        line ∈ lines -> opens line = Some (INDI, x) ->
        exists p, r_people R !! x = Some p /\ p_id p = x)
  /\ (forall l1 l2 level tag w,
        parse_line l1 = Some ("0", w, "INDI") -> Str.startswith "@" w = true ->
        parse_line l2 = Some (level, tag, w) -> level <> "0" ->
        tag ∈ ["HUSB"; "WIFE"; "CHIL"] ->
        opens l1 = Some (INDI, clean_id w) /\ ref_of l2 = Some (clean_id w))
  /\ (forall w, clean_id (clean_id w) = clean_id w)
  /\ (forall s c f line level tag w,
        current_type s = Some FAM -> current s = Some c ->
        families s !! c = Some f ->
        parse_line line = Some (level, tag, w) -> level <> "0" ->
        tag ∈ ["HUSB"; "WIFE"; "CHIL"] ->
        exists r f',
          stripped_form w r
          /\ step s line = inr (with_families s (<[c := f']> (families s)))
          /\ (tag = "HUSB" -> f' = set_husb r f)
          /\ (tag = "WIFE" -> f' = set_wife r f)
          /\ (tag = "CHIL" -> f' = append_chil r f))
  /\ (forall pre l0 mid l2 post c level tag w l1 w1 r,
        lines = (pre ++ [l0] ++ mid ++ [l2] ++ post)%list ->
        opens l0 = Some (FAM, c) ->
        Forall (fun l => is_level0 l = false) mid ->
        parse_line l2 = Some (level, tag, w) -> level <> "0" ->
        tag ∈ ["HUSB"; "WIFE"; "CHIL"] ->
        Forall (fun l => opens l <> Some (FAM, c)) post ->
        (tag = "CHIL" \/ Forall (fun l => line_tag l <> Some tag) post) ->
        l1 ∈ lines -> indi_tag l1 = Some w1 ->
        stripped_form w1 r -> stripped_form w r ->
        exists f p,
          r_families R !! c = Some f
          /\ (tag = "HUSB" -> f_husb f = r)
          /\ (tag = "WIFE" -> f_wife f = r)
          /\ (tag = "CHIL" -> r ∈ f_chil f)
          /\ r_people R !! r = Some p /\ p_id p = r).
Proof.
  intros Hparse.
  destruct (family_refs_origin lines R Hparse) as (H1 & H2 & H3 & H4).
  do 4 (split; [done |]). split.
  - intros s c f line level tag w Ht Hc Hf Hline Hlevel Htag.
    destruct (ref_line_step s c f line level tag w Ht Hc Hf Hline Hlevel Htag)
      as (f' & Hstep & Hrest).
    exists (clean_id w), f'. split; [apply clean_id_stripped | done].
  - intros pre l0 mid l2 post c level tag w l1 w1 r -> Hl0 Hmid Hl2 Hlevel
           Htag Hpost Hover Hin Hl1 Hw1 Hw.
    destruct (parse_gedcom_total (pre ++ [l0] ++ mid ++ [l2] ++ post)%list)
      as (s & Hrun & Hparse').
    rewrite Hparse' in Hparse. injection Hparse as <-. simpl.
    by apply (kin_resolves pre mid post l0 l2 l1 c level tag w w1 r s).
Qed.

Lemma family_refs_resolve_witness :
  parse_gedcom kin_lines = inr kin_parsed
  /\ r_families kin_parsed !! "F1" = Some (mkFamily "F1" "I2" "" ["I1"] ∅)
  /\ r_people kin_parsed !! "I1" = Some (mkPerson "I1" "" ∅ [] ["F1"] [])
  /\ r_people kin_parsed !! "I2" = Some (mkPerson "I2" "John Doe" ∅ [] [] [])
  /\ (exists f p,
        r_families kin_parsed !! "F1" = Some f
        /\ "I1" ∈ f_chil f
        /\ r_people kin_parsed !! "I1" = Some p /\ p_id p = "I1")
  /\ (exists f p,
        r_families kin_parsed !! "F1" = Some f
        /\ f_husb f = "I2"
        /\ r_people kin_parsed !! "I2" = Some p /\ p_id p = "I2").
Proof.
  assert (parse_gedcom kin_lines = inr kin_parsed) as Hparse
    by (vm_compute; reflexivity).
  split; [exact Hparse |].
  do 3 (split; [vm_compute; reflexivity |]).
  destruct (family_refs_resolve kin_lines kin_parsed Hparse)
    as (_ & _ & _ & _ & _ & Hkin).
  split.
  - destruct (Hkin ["0 @I1@ INDI"; "1 FAMC @F1@"; "0 @I2@ INDI";
                    "1 NAME John /Doe/"]
                   "0 @F1@ FAM" ["1 HUSB @I2@"] "1 CHIL @I1@" ["1 MARR"]
                   "F1" "1" "CHIL" "@I1@" "0 @I1@ INDI" "@I1@" "I1")
      as (f & p & Hf & _ & _ & Hchil & Hp & Hid).
    + reflexivity.
    + reflexivity.
    + repeat constructor.
    + reflexivity.
    + discriminate.
    + apply list_elem_of_In. simpl. tauto.
    + repeat constructor; discriminate.
    + left. reflexivity.
    + apply list_elem_of_In. simpl. tauto.
    + reflexivity.
    + split; [by exists 1%nat, 1%nat | by split].
    + split; [by exists 1%nat, 1%nat | by split].
    + exists f, p. split; [exact Hf |]. split; [by apply Hchil | by split].
  - destruct (Hkin ["0 @I1@ INDI"; "1 FAMC @F1@"; "0 @I2@ INDI";
                    "1 NAME John /Doe/"]
                   "0 @F1@ FAM" [] "1 HUSB @I2@" ["1 CHIL @I1@"; "1 MARR"]
                   "F1" "1" "HUSB" "@I2@" "0 @I2@ INDI" "@I2@" "I2")
      as (f & p & Hf & Hhusb & _ & _ & Hp & Hid).
    + reflexivity.
    + reflexivity.
    + constructor.
    + reflexivity.
    + discriminate.
    + apply list_elem_of_In. simpl. tauto.
    + repeat constructor; discriminate.
    + right. repeat constructor; discriminate.
    + apply list_elem_of_In. simpl. tauto.
    + reflexivity.
    + split; [by exists 1%nat, 1%nat | by split].
    + split; [by exists 1%nat, 1%nat | by split].
    + exists f, p. split; [exact Hf |]. split; [by apply Hhusb | by split].
Defined.
